(** * gdb_numpy: the dereferencing engine of [to_array]

    A shallow embedding of [deref.py] and [gdb_numpy.py].  The debugger
    ([gdb.Value], [gdb.parse_and_eval]) and the array library ([np.zeros],
    the scalar constructors) are external collaborators: they appear as the
    operations of the class [Gdb].  Python exceptions are values of [exn];
    observable effects (debugger accesses, allocation, stores, printing) are
    collected in an event log.  The [while] loops of [_get_deref_funcs] run
    on fuel.  The text [_type_exp] of [gdb_numpy.py] is used nowhere and is
    left out. *)

From Stdlib Require Import String Ascii List ZArith Lia Bool Arith.
Import ListNotations.
Local Open Scope string_scope.
Local Open Scope list_scope.

(** ** Python strings and the regular expressions of [deref.py] *)

Module Re.

(** [\d] over ASCII text. *)
Definition is_digit (c : ascii) : bool :=
  (48 <=? nat_of_ascii c)%nat && (nat_of_ascii c <=? 57)%nat.

Definition is_char (c d : ascii) : bool := Ascii.eqb c d.

(** [$]: at the end of the text, or just before a final newline. *)
Definition at_eol (s : string) : bool :=
  match s with
  | EmptyString => true
  | String c EmptyString => is_char c "010"
  | _ => false
  end.

(** States of the matcher for [(?:\[\d*\])+$] started at a fixed position:
    [Open] expects the first bracket, [Inside] reads digits up to the closing
    bracket, [Closed] has read at least one whole group. *)
Inductive gstate := Open | Inside | Closed.

Fixpoint groups_eol (q : gstate) (s : string) : bool :=
  match s with
  | EmptyString => match q with Closed => true | _ => false end
  | String c r =>
      match q with
      | Open => if is_char c "[" then groups_eol Inside r else false
      | Inside =>
          if is_digit c then groups_eol Inside r
          else if is_char c "]" then groups_eol Closed r
          else false
      | Closed =>
          if is_char c "[" then groups_eol Inside r
          else is_char c "010" && match r with EmptyString => true | _ => false end
      end
  end.

(** The text a successful match of [(?:\[\d*\])+$] at the head of [s] covers:
    all of [s] but a final newline. *)
Fixpoint strip_eol (s : string) : string :=
  match s with
  | EmptyString => EmptyString
  | String c EmptyString => if is_char c "010" then EmptyString else s
  | String c r => String c (strip_eol r)
  end.

(** [DeRefArr.pattern.search(s)]: the leftmost match, as [match.group()]. *)
Fixpoint arr_search (s : string) : option string :=
  if groups_eol Open s then Some (strip_eol s)
  else match s with
       | EmptyString => None
       | String _ r => arr_search r
       end.

(** [\*$|\*\)(?:\[\d*\])+$] tried at the head of [s]. *)
Definition ptr_here (s : string) : bool :=
  match s with
  | String c r =>
      is_char c "*" &&
      (at_eol r ||
       match r with
       | String d r' => is_char d ")" && groups_eol Open r'
       | EmptyString => false
       end)
  | EmptyString => false
  end.

(** [DeRefPtr.pattern.search(s)], as a truth value. *)
Fixpoint ptr_search (s : string) : bool :=
  ptr_here s || match s with
                | EmptyString => false
                | String _ r => ptr_search r
                end.

(** [DeRefVec.pattern.search(s)] for [^(std::vector)]. *)
Definition vec_search (s : string) : bool := prefix "std::vector" s.

(** [re.search('(?:\[\])+', s)], as a truth value: an empty bracket pair
    occurs somewhere in [s]. *)
Fixpoint empty_group_search (s : string) : bool :=
  match s with
  | EmptyString => false
  | String c r =>
      (is_char c "[" && match r with
                        | String d _ => is_char d "]"
                        | EmptyString => false
                        end)
      || empty_group_search r
  end.

End Re.

Module Py.

(** [s[1:-1]] *)
Fixpoint drop_last (s : string) : string :=
  match s with
  | EmptyString => EmptyString
  | String _ EmptyString => EmptyString
  | String c r => String c (drop_last r)
  end.

Definition slice_1_m1 (s : string) : string :=
  match s with
  | EmptyString => EmptyString
  | String _ r => drop_last r
  end.

(** [s.split('][')[0]]: the text before the first occurrence of the
    separator, all of [s] when there is none. *)
Fixpoint split_first (s : string) : string :=
  match s with
  | EmptyString => EmptyString
  | String c r =>
      if Re.is_char c "]" && match r with
                             | String d _ => Re.is_char d "["
                             | EmptyString => false
                             end
      then EmptyString
      else String c (split_first r)
  end.

Fixpoint int_digits (acc : Z) (s : string) : option Z :=
  match s with
  | EmptyString => Some acc
  | String c r =>
      if Re.is_digit c
      then int_digits (10 * acc + (Z.of_nat (nat_of_ascii c) - 48)) r
      else None
  end.

(** [int(s)] on the texts the array layer passes to it: a run of decimal
    digits; [None] stands for the [ValueError] of an invalid literal (the
    empty text among them). *)
Definition int (s : string) : option Z :=
  match s with
  | EmptyString => None
  | _ => int_digits 0 s
  end.

(** [range(b)] *)
Definition range (b : Z) : list Z := map Z.of_nat (seq 0 (Z.to_nat b)).

(** [itertools.product] applied to the unpacked list of ranges *)
Fixpoint product (ranges : list (list Z)) : list (list Z) :=
  match ranges with
  | [] => [[]]
  | r :: rs => flat_map (fun i => map (cons i) (product rs)) r
  end.

(** [t[a:b]] for [0 <= a <= b] *)
Definition slice {A} (t : list A) (a b : nat) : list A :=
  firstn (b - a) (skipn a t).

End Py.

(** ** Exceptions, effects and the monad of the embedding *)

Inductive exn :=
| ValueError (msg : string)
| IndexError (msg : string)
| TypeError (msg : string)
| KeyError (key : string)
| AttributeError (msg : string)
| GdbError (msg : string).

Inductive np_dtype :=
| np_uint8 | np_uint32 | np_int8 | np_int16 | np_int32 | np_float32 | np_float64.

(** What a run does to the outside: debugger accesses, the allocation of
    the output buffer, stores into it and text printed on the console. *)
Inductive event :=
| EvParse (var : string)
| EvSubscript (i : Z)
| EvField (name : string)
| EvZeros (shape : list Z) (dtype : np_dtype)
| EvStore (index : list Z)
| EvPrint (msg : string).

(** [Timeout] is the embedding's own outcome: a [while] loop used up its
    fuel. *)
Inductive outcome (A : Type) :=
| Ok (a : A)
| Raise (e : exn)
| Timeout.
Arguments Ok {A} a.
Arguments Raise {A} e.
Arguments Timeout {A}.

Definition M (A : Type) : Type := (list event * outcome A)%type.

Definition ret {A} (a : A) : M A := ([], Ok a).

Definition bind {A B} (m : M A) (f : A -> M B) : M B :=
  match m with
  | (l, Ok a) => let (l', r) := f a in (l ++ l', r)
  | (l, Raise e) => (l, Raise e)
  | (l, Timeout) => (l, Timeout)
  end.

Definition raise {A} (e : exn) : M A := ([], Raise e).
Definition timeout {A} : M A := ([], Timeout).
Definition emit (ev : event) : M unit := ([ev], Ok tt).

Definition lift {A} (r : exn + A) : M A :=
  match r with
  | inl e => raise e
  | inr a => ret a
  end.

Declare Scope monad_scope.
Delimit Scope monad_scope with monad.
Notation "x <- c1 ;; c2" := (bind c1 (fun x => c2))
  (at level 61, c1 at next level, right associativity) : monad_scope.
Notation "' pat <- c1 ;; c2" :=
  (bind c1 (fun x => match x with pat => c2 end))
  (at level 61, pat pattern, c1 at next level, right associativity) : monad_scope.
Notation "c1 ;; c2" := (bind c1 (fun _ => c2))
  (at level 61, right associativity) : monad_scope.
Local Open Scope monad_scope.

(** ** The external collaborators *)

(** The debugger's values and the array library's scalars.  [type_su v] is
    [str(v.type.strip_typedefs().unqualified())] and [type_us v] is
    [str(v.type.unqualified().strip_typedefs())]; [subscript v i] is [v[i]]
    for an integer [i], [field v name] is [v[name]] for a text [name],
    [ptr_sub a b] is [a - b] read as an integer, [np_scalar t v] is the call
    [t(v)] of a scalar type and [np_zero t] the content of a fresh cell.
    [inl e] says the call raises [e]. *)
Class Gdb := {
  Value : Type;
  Number : Type;
  parse_and_eval : string -> exn + Value;
  type_su : Value -> string;
  type_us : Value -> string;
  subscript : Value -> Z -> exn + Value;
  field : Value -> string -> exn + Value;
  ptr_sub : Value -> Value -> exn + Z;
  np_zero : np_dtype -> Number;
  np_scalar : np_dtype -> Value -> exn + Number
}.

Section Engine.

Context {G : Gdb}.

Definition gdb_parse (var : string) : M Value :=
  emit (EvParse var) ;; lift (parse_and_eval var).

Definition gdb_subscript (v : Value) (i : Z) : M Value :=
  emit (EvSubscript i) ;; lift (subscript v i).

Definition gdb_field (v : Value) (name : string) : M Value :=
  emit (EvField name) ;; lift (field v name).

(** [indices[0]] *)
Definition getitem0 (indices : list Z) : M Z :=
  match indices with
  | i :: _ => ret i
  | [] => raise (IndexError "list index out of range")
  end.

(** *** deref.py *)

(** The three concrete classes; a bound [deref] method is its class. *)
Inductive deref_class := DeRefPtr | DeRefArr | DeRefVec.

(** The instance attributes set by [DeRefBase.__init__].  The cursor
    [shape_ind] is [None] or the number of hint entries claimed so far. *)
Record DeRefBase := {
  bounds : list Z;
  val : Value;
  shape_ind : option nat;
  _shape : option (list Z)
}.

Definition DeRefBase_init (v : Value) (si : option nat)
    (shape : option (list Z)) : DeRefBase :=
  {| bounds := []; val := v; shape_ind := si; _shape := shape |}.

Definition set_val (self : DeRefBase) (v : Value) : DeRefBase :=
  {| bounds := bounds self; val := v; shape_ind := shape_ind self;
     _shape := _shape self |}.

Definition set_bounds (self : DeRefBase) (b : list Z) : DeRefBase :=
  {| bounds := b; val := val self; shape_ind := shape_ind self;
     _shape := _shape self |}.

Definition set_shape_ind (self : DeRefBase) (si : option nat) : DeRefBase :=
  {| bounds := bounds self; val := val self; shape_ind := si;
     _shape := _shape self |}.

Definition msg_shape_required : string :=
  "Array shape must be specified for pointer type.".

Definition msg_insufficient_bounds : string :=
  "Insufficient number of bounds. A bound is needed for each dimension corresponding to a * or [].".

Definition msg_missing_dimensions : string :=
  "Missing array dimensions. All array dimensions must be declared as const. ".

Definition msg_none_plus_int : string :=
  "unsupported operand type(s) for +: 'NoneType' and 'int'".

(** [DeRefBase._get_range_from_shape] *)
Definition _get_range_from_shape (self : DeRefBase) (arg_no : nat)
    : M DeRefBase :=
  match shape_ind self with
  | None => raise (TypeError msg_none_plus_int)
  | Some si =>
      let end_ind := (si + arg_no)%nat in
      match _shape self with
      | None => raise (TypeError "object of type 'NoneType' has no len()")
      | Some shape =>
          if (length shape <? end_ind)%nat
          then raise (IndexError msg_insufficient_bounds)
          else ret (set_shape_ind
                      (set_bounds self (Py.slice shape si end_ind))
                      (Some end_ind))
      end
  end.

(** The [deref] method of each class. *)
Definition deref (c : deref_class) (v : Value) (indices : list Z) : M Value :=
  match c with
  | DeRefPtr | DeRefArr =>
      i <- getitem0 indices ;;
      gdb_subscript v i
  | DeRefVec =>
      impl <- gdb_field v "_M_impl" ;;
      start <- gdb_field impl "_M_start" ;;
      i <- getitem0 indices ;;
      gdb_subscript start i
  end.

(** [DeRefPtr.__init__] with [DeRefPtr._update] *)
Definition DeRefPtr_init (v : Value) (si : option nat)
    (shape : option (list Z)) : M DeRefBase :=
  let self := DeRefBase_init v si shape in
  match shape with
  | None => raise (ValueError msg_shape_required)
  | Some _ =>
      let _arg_no := 1%nat in
      v' <- deref DeRefPtr (val self) [0%Z] ;;
      _get_range_from_shape (set_val self v') _arg_no
  end.

(** [DeRefArr.__init__] with [DeRefArr._update] *)
Definition DeRefArr_init (v : Value) (si : option nat)
    (shape : option (list Z)) : M DeRefBase :=
  let self := DeRefBase_init v si shape in
  let arr_type := type_us (val self) in
  if Re.empty_group_search arr_type
  then raise (GdbError msg_missing_dimensions)
  else
    match Re.arr_search arr_type with
    | None => raise (AttributeError "'NoneType' object has no attribute 'group'")
    | Some group =>
        match Py.int (Py.split_first (Py.slice_1_m1 group)) with
        | None => raise (ValueError "invalid literal for int() with base 10")
        | Some b =>
            let self := set_bounds self [b] in
            v' <- deref DeRefArr (val self) [0%Z] ;;
            ret (set_val self v')
        end
    end.

(** [DeRefVec.__init__] with [DeRefVec._update] *)
Definition DeRefVec_init (v : Value) (si : option nat)
    (shape : option (list Z)) : M DeRefBase :=
  let self := DeRefBase_init v si shape in
  let v0 := val self in
  v' <- deref DeRefVec v0 [0%Z] ;;
  let self := set_val self v' in
  impl <- gdb_field v0 "_M_impl" ;;
  v_start <- gdb_field impl "_M_start" ;;
  impl' <- gdb_field v0 "_M_impl" ;;
  v_end <- gdb_field impl' "_M_finish" ;;
  d <- lift (ptr_sub v_end v_start) ;;
  ret (set_bounds self [d]).

(** Calling a class. *)
Definition new (c : deref_class) : Value -> option nat -> option (list Z)
    -> M DeRefBase :=
  match c with
  | DeRefPtr => DeRefPtr_init
  | DeRefArr => DeRefArr_init
  | DeRefVec => DeRefVec_init
  end.

(** [ref_type.pattern.search(arr_type)], as a truth value. *)
Definition pattern_search (c : deref_class) (arr_type : string) : bool :=
  match c with
  | DeRefPtr => Re.ptr_search arr_type
  | DeRefArr => match Re.arr_search arr_type with Some _ => true | None => false end
  | DeRefVec => Re.vec_search arr_type
  end.

(** *** gdb_numpy.py *)

Definition _type_list : list (string * np_dtype) :=
  [ ("unsigned char", np_uint8);
    ("unsigned int", np_uint32);
    ("char", np_int8);
    ("short", np_int16);
    ("int", np_int32);
    ("float", np_float32);
    ("double", np_float64) ].

(** [_type_list[dtype]] *)
Definition type_list_get (dtype : string) : M np_dtype :=
  match find (fun p => String.eqb (fst p) dtype) _type_list with
  | Some (_, t) => ret t
  | None => raise (KeyError dtype)
  end.

Definition _ptr_list : list deref_class := [DeRefPtr; DeRefArr].
Definition _container_list : list deref_class := [DeRefVec].

Definition _get_type (v : Value) : string := type_su v.

(** What [_deref] hands back: the value and the cursor it returns, and the
    three lists it appends to in place. *)
Record walk := {
  w_val : Value;
  w_shape_ind : option nat;
  w_deref_func : list deref_class;
  w_bounds : list Z;
  w_arg_no : list nat
}.

(** The [for ref_type in type_list] loop of [_deref]. *)
Fixpoint _deref_for (type_list : list deref_class) (arr_type : string)
    (w : walk) (shape : option (list Z)) : M walk :=
  match type_list with
  | [] => ret w
  | ref_type :: rest =>
      if pattern_search ref_type arr_type
      then
        deref_ptr <- new ref_type (w_val w) (w_shape_ind w) shape ;;
        let v := val deref_ptr in
        let arr_type := _get_type v in
        _deref_for rest arr_type
          {| w_val := v;
             w_shape_ind := shape_ind deref_ptr;
             w_deref_func := w_deref_func w ++ [ref_type];
             w_bounds := w_bounds w ++ bounds deref_ptr;
             w_arg_no := w_arg_no w ++ [length (bounds deref_ptr)] |}
          shape
      else _deref_for rest arr_type w shape
  end.

Definition _deref (type_list : list deref_class) (v : Value)
    (deref_func : list deref_class) (bnds : list Z) (arg_no : list nat)
    (si : option nat) (shape : option (list Z)) : M walk :=
  _deref_for type_list (_get_type v)
    {| w_val := v; w_shape_ind := si; w_deref_func := deref_func;
       w_bounds := bnds; w_arg_no := arg_no |}
    shape.

(** The local variables of [_get_deref_funcs]. *)
Record frame := {
  f_arr_type : string;
  f_old_type : option string;
  f_val : Value;
  f_shape_ind : option nat;
  f_deref_func : list deref_class;
  f_arg_no : list nat;
  f_bounds : list Z
}.

(** [arr_type != old_type] *)
Definition types_differ (f : frame) : bool :=
  match f_old_type f with
  | None => true
  | Some old => negb (String.eqb (f_arr_type f) old)
  end.

Definition inner_body (shape : option (list Z)) (f : frame) : M frame :=
  let arr_type := _get_type (f_val f) in
  let old_type := Some arr_type in
  w <- _deref _ptr_list (f_val f) (f_deref_func f) (f_bounds f) (f_arg_no f)
         (f_shape_ind f) shape ;;
  ret {| f_arr_type := arr_type; f_old_type := old_type;
         f_val := w_val w; f_shape_ind := w_shape_ind w;
         f_deref_func := w_deref_func w; f_arg_no := w_arg_no w;
         f_bounds := w_bounds w |}.

Fixpoint inner_while (fuel : nat) (shape : option (list Z)) (f : frame)
    : M frame :=
  if types_differ f
  then match fuel with
       | O => timeout
       | S fuel' => f' <- inner_body shape f ;; inner_while fuel' shape f'
       end
  else ret f.

Definition outer_body (fuel : nat) (shape : option (list Z)) (f : frame)
    : M frame :=
  f <- inner_while fuel shape f ;;
  w <- _deref _container_list (f_val f) (f_deref_func f) (f_bounds f)
         (f_arg_no f) (f_shape_ind f) shape ;;
  ret {| f_arr_type := _get_type (w_val w); f_old_type := f_old_type f;
         f_val := w_val w; f_shape_ind := w_shape_ind w;
         f_deref_func := w_deref_func w; f_arg_no := w_arg_no w;
         f_bounds := w_bounds w |}.

Fixpoint outer_while (inner_fuel fuel : nat) (shape : option (list Z))
    (f : frame) : M frame :=
  if types_differ f
  then match fuel with
       | O => timeout
       | S fuel' =>
           f' <- outer_body inner_fuel shape f ;;
           outer_while inner_fuel fuel' shape f'
       end
  else ret f.

Definition msg_not_all_used : string := "Not all of the bounds are used.".

(** [if shape: shape_ind = 0] *)
Definition initial_shape_ind (shape : option (list Z)) : option nat :=
  match shape with
  | Some (_ :: _) => Some 0%nat
  | _ => None
  end.

(** The closing [if shape_ind:] statement. *)
Definition report_unused (si : option nat) (shape : option (list Z))
    : M unit :=
  match si with
  | Some (S _ as n) =>
      match shape with
      | None => raise (TypeError "object of type 'NoneType' has no len()")
      | Some sh =>
          if negb (n =? length sh)%nat
          then emit (EvPrint msg_not_all_used)
          else ret tt
      end
  | _ => ret tt
  end.

Definition _get_deref_funcs (fuel : nat) (v : Value)
    (shape : option (list Z))
    : M (list deref_class * list nat * list Z * string) :=
  let f0 := {| f_arr_type := _get_type v; f_old_type := None; f_val := v;
               f_shape_ind := initial_shape_ind shape;
               f_deref_func := []; f_arg_no := []; f_bounds := [] |} in
  f <- outer_while fuel fuel shape f0 ;;
  report_unused (f_shape_ind f) shape ;;
  ret (f_deref_func f, f_arg_no f, f_bounds f, f_arr_type f).

(** The output buffer: its shape, its storage kind and its cells. *)
Record ndarray := {
  nd_shape : list Z;
  nd_dtype : np_dtype;
  nd_data : list Z -> Number
}.

(** [np.zeros(shape, dtype = t)] *)
Definition np_zeros (shape : list Z) (t : np_dtype) : M ndarray :=
  if forallb (fun b => 0 <=? b)%Z shape
  then emit (EvZeros shape t) ;;
       ret {| nd_shape := shape; nd_dtype := t;
              nd_data := fun _ => np_zero t |}
  else raise (ValueError "negative dimensions are not allowed").

Fixpoint index_in_range (shape index : list Z) : bool :=
  match shape, index with
  | [], [] => true
  | b :: shape', i :: index' =>
      (0 <=? i)%Z && (i <? b)%Z && index_in_range shape' index'
  | _, _ => false
  end.

(** [narray[index] = x] for a full tuple of non-negative integers, the only
    kind of index [to_array] builds; other index tuples are answered with
    the [IndexError] of an index out of bounds. *)
Definition nd_setitem (a : ndarray) (index : list Z) (x : Number)
    : M ndarray :=
  if index_in_range (nd_shape a) index
  then emit (EvStore index) ;;
       ret {| nd_shape := nd_shape a; nd_dtype := nd_dtype a;
              nd_data := fun j => if list_eq_dec Z.eq_dec j index then x
                                  else nd_data a j |}
  else raise (IndexError "index is out of bounds").

(** The [for func, arg_n in zip(deref_func, arg_no)] loop of [to_array]. *)
Fixpoint replay (steps : list (deref_class * nat)) (v : Value)
    (index : list Z) (start_ind : nat) : M Value :=
  match steps with
  | [] => ret v
  | (func, arg_n) :: rest =>
      let end_ind := (start_ind + arg_n)%nat in
      v' <- deref func v (Py.slice index start_ind end_ind) ;;
      replay rest v' index end_ind
  end.

(** One turn of the [for index in indices] loop, up to the value stored. *)
Definition cell (var : string) (deref_func : list deref_class)
    (arg_no : list nat) (dtype : string) (index : list Z) : M Number :=
  v <- gdb_parse var ;;
  v <- replay (combine deref_func arg_no) v index 0 ;;
  t <- type_list_get dtype ;;
  lift (np_scalar t v).

Fixpoint fill (var : string) (deref_func : list deref_class)
    (arg_no : list nat) (dtype : string) (indices : list (list Z))
    (narray : ndarray) : M ndarray :=
  match indices with
  | [] => ret narray
  | index :: rest =>
      x <- cell var deref_func arg_no dtype index ;;
      narray' <- nd_setitem narray index x ;;
      fill var deref_func arg_no dtype rest narray'
  end.

Definition to_array (fuel : nat) (var : string) (shape : option (list Z))
    : M ndarray :=
  v <- gdb_parse var ;;
  '(deref_func, arg_no, bnds, dtype) <- _get_deref_funcs fuel v shape ;;
  let ranges := map Py.range bnds in
  let indices := Py.product ranges in
  t <- type_list_get dtype ;;
  narray <- np_zeros bnds t ;;
  fill var deref_func arg_no dtype indices narray.

(** Shorthands for the records above. *)
Definition mk_walk (v : Value) (si : option nat) (fs : list deref_class)
    (bs : list Z) (ns : list nat) : walk :=
  {| w_val := v; w_shape_ind := si; w_deref_func := fs; w_bounds := bs;
     w_arg_no := ns |}.

Definition mk_frame (a : string) (o : option string) (w : walk) : frame :=
  {| f_arr_type := a; f_old_type := o; f_val := w_val w;
     f_shape_ind := w_shape_ind w; f_deref_func := w_deref_func w;
     f_arg_no := w_arg_no w; f_bounds := w_bounds w |}.

Definition walk_of (f : frame) : walk :=
  mk_walk (f_val f) (f_shape_ind f) (f_deref_func f) (f_bounds f)
    (f_arg_no f).

End Engine.

(** ** Type names *)

(** Texts made of decimal digits. *)
Fixpoint all_digits (s : string) : bool :=
  match s with
  | EmptyString => true
  | String c r => Re.is_digit c && all_digits r
  end.

(** The bracket groups of a one-level and of a two-level array type. *)
Definition group1 (d : string) : string := String "[" (d ++ "]").
Definition group2 (d e : string) : string :=
  String "[" (d ++ String "]" (group1 e)).

(** [match.group()[1:-1].split('][')[0]] *)
Definition first_dim (group : string) : string :=
  Py.split_first (Py.slice_1_m1 group).

(** The names the debugger prints for an array, a pointer and a vector
    type, over the name [T] of a scalar type and dimensions given as decimal
    text. *)
Definition arr2_name (T d e : string) : string :=
  (T ++ String " " (group2 d e))%string.
Definition arr1_name (T d : string) : string :=
  (T ++ String " " (group1 d))%string.
Definition ptr_name (T : string) : string := (T ++ " *")%string.
Definition arr_ptr_name (T d : string) : string :=
  (T ++ String " " (String "*" (group1 d)))%string.
Definition vec_name (T : string) : string :=
  ("std::vector<" ++ T ++ ", std::allocator<" ++ T ++ "> >")%string.

(** The four kinds of type name, tested in the order the driver tests
    them. *)
Inductive layer := Pointer | FixedArray | SequenceContainer | Terminal.

Definition classify (name : string) : layer :=
  if Re.ptr_search name then Pointer
  else match Re.arr_search name with
       | Some _ => FixedArray
       | None => if Re.vec_search name then SequenceContainer else Terminal
       end.

(** ** Vocabulary of the specification *)

Section Typing.

Context {G : Gdb}.

(** Both ways of naming the type of [v] give [name]. *)
Definition has_type (v : Value) (name : string) : Prop :=
  type_su v = name /\ type_us v = name.

(** The indices of a layer with bound [b] that a run touches: index 0 when
    the layer is discovered, the indices below the bound for the cells. *)
Definition probed (b i : Z) : Prop := (i = 0 \/ 0 <= i < b)%Z.

(** The debugger is statically typed with respect to [R]: related values
    have the same type name, and subscripting or selecting a field of
    related values succeeds alike and gives related values. *)
Definition static_typing (R : Value -> Value -> Prop) : Prop :=
  (forall v, R v v) /\
  (forall v w, R v w -> type_su v = type_su w) /\
  (forall v w i j v', R v w -> subscript v i = inr v' ->
     exists w', subscript w j = inr w' /\ R v' w') /\
  (forall v w name v', R v w -> field v name = inr v' ->
     exists w', field w name = inr w' /\ R v' w').

(** [index] is drawn from the Cartesian product of the ranges of
    [bnds]. *)
Definition in_bounds (index bnds : list Z) : Prop :=
  Forall2 (fun i b => 0 <= i < b)%Z index bnds.

(** The invariant of the walk from [root]: one arity and one bound per
    step, every arity 1, and the steps replayed from [root] on any index
    tuple that is long enough reach a value related to the current one. *)
Definition walk_inv (R : Value -> Value -> Prop) (root : Value) (w : walk)
    : Prop :=
  length (w_deref_func w) = length (w_arg_no w) /\
  length (w_bounds w) = length (w_arg_no w) /\
  Forall (eq 1%nat) (w_arg_no w) /\
  forall index, (length (w_deref_func w) <= length index)%nat ->
    exists l v,
      replay (combine (w_deref_func w) (w_arg_no w)) root index 0 = (l, Ok v)
      /\ R (w_val w) v.

(** The accesses the constructor of the container layer makes. *)
Definition vec_discovery : list event :=
  [EvField "_M_impl"; EvField "_M_start"; EvSubscript 0%Z;
   EvField "_M_impl"; EvField "_M_start";
   EvField "_M_impl"; EvField "_M_finish"].

(** The events of a log that are subscript accesses. *)
Definition subscripts (log : list event) : list Z :=
  flat_map (fun ev => match ev with EvSubscript i => [i] | _ => [] end) log.

Definition is_alloc_or_store (ev : event) : bool :=
  match ev with
  | EvZeros _ _ | EvStore _ => true
  | _ => false
  end.

(** A computation that neither allocates the buffer nor stores into it. *)
Definition quiet {A} (m : M A) : Prop :=
  filter is_alloc_or_store (fst m) = [].

Definition is_store (ev : event) : bool :=
  match ev with
  | EvStore _ => true
  | _ => false
  end.

Definition is_print (ev : event) : bool :=
  match ev with
  | EvPrint _ => true
  | _ => false
  end.

End Typing.

(** ** A debugging session to run the engine on *)

Module Demo.

(** The types of the session's variables.  Dimensions are kept as the text
    between the brackets (empty for an unsized array); a vector carries its
    run-time length, which its type name does not show. *)
Inductive cty :=
| Scalar (name : string)
| Ptr (t : cty)
| Arr (dim : string) (t : cty)
| Vec (len : Z) (t : cty)
| VecImpl (len : Z) (t : cty).

Definition spaced (decl : string) : string :=
  match decl with
  | EmptyString => EmptyString
  | _ => (" " ++ decl)%string
  end.

(** The type name as the debugger prints it, around the declarator
    [decl]. *)
Fixpoint name_with (t : cty) (decl : string) : string :=
  match t with
  | Scalar s => (s ++ spaced decl)%string
  | Ptr t' =>
      match t' with
      | Arr _ _ => name_with t' ("(*" ++ decl ++ ")")%string
      | _ => name_with t' ("*" ++ decl)%string
      end
  | Arr d t' => name_with t' (decl ++ "[" ++ d ++ "]")%string
  | Vec _ t' =>
      ("std::vector<" ++ name_with t' "" ++ ", std::allocator<"
         ++ name_with t' "" ++ "> >" ++ spaced decl)%string
  | VecImpl _ t' =>
      ("std::_Vector_base<" ++ name_with t' "" ++ ", std::allocator<"
         ++ name_with t' "" ++ "> >::_Vector_impl" ++ spaced decl)%string
  end.

Definition type_name (t : cty) : string := name_with t "".

(** A value: its type, the path of indices that leads to it from its
    variable, and for a pointer into a vector the element it points at. *)
Record value := {
  ty : cty;
  path : list Z;
  at_elem : Z
}.

Definition no_symbol : exn := GdbError "No symbol in current context.".
Definition no_subscript : exn := GdbError "Cannot subscript requested type.".
Definition no_field : exn := GdbError "Type does not have a target.".

Definition int_t : cty := Scalar "int".

Definition variables : list (string * cty) :=
  [ ("mat", Arr "2" (Arr "3" int_t));
    ("p", Ptr int_t);
    ("pp", Ptr (Ptr int_t));
    ("ap", Arr "2" (Ptr int_t));
    ("v", Vec 4 int_t);
    ("empty", Vec 0 int_t);
    ("big", Scalar "long");
    ("rows", Arr "" int_t);
    ("n", int_t) ].

(** The value of a variable of type [t], and the value its path [p] of
    subscripts leads to when that value has type [t]. *)
Definition at_path (t : cty) (p : list Z) : value :=
  {| ty := t; path := p; at_elem := 0 |}.
Definition top (t : cty) : value := at_path t [].

Definition demo_parse (var : string) : exn + value :=
  match find (fun p => String.eqb (fst p) var) variables with
  | Some (_, t) => inr (top t)
  | None => inl no_symbol
  end.

Definition demo_subscript (v : value) (i : Z) : exn + value :=
  match ty v with
  | Ptr t | Arr _ t =>
      inr {| ty := t; path := path v ++ [at_elem v + i]%Z; at_elem := 0 |}
  | _ => inl no_subscript
  end.

Definition demo_field (v : value) (name : string) : exn + value :=
  match ty v with
  | Vec len t =>
      if String.eqb name "_M_impl"
      then inr {| ty := VecImpl len t; path := path v; at_elem := 0 |}
      else inl no_field
  | VecImpl len t =>
      if String.eqb name "_M_start"
      then inr {| ty := Ptr t; path := path v; at_elem := 0 |}
      else if String.eqb name "_M_finish"
      then inr {| ty := Ptr t; path := path v; at_elem := len |}
      else inl no_field
  | _ => inl no_field
  end.

Definition demo_ptr_sub (a b : value) : exn + Z :=
  inr (at_elem a - at_elem b)%Z.

(** The number stored at a path: its indices read as decimal digits. *)
Definition stored (p : list Z) : Z :=
  fold_left (fun acc i => 10 * acc + i)%Z p 0%Z.

Definition demo_scalar (t : np_dtype) (v : value) : exn + Z :=
  match ty v with
  | Scalar _ => inr (stored (path v))
  | _ => inl (TypeError "only scalars can be converted")
  end.

#[export] Instance gdb : Gdb := {|
  Value := value;
  Number := Z;
  parse_and_eval := demo_parse;
  type_su := fun v => type_name (ty v);
  type_us := fun v => type_name (ty v);
  subscript := demo_subscript;
  field := demo_field;
  ptr_sub := demo_ptr_sub;
  np_zero := fun _ => 0%Z;
  np_scalar := demo_scalar
|}.

(** Values of the session are related when their types are the same. *)
Definition same_ty (v w : value) : Prop := ty v = ty w.

(** The outcome of [to_array] in the session, with the cells of the buffer
    read at the given indices. *)
Definition run (fuel : nat) (var : string) (shape : option (list Z))
    (probe : list (list Z))
    : list event * outcome (list Z * np_dtype * list Z) :=
  match to_array fuel var shape with
  | (log, Ok a) => (log, Ok (nd_shape a, nd_dtype a, map (nd_data a) probe))
  | (log, Raise e) => (log, Raise e)
  | (log, Timeout) => (log, Timeout)
  end.

End Demo.

(** ** Further type names, log readers and a second session *)

(** The names of a pointer to pointer, of a pointer to a fixed-size array,
    of a fixed-size array of vectors and of an array of any number of
    dimensions. *)
Definition ptr2_name (T : string) : string := (T ++ " **")%string.
Definition ptr_arr_name (T d : string) : string :=
  (T ++ String " " (String "(" (String "*" (String ")" (group1 d)))))%string.
Definition arr_vec_name (T d : string) : string :=
  (vec_name T ++ String " " (group1 d))%string.

Fixpoint groups (ds : list string) : string :=
  match ds with
  | [] => EmptyString
  | d :: ds' => String "[" (d ++ String "]" (groups ds'))
  end.

Definition arr_name (T : string) (ds : list string) : string :=
  match ds with
  | [] => T
  | _ => (T ++ String " " (groups ds))%string
  end.

(** The indices stored into, the variables resolved and the texts printed,
    in the order of the log. *)
Definition stores (log : list event) : list (list Z) :=
  flat_map (fun ev => match ev with EvStore i => [i] | _ => [] end) log.

Definition parses (log : list event) : list string :=
  flat_map (fun ev => match ev with EvParse v => [v] | _ => [] end) log.

Definition prints (log : list event) : list string :=
  flat_map (fun ev => match ev with EvPrint m => [m] | _ => [] end) log.

Definition allocations (log : list event) : list (list Z) :=
  flat_map (fun ev => match ev with EvZeros b _ => [b] | _ => [] end) log.

(** The member names selected, in the order of the log. *)
Definition fields (log : list event) : list string :=
  flat_map (fun ev => match ev with EvField n => [n] | _ => [] end) log.

(** The events the driver and the replay of its steps can emit. *)
Definition is_walk_event (ev : event) : bool :=
  match ev with
  | EvSubscript _ | EvField _ | EvPrint _ => true
  | _ => false
  end.

Definition walk_only {A} (m : M A) : Prop :=
  forallb is_walk_event (fst m) = true.

(** The bounds of the pointer steps of a composition, in step order. *)
Fixpoint ptr_bounds (fs : list deref_class) (bnds : list Z) : list Z :=
  match fs, bnds with
  | DeRefPtr :: fs', b :: bnds' => b :: ptr_bounds fs' bnds'
  | _ :: fs', _ :: bnds' => ptr_bounds fs' bnds'
  | _, _ => []
  end.

Definition is_ptr_step (c : deref_class) : bool :=
  match c with
  | DeRefPtr => true
  | _ => false
  end.

(** Subscript and field accesses. *)
Definition is_access (ev : event) : bool :=
  match ev with
  | EvSubscript _ | EvField _ => true
  | _ => false
  end.

Definition access_only {A} (m : M A) : Prop :=
  forallb is_access (fst m) = true.

(** How the cursor of a walk stands to its pointer steps under the hint
    [shape]: an unset cursor has seen no pointer step; a set cursor counts
    the pointer steps, has not passed the end of the hint, and the bounds
    of the pointer steps are the hint entries before it. *)
Definition hint_inv {G : Gdb} (shape : option (list Z)) (w : walk) : Prop :=
  length (w_deref_func w) = length (w_bounds w) /\
  match w_shape_ind w with
  | None => filter is_ptr_step (w_deref_func w) = []
  | Some k =>
      k = length (filter is_ptr_step (w_deref_func w)) /\
      exists sh, shape = Some sh /\ (k <= length sh)%nat /\
                 ptr_bounds (w_deref_func w) (w_bounds w) = firstn k sh
  end.

(** A dimension as the debugger prints it: a non-empty run of digits. *)
Definition digits_ok (d : string) : Prop :=
  all_digits d = true /\ d <> EmptyString.

(** From [v], whose type is an array of [T] with the dimensions [ds], the
    discovery accesses (index 0, once per dimension) lead to [vn]. *)
Inductive array_chain {G : Gdb} (T : string)
    : Value -> list string -> Value -> Prop :=
| chain_nil v : type_su v = T -> array_chain T v [] v
| chain_cons v d ds v' vn :
    has_type v (arr_name T (d :: ds)) ->
    subscript v 0 = inr v' ->
    array_chain T v' ds vn ->
    array_chain T v (d :: ds) vn.

Module Lab.

Import Demo.

Definition variables : list (string * cty) :=
  [ ("x", Scalar "double");
    ("p", Ptr int_t);
    ("pp", Ptr (Ptr int_t));
    ("rows", Ptr (Arr "3" int_t));
    ("cube", Arr "2" (Arr "3" (Arr "4" int_t)));
    ("vs", Arr "2" (Vec 3 int_t)) ].

Definition lab_parse (var : string) : exn + value :=
  match find (fun p => String.eqb (fst p) var) variables with
  | Some (_, t) => inr (top t)
  | None => inl no_symbol
  end.

#[export] Instance gdb : Gdb := {|
  Value := value;
  Number := Z;
  parse_and_eval := lab_parse;
  type_su := fun v => type_name (ty v);
  type_us := fun v => type_name (ty v);
  subscript := demo_subscript;
  field := demo_field;
  ptr_sub := demo_ptr_sub;
  np_zero := fun _ => 0%Z;
  np_scalar := demo_scalar
|}.

(** The outcome of [to_array] in this session, with the cells of the
    buffer read at the given indices. *)
Definition run (fuel : nat) (var : string) (shape : option (list Z))
    (probe : list (list Z))
    : list event * outcome (list Z * np_dtype * list Z) :=
  match to_array fuel var shape with
  | (log, Ok a) => (log, Ok (nd_shape a, nd_dtype a, map (nd_data a) probe))
  | (log, Raise e) => (log, Raise e)
  | (log, Timeout) => (log, Timeout)
  end.

(** The value of [cube] under a path of subscripts. *)
Definition cube_ty (depth : nat) : cty :=
  match depth with
  | 0%nat => Arr "2" (Arr "3" (Arr "4" int_t))
  | 1%nat => Arr "3" (Arr "4" int_t)
  | 2%nat => Arr "4" int_t
  | _ => int_t
  end.

Definition cube_at (p : list Z) : value := at_path (cube_ty (length p)) p.

End Lab.

(** * Worked examples and auxiliary facts *)

Example arr_search_2d : Re.arr_search "int [3][4]" = Some "[3][4]".
Proof. reflexivity. Qed.

Example arr_search_scalar : Re.arr_search "unsigned int" = None.
Proof. reflexivity. Qed.

Example ptr_search_ptr_to_arr : Re.ptr_search "int (*)[4]" = true.
Proof. reflexivity. Qed.

Example ptr_search_arr_of_ptr : Re.ptr_search "int *[3]" = false.
Proof. reflexivity. Qed.

Example empty_group_unsized : Re.empty_group_search "int [3][]" = true.
Proof. reflexivity. Qed.

Example first_dim_2d : Py.int (first_dim "[3][4]") = Some 3%Z.
Proof. reflexivity. Qed.

Example product_2_3 :
  Py.product [Py.range 2; Py.range 3] =
  [[0; 0]; [0; 1]; [0; 2]; [1; 0]; [1; 1]; [1; 2]]%Z.
Proof. reflexivity. Qed.

Example classify_names :
  map classify ["int (*)[4]"; "int *[3]"; "int [3][4]"; "double *";
                "std::vector<int, std::allocator<int> >"; "float"]%string =
  [Pointer; FixedArray; FixedArray; Pointer; SequenceContainer; Terminal].
Proof. reflexivity. Qed.

Example demo_names :
  map (fun p => Demo.type_name (snd p)) Demo.variables =
  [ "int [2][3]"; "int *"; "int **"; "int *[2]";
    "std::vector<int, std::allocator<int> >";
    "std::vector<int, std::allocator<int> >";
    "long"; "int []"; "int" ]%string.
Proof. reflexivity. Qed.

Example demo_mat :
  Demo.run 5 "mat" None [[0;0]; [1;2]]%Z =
  ([EvParse "mat"; EvSubscript 0; EvSubscript 0; EvZeros [2;3] np_int32;
    EvParse "mat"; EvSubscript 0; EvSubscript 0; EvStore [0;0];
    EvParse "mat"; EvSubscript 0; EvSubscript 1; EvStore [0;1];
    EvParse "mat"; EvSubscript 0; EvSubscript 2; EvStore [0;2];
    EvParse "mat"; EvSubscript 1; EvSubscript 0; EvStore [1;0];
    EvParse "mat"; EvSubscript 1; EvSubscript 1; EvStore [1;1];
    EvParse "mat"; EvSubscript 1; EvSubscript 2; EvStore [1;2]]%Z,
   Ok ([2;3]%Z, np_int32, [0; 12]%Z)).
Proof. vm_compute. reflexivity. Qed.

(** ** Texts made of decimal digits *)

Lemma digit_not_special (c : ascii) :
  Re.is_digit c = true ->
  Re.is_char c "[" = false /\ Re.is_char c "]" = false /\
  Re.is_char c "*" = false.
Proof.
  unfold Re.is_digit, Re.is_char. intros H.
  apply andb_true_iff in H. destruct H as [H1 H2].
  apply Nat.leb_le in H1. apply Nat.leb_le in H2.
  repeat split; apply Ascii.eqb_neq; intros ->; cbn in H1, H2; lia.
Qed.

Lemma int_digits_all acc s z :
  Py.int_digits acc s = Some z -> all_digits s = true.
Proof.
  revert acc. induction s as [|c r IH]; intros acc H; cbn in *.
  - reflexivity.
  - destruct (Re.is_digit c); [|discriminate]. cbn. eauto.
Qed.

Lemma int_digits_lower acc s z :
  (0 <= acc)%Z -> Py.int_digits acc s = Some z -> (0 <= z)%Z.
Proof.
  revert acc. induction s as [|c r IH]; intros acc Hacc H;
    cbn [Py.int_digits] in *.
  - congruence.
  - destruct (Re.is_digit c) eqn:Hd; [|discriminate].
    apply IH in H; [assumption|].
    unfold Re.is_digit in Hd. apply andb_true_iff in Hd.
    destruct Hd as [Hd _]. apply Nat.leb_le in Hd. lia.
Qed.

Lemma int_inv s z :
  Py.int s = Some z ->
  all_digits s = true /\ s <> EmptyString /\ (0 <= z)%Z.
Proof.
  destruct s as [|c r]; [discriminate|]. unfold Py.int. intros H.
  repeat split.
  - eapply int_digits_all; eassumption.
  - discriminate.
  - eapply int_digits_lower; [|eassumption]. lia.
Qed.

Section DigitRuns.

Variable d : string.
Hypothesis d_digits : all_digits d = true.

Lemma groups_inside_digits s :
  Re.groups_eol Re.Inside (d ++ s) = Re.groups_eol Re.Inside s.
Proof.
  induction d as [|c r IH]; cbn in *; [reflexivity|].
  apply andb_true_iff in d_digits. destruct d_digits as [Hc Hr].
  rewrite Hc. auto.
Qed.

Lemma ptr_search_digits s : Re.ptr_search (d ++ s) = Re.ptr_search s.
Proof.
  induction d as [|c r IH]; [reflexivity|].
  cbn [all_digits] in d_digits.
  apply andb_true_iff in d_digits. destruct d_digits as [Hc Hr].
  destruct (digit_not_special c Hc) as (_ & _ & Hs).
  change ((String c r ++ s)%string) with (String c (r ++ s)).
  cbn [Re.ptr_search Re.ptr_here]. rewrite Hs. cbn. auto.
Qed.

Lemma arr_search_digits s : Re.arr_search (d ++ s) = Re.arr_search s.
Proof.
  induction d as [|c r IH]; [reflexivity|].
  cbn [all_digits] in d_digits.
  apply andb_true_iff in d_digits. destruct d_digits as [Hc Hr].
  destruct (digit_not_special c Hc) as (Ho & _ & _).
  change ((String c r ++ s)%string) with (String c (r ++ s)).
  cbn [Re.arr_search Re.groups_eol]. rewrite Ho. auto.
Qed.

Lemma empty_group_digits s :
  Re.empty_group_search (d ++ s) = Re.empty_group_search s.
Proof.
  induction d as [|c r IH]; [reflexivity|].
  cbn [all_digits] in d_digits.
  apply andb_true_iff in d_digits. destruct d_digits as [Hc Hr].
  destruct (digit_not_special c Hc) as (Ho & _ & _).
  change ((String c r ++ s)%string) with (String c (r ++ s)).
  cbn [Re.empty_group_search]. rewrite Ho. cbn. auto.
Qed.

Lemma split_first_digits_sep s :
  Py.split_first (d ++ String "]" (String "[" s)) = d.
Proof.
  induction d as [|c r IH]; [reflexivity|].
  cbn [all_digits] in d_digits.
  apply andb_true_iff in d_digits. destruct d_digits as [Hc Hr].
  destruct (digit_not_special c Hc) as (_ & Hcl & _).
  change ((String c r ++ ?x)%string) with (String c (r ++ x)).
  cbn [append Py.split_first]. rewrite Hcl. cbn. f_equal. auto.
Qed.

Lemma split_first_digits : Py.split_first d = d.
Proof.
  induction d as [|c r IH]; [reflexivity|].
  cbn [all_digits] in d_digits.
  apply andb_true_iff in d_digits. destruct d_digits as [Hc Hr].
  destruct (digit_not_special c Hc) as (_ & Hcl & _).
  cbn [Py.split_first]. rewrite Hcl. cbn. f_equal. auto.
Qed.

End DigitRuns.

Lemma empty_group_open_digits d s :
  all_digits d = true -> d <> EmptyString ->
  Re.empty_group_search (String "[" (d ++ s)) = Re.empty_group_search s.
Proof.
  intros Hd Hne. destruct d as [|c r]; [congruence|].
  rewrite <- (empty_group_digits (String c r) Hd s).
  cbn [all_digits] in Hd. apply andb_true_iff in Hd. destruct Hd as [Hc _].
  destruct (digit_not_special c Hc) as (_ & Hcl & _).
  change ((String c r ++ s)%string) with (String c (r ++ s)).
  cbn [Re.empty_group_search]. rewrite Hcl. reflexivity.
Qed.

Lemma drop_last_snoc s c : Py.drop_last (s ++ String c "") = s.
Proof.
  induction s as [|a r IH]; [reflexivity|].
  cbn [append Py.drop_last]. rewrite IH.
  destruct (r ++ String c "")%string eqn:E; [|reflexivity].
  destruct r; discriminate.
Qed.

Lemma strip_eol_snoc s c :
  Re.is_char c "010" = false ->
  Re.strip_eol (s ++ String c "") = (s ++ String c "")%string.
Proof.
  intros Hc. induction s as [|a r IH].
  - cbn. rewrite Hc. reflexivity.
  - cbn [append Re.strip_eol]. rewrite IH.
    destruct (r ++ String c "")%string eqn:E; [|reflexivity].
    destruct r; discriminate.
Qed.

Lemma append_assoc (a b c : string) :
  ((a ++ b) ++ c = a ++ (b ++ c))%string.
Proof. induction a; cbn; congruence. Qed.

Lemma group1_facts d :
  all_digits d = true -> d <> EmptyString ->
  Re.groups_eol Re.Open (group1 d) = true /\
  Re.strip_eol (group1 d) = group1 d /\
  first_dim (group1 d) = d /\
  Re.empty_group_search (group1 d) = false /\
  Re.ptr_search (group1 d) = false.
Proof.
  intros Hd Hne. unfold group1, first_dim. repeat split.
  - cbn. rewrite groups_inside_digits by assumption. reflexivity.
  - change (String "[" (d ++ "]")) with (String "[" d ++ "]")%string.
    apply strip_eol_snoc. reflexivity.
  - cbn [Py.slice_1_m1]. rewrite drop_last_snoc.
    apply split_first_digits. assumption.
  - rewrite empty_group_open_digits by assumption. reflexivity.
  - cbn. rewrite ptr_search_digits by assumption. reflexivity.
Qed.

Lemma group2_facts d e :
  all_digits d = true -> d <> EmptyString ->
  all_digits e = true -> e <> EmptyString ->
  Re.groups_eol Re.Open (group2 d e) = true /\
  Re.strip_eol (group2 d e) = group2 d e /\
  first_dim (group2 d e) = d /\
  Re.empty_group_search (group2 d e) = false /\
  Re.ptr_search (group2 d e) = false.
Proof.
  intros Hd Hdn He Hen. unfold group2, group1, first_dim. repeat split.
  - cbn. rewrite groups_inside_digits by assumption. cbn.
    rewrite groups_inside_digits by assumption. reflexivity.
  - change (String "[" (d ++ String "]" (String "[" (e ++ "]"))))
      with (String "[" (d ++ String "]" (String "[" (e ++ "]"))))%string.
    replace (String "[" (d ++ String "]" (String "[" (e ++ "]"))))
      with ((String "[" (d ++ String "]" (String "[" e))) ++ "]")%string.
    + apply strip_eol_snoc. reflexivity.
    + cbn. f_equal. rewrite append_assoc. reflexivity.
  - cbn [Py.slice_1_m1].
    replace (d ++ String "]" (String "[" (e ++ "]")))%string
      with ((d ++ String "]" (String "[" e)) ++ "]")%string
      by (rewrite append_assoc; reflexivity).
    rewrite drop_last_snoc. apply split_first_digits_sep. assumption.
  - rewrite empty_group_open_digits by assumption.
    change (Re.empty_group_search (String "]" (String "[" (e ++ "]"))))
      with (Re.empty_group_search (String "[" (e ++ "]"))).
    rewrite empty_group_open_digits by assumption. reflexivity.
  - cbn. rewrite ptr_search_digits by assumption. cbn.
    rewrite ptr_search_digits by assumption. reflexivity.
Qed.

(** ** Facts about the type names *)

Lemma arr_search_here g :
  Re.groups_eol Re.Open g = true -> Re.strip_eol g = g ->
  Re.arr_search g = Some g.
Proof. intros H1 H2. destruct g; cbn [Re.arr_search]; rewrite H1, H2; reflexivity. Qed.

Lemma length_append (a b : string) :
  String.length (a ++ b) = (String.length a + String.length b)%nat.
Proof. induction a; cbn; congruence. Qed.

Lemma eqb_length_neq (a b : string) :
  String.length a <> String.length b -> String.eqb a b = false.
Proof. intros H. apply String.eqb_neq. intros ->. congruence. Qed.

Lemma whitelist_cases T t :
  In (T, t) _type_list ->
  T = "unsigned char" \/ T = "unsigned int" \/ T = "char" \/ T = "short" \/
  T = "int" \/ T = "float" \/ T = "double".
Proof.
  cbn. intros H.
  repeat (destruct H as [H|H]; [inversion H; tauto|]). contradiction.
Qed.

Lemma type_list_get_in T t :
  In (T, t) _type_list -> type_list_get T = ret t.
Proof.
  cbn. intros H.
  repeat (destruct H as [H|H]; [inversion H; reflexivity|]). contradiction.
Qed.

Lemma type_list_get_inv T t l :
  type_list_get T = (l, Ok t) -> In (T, t) _type_list /\ l = [].
Proof.
  unfold type_list_get.
  destruct (find _ _type_list) as [[T' t']|] eqn:E; [|discriminate].
  intros H. inversion H; subst. split; [|reflexivity].
  apply find_some in E. destruct E as [Hin Heq].
  apply String.eqb_eq in Heq. cbn in Heq. subst. assumption.
Qed.

Ltac whitelisted H :=
  apply whitelist_cases in H;
  repeat (destruct H as [H|H]); subst.

Section ScalarNames.

Variables (T : string) (t : np_dtype).
Hypothesis T_listed : In (T, t) _type_list.

Lemma scalar_terminal :
  Re.ptr_search T = false /\ Re.arr_search T = None /\
  Re.vec_search T = false.
Proof. pose proof T_listed as H. whitelisted H; repeat split; reflexivity. Qed.

Lemma ptr_name_facts :
  Re.ptr_search (ptr_name T) = true /\
  String.eqb T (ptr_name T) = false.
Proof.
  pose proof T_listed as H. whitelisted H; split; reflexivity.
Qed.

Lemma ptr_name_not_vec : Re.vec_search (ptr_name T) = false.
Proof. pose proof T_listed as H. whitelisted H; reflexivity. Qed.

Lemma vec_name_facts :
  Re.ptr_search (vec_name T) = false /\
  Re.arr_search (vec_name T) = None /\
  Re.vec_search (vec_name T) = true /\
  String.eqb T (vec_name T) = false.
Proof.
  pose proof T_listed as H. whitelisted H; repeat split; reflexivity.
Qed.

Section OneDim.

Variable d : string.
Hypothesis d_digits : all_digits d = true.
Hypothesis d_nonempty : d <> EmptyString.

Lemma arr1_name_facts :
  Re.ptr_search (arr1_name T d) = false /\
  Re.arr_search (arr1_name T d) = Some (group1 d) /\
  Re.empty_group_search (arr1_name T d) = false /\
  Re.vec_search (arr1_name T d) = false /\
  String.eqb T (arr1_name T d) = false.
Proof.
  destruct (group1_facts d d_digits d_nonempty) as (Hg & Hs & _ & He & Hp).
  pose proof (arr_search_here _ Hg Hs) as Ha.
  pose proof T_listed as H.
  whitelisted H; unfold arr1_name; repeat split;
    try (cbn -[group1]; first [exact Hp | exact Ha | exact He | reflexivity]);
    apply eqb_length_neq; rewrite length_append; cbn; lia.
Qed.

Lemma arr_ptr_name_facts :
  Re.ptr_search (arr_ptr_name T d) = false /\
  Re.arr_search (arr_ptr_name T d) = Some (group1 d) /\
  Re.empty_group_search (arr_ptr_name T d) = false /\
  Re.vec_search (arr_ptr_name T d) = false /\
  String.eqb (ptr_name T) (arr_ptr_name T d) = false.
Proof.
  destruct (group1_facts d d_digits d_nonempty) as (Hg & Hs & _ & He & Hp).
  pose proof (arr_search_here _ Hg Hs) as Ha.
  assert (Hx : Re.ptr_here (String "*" (group1 d)) = false).
  { unfold group1. destruct d; [congruence|]. reflexivity. }
  assert (Hy : Re.ptr_search (String "*" (group1 d)) = false).
  { cbn [Re.ptr_search]. rewrite Hx, Hp. reflexivity. }
  assert (Hz : Re.arr_search (String "*" (group1 d)) = Some (group1 d)).
  { cbn [Re.arr_search]. exact Ha. }
  assert (Hw : Re.empty_group_search (String "*" (group1 d)) = false).
  { cbn [Re.empty_group_search]. exact He. }
  pose proof T_listed as H.
  whitelisted H; unfold arr_ptr_name, ptr_name; repeat split;
    try (cbn -[group1]; first [exact Hy | exact Hz | exact Hw | reflexivity]);
    apply eqb_length_neq; rewrite ?length_append; cbn; lia.
Qed.

Section TwoDim.

Variable e : string.
Hypothesis e_digits : all_digits e = true.
Hypothesis e_nonempty : e <> EmptyString.

Lemma arr2_name_facts :
  Re.ptr_search (arr2_name T d e) = false /\
  Re.arr_search (arr2_name T d e) = Some (group2 d e) /\
  Re.empty_group_search (arr2_name T d e) = false /\
  String.eqb (arr1_name T e) (arr2_name T d e) = false.
Proof.
  destruct (group2_facts d e d_digits d_nonempty e_digits e_nonempty)
    as (Hg & Hs & _ & He & Hp).
  pose proof (arr_search_here _ Hg Hs) as Ha.
  pose proof T_listed as H.
  whitelisted H; unfold arr2_name, arr1_name; repeat split;
    try (cbn -[group2]; first [exact Hp | exact Ha | exact He | reflexivity]);
    apply eqb_length_neq; unfold group2, group1; rewrite ?length_append;
    cbn; rewrite ?length_append; cbn; rewrite ?length_append; cbn; lia.
Qed.

End TwoDim.
End OneDim.
End ScalarNames.

(** ** The monad *)

Lemma bind_ok {A B} (m : M A) (f : A -> M B) l a l' r :
  m = (l, Ok a) -> f a = (l', r) -> bind m f = (l ++ l', r).
Proof. intros -> H. unfold bind. rewrite H. reflexivity. Qed.

Lemma bind_raise {A B} (m : M A) (f : A -> M B) l e :
  m = (l, Raise e) -> bind m f = (l, Raise e).
Proof. intros ->. reflexivity. Qed.

Lemma bind_inv_ok {A B} (m : M A) (f : A -> M B) l b :
  bind m f = (l, Ok b) ->
  exists l1 a l2, m = (l1, Ok a) /\ f a = (l2, Ok b) /\ l = l1 ++ l2.
Proof.
  unfold bind. destruct m as [l1 [a|e|]]; try discriminate.
  destruct (f a) as [l2 r] eqn:E. intros H. inversion H; subst.
  exists l1, a, l2. auto.
Qed.

Lemma lift_inv_ok {A} (r : exn + A) l a :
  lift r = (l, Ok a) -> r = inr a /\ l = [].
Proof. destruct r; cbn; intros H; inversion H; auto. Qed.

Section EngineFacts.

Context {G : Gdb}.

Lemma gdb_subscript_ok v i v' :
  subscript v i = inr v' -> gdb_subscript v i = ([EvSubscript i], Ok v').
Proof. intros H. unfold gdb_subscript. cbn. rewrite H. reflexivity. Qed.

Lemma gdb_field_ok v name v' :
  field v name = inr v' -> gdb_field v name = ([EvField name], Ok v').
Proof. intros H. unfold gdb_field. cbn. rewrite H. reflexivity. Qed.

Lemma gdb_parse_ok var v :
  parse_and_eval var = inr v -> gdb_parse var = ([EvParse var], Ok v).
Proof. intros H. unfold gdb_parse. cbn. rewrite H. reflexivity. Qed.

Lemma gdb_subscript_inv v i l v' :
  gdb_subscript v i = (l, Ok v') ->
  subscript v i = inr v' /\ l = [EvSubscript i].
Proof.
  unfold gdb_subscript. cbn. destruct (subscript v i); cbn; intros H;
    inversion H; auto.
Qed.

Lemma gdb_field_inv v name l v' :
  gdb_field v name = (l, Ok v') ->
  field v name = inr v' /\ l = [EvField name].
Proof.
  unfold gdb_field. cbn. destruct (field v name); cbn; intros H;
    inversion H; auto.
Qed.

(** *** The step methods *)

Lemma deref_index_ok c v i v' :
  c = DeRefPtr \/ c = DeRefArr ->
  subscript v i = inr v' ->
  deref c v [i] = ([EvSubscript i], Ok v').
Proof.
  intros [-> | ->] H; cbn; rewrite H; reflexivity.
Qed.

Lemma deref_vec_ok v i impl start v' :
  field v "_M_impl" = inr impl ->
  field impl "_M_start" = inr start ->
  subscript start i = inr v' ->
  deref DeRefVec v [i] =
    ([EvField "_M_impl"; EvField "_M_start"; EvSubscript i], Ok v').
Proof. intros H1 H2 H3. cbn. rewrite H1. cbn. rewrite H2. cbn. rewrite H3. reflexivity. Qed.

(** *** The constructors *)

Lemma DeRefArr_init_ok v si shape g b v' :
  Re.empty_group_search (type_us v) = false ->
  Re.arr_search (type_us v) = Some g ->
  Py.int (first_dim g) = Some b ->
  subscript v 0 = inr v' ->
  DeRefArr_init v si shape =
    ([EvSubscript 0%Z],
     Ok {| bounds := [b]; val := v'; shape_ind := si; _shape := shape |}).
Proof.
  intros H1 H2 H3 H4. unfold DeRefArr_init, first_dim in *. cbn.
  rewrite H1, H2, H3. cbn. rewrite H4. reflexivity.
Qed.

Lemma DeRefArr_init_unbound v si shape :
  Re.empty_group_search (type_us v) = true ->
  DeRefArr_init v si shape = ([], Raise (GdbError msg_missing_dimensions)).
Proof. intros H. unfold DeRefArr_init. cbn. rewrite H. reflexivity. Qed.

Lemma get_range_ok self c sh a :
  shape_ind self = Some c -> _shape self = Some sh ->
  (c + a <= length sh)%nat ->
  _get_range_from_shape self a =
    ret (set_shape_ind (set_bounds self (Py.slice sh c (c + a)))
           (Some (c + a)%nat)).
Proof.
  intros H1 H2 H3. unfold _get_range_from_shape. rewrite H1, H2.
  destruct (Nat.ltb_spec (length sh) (c + a)); [lia|]. reflexivity.
Qed.

Lemma get_range_exhausted self c sh a :
  shape_ind self = Some c -> _shape self = Some sh ->
  (length sh < c + a)%nat ->
  _get_range_from_shape self a = raise (IndexError msg_insufficient_bounds).
Proof.
  intros H1 H2 H3. unfold _get_range_from_shape. rewrite H1, H2.
  destruct (Nat.ltb_spec (length sh) (c + a)); [|lia]. reflexivity.
Qed.

Lemma DeRefPtr_init_ok v c sh v' :
  subscript v 0 = inr v' ->
  (c + 1 <= length sh)%nat ->
  DeRefPtr_init v (Some c) (Some sh) =
    ([EvSubscript 0%Z],
     Ok {| bounds := Py.slice sh c (c + 1); val := v';
           shape_ind := Some (c + 1)%nat; _shape := Some sh |}).
Proof.
  intros H1 H2. unfold DeRefPtr_init.
  erewrite bind_ok;
    [ | apply deref_index_ok; [auto | exact H1]
      | apply (get_range_ok _ c sh); [reflexivity | reflexivity | exact H2] ].
  reflexivity.
Qed.

Lemma DeRefPtr_init_absent v si :
  DeRefPtr_init v si None = ([], Raise (ValueError msg_shape_required)).
Proof. reflexivity. Qed.

Lemma DeRefPtr_init_exhausted v c sh v' :
  subscript v 0 = inr v' ->
  (length sh < c + 1)%nat ->
  DeRefPtr_init v (Some c) (Some sh) =
    ([EvSubscript 0%Z], Raise (IndexError msg_insufficient_bounds)).
Proof.
  intros H1 H2. unfold DeRefPtr_init.
  erewrite bind_ok;
    [ | apply deref_index_ok; [auto | exact H1]
      | apply (get_range_exhausted _ c sh);
        [reflexivity | reflexivity | exact H2] ].
  reflexivity.
Qed.

Lemma DeRefPtr_init_no_cursor v sh v' :
  subscript v 0 = inr v' ->
  DeRefPtr_init v None (Some sh) =
    ([EvSubscript 0%Z], Raise (TypeError msg_none_plus_int)).
Proof.
  intros H1. unfold DeRefPtr_init.
  erewrite bind_ok; [ | apply deref_index_ok; [auto | exact H1] | reflexivity ].
  reflexivity.
Qed.

Lemma DeRefVec_init_ok v si shape impl start finish v' len :
  field v "_M_impl" = inr impl ->
  field impl "_M_start" = inr start ->
  field impl "_M_finish" = inr finish ->
  subscript start 0 = inr v' ->
  ptr_sub finish start = inr len ->
  DeRefVec_init v si shape =
    ([EvField "_M_impl"; EvField "_M_start"; EvSubscript 0%Z;
      EvField "_M_impl"; EvField "_M_start";
      EvField "_M_impl"; EvField "_M_finish"],
     Ok {| bounds := [len]; val := v'; shape_ind := si; _shape := shape |}).
Proof.
  intros H1 H2 H3 H4 H5. unfold DeRefVec_init.
  repeat (progress (cbn; rewrite ?H1, ?H2, ?H3, ?H4, ?H5)). reflexivity.
Qed.

(** *** One call of [_deref] *)

Lemma deref_ptr_list_none v fs bs ns si shape :
  Re.ptr_search (type_su v) = false ->
  Re.arr_search (type_su v) = None ->
  _deref _ptr_list v fs bs ns si shape = ret (mk_walk v si fs bs ns).
Proof.
  intros H1 H2. unfold _deref, _ptr_list, _get_type. cbn.
  rewrite H1, H2. reflexivity.
Qed.

Lemma deref_ptr_list_arr v fs bs ns si shape g b v' :
  Re.ptr_search (type_su v) = false ->
  Re.arr_search (type_su v) = Some g ->
  has_type v (type_su v) ->
  Re.empty_group_search (type_su v) = false ->
  Py.int (first_dim g) = Some b ->
  subscript v 0 = inr v' ->
  _deref _ptr_list v fs bs ns si shape =
    ([EvSubscript 0%Z],
     Ok (mk_walk v' si (fs ++ [DeRefArr]) (bs ++ [b]) (ns ++ [1%nat]))).
Proof.
  intros H1 H2 [_ Hus] H3 H4 H5. unfold _deref, _ptr_list, _get_type.
  cbn [_deref_for pattern_search w_val w_shape_ind]. rewrite H1, H2.
  cbn [new].
  erewrite bind_ok;
    [ | apply (DeRefArr_init_ok v si shape g b v');
        rewrite ?Hus; assumption
      | reflexivity ].
  reflexivity.
Qed.

Lemma deref_ptr_list_ptr v fs bs ns c sh v' :
  Re.ptr_search (type_su v) = true ->
  subscript v 0 = inr v' ->
  (c + 1 <= length sh)%nat ->
  Re.arr_search (type_su v') = None ->
  _deref _ptr_list v fs bs ns (Some c) (Some sh) =
    ([EvSubscript 0%Z],
     Ok (mk_walk v' (Some (c + 1)%nat) (fs ++ [DeRefPtr])
           (bs ++ Py.slice sh c (c + 1))
           (ns ++ [length (Py.slice sh c (c + 1))]))).
Proof.
  intros H1 H2 H3 H4. unfold _deref, _ptr_list, _get_type.
  cbn [_deref_for pattern_search w_val w_shape_ind]. rewrite H1.
  cbn [new].
  erewrite bind_ok;
    [ | apply (DeRefPtr_init_ok v c sh v'); assumption | ].
  - reflexivity.
  - cbn beta. unfold _get_type.
    cbn [val bounds shape_ind _deref_for pattern_search w_val].
    rewrite H4. reflexivity.
Qed.

Lemma deref_container_list_none v fs bs ns si shape :
  Re.vec_search (type_su v) = false ->
  _deref _container_list v fs bs ns si shape = ret (mk_walk v si fs bs ns).
Proof.
  intros H1. unfold _deref, _container_list, _get_type.
  cbn [_deref_for pattern_search]. rewrite H1. reflexivity.
Qed.

Lemma deref_container_list_vec v fs bs ns si shape impl start finish v' len :
  Re.vec_search (type_su v) = true ->
  field v "_M_impl" = inr impl ->
  field impl "_M_start" = inr start ->
  field impl "_M_finish" = inr finish ->
  subscript start 0 = inr v' ->
  ptr_sub finish start = inr len ->
  _deref _container_list v fs bs ns si shape =
    ([EvField "_M_impl"; EvField "_M_start"; EvSubscript 0%Z;
      EvField "_M_impl"; EvField "_M_start";
      EvField "_M_impl"; EvField "_M_finish"],
     Ok (mk_walk v' si (fs ++ [DeRefVec]) (bs ++ [len]) (ns ++ [1%nat]))).
Proof.
  intros H0 H1 H2 H3 H4 H5. unfold _deref, _container_list, _get_type.
  cbn [_deref_for pattern_search w_val w_shape_ind]. rewrite H0.
  cbn [new].
  erewrite bind_ok;
    [ | eapply (DeRefVec_init_ok v si shape); eassumption | reflexivity ].
  rewrite app_nil_r. reflexivity.
Qed.

(** *** The loops of [_get_deref_funcs] *)

Lemma types_differ_same a w : types_differ (mk_frame a (Some a) w) = false.
Proof. unfold types_differ. cbn. rewrite String.eqb_refl. reflexivity. Qed.

Lemma inner_while_done k shape f :
  types_differ f = false -> inner_while k shape f = ret f.
Proof. intros H. destruct k; cbn; rewrite H; reflexivity. Qed.

Lemma outer_while_done i k shape f :
  types_differ f = false -> outer_while i k shape f = ret f.
Proof. intros H. destruct k; cbn; rewrite H; reflexivity. Qed.

Lemma inner_while_once k shape f l w :
  types_differ f = true ->
  _deref _ptr_list (f_val f) (f_deref_func f) (f_bounds f) (f_arg_no f)
    (f_shape_ind f) shape = (l, Ok w) ->
  inner_while (S k) shape f =
    (l, Ok (mk_frame (type_su (f_val f)) (Some (type_su (f_val f))) w)).
Proof.
  intros Hd Hw.
  assert (Hb : inner_body shape f =
    (l, Ok (mk_frame (type_su (f_val f)) (Some (type_su (f_val f))) w))).
  { unfold inner_body, bind. rewrite Hw. cbn. rewrite app_nil_r.
    reflexivity. }
  cbn [inner_while]. rewrite Hd. unfold bind. rewrite Hb.
  rewrite inner_while_done by apply types_differ_same.
  cbn. rewrite app_nil_r. reflexivity.
Qed.

Lemma outer_body_ok k shape f lp wp lc wc :
  types_differ f = true ->
  _deref _ptr_list (f_val f) (f_deref_func f) (f_bounds f) (f_arg_no f)
    (f_shape_ind f) shape = (lp, Ok wp) ->
  _deref _container_list (w_val wp) (w_deref_func wp) (w_bounds wp)
    (w_arg_no wp) (w_shape_ind wp) shape = (lc, Ok wc) ->
  outer_body (S k) shape f =
    (lp ++ lc,
     Ok (mk_frame (type_su (w_val wc)) (Some (type_su (f_val f))) wc)).
Proof.
  intros Hd Hp Hc. unfold outer_body, bind.
  rewrite (inner_while_once k shape f lp wp Hd Hp).
  cbn [mk_frame f_val f_deref_func f_bounds f_arg_no f_shape_ind f_old_type].
  rewrite Hc. cbn. rewrite app_nil_r. reflexivity.
Qed.

Lemma outer_while_step i k shape f l f' :
  types_differ f = true ->
  outer_body i shape f = (l, Ok f') ->
  outer_while i (S k) shape f =
    (l ++ fst (outer_while i k shape f'), snd (outer_while i k shape f')).
Proof.
  intros Hd Hb. cbn [outer_while]. rewrite Hd. unfold bind. rewrite Hb.
  destruct (outer_while i k shape f'). reflexivity.
Qed.

Lemma outer_while_raise i k shape f l e :
  types_differ f = true ->
  outer_body i shape f = (l, Raise e) ->
  outer_while i (S k) shape f = (l, Raise e).
Proof.
  intros Hd Hb. cbn [outer_while]. rewrite Hd. unfold bind. rewrite Hb.
  reflexivity.
Qed.

(** *** Index tuples *)

Lemma in_range i b : In i (Py.range b) <-> (0 <= i < b)%Z.
Proof.
  unfold Py.range. rewrite in_map_iff. split.
  - intros (k & <- & Hk). apply in_seq in Hk. lia.
  - intros H. exists (Z.to_nat i). split; [lia|]. apply in_seq. lia.
Qed.

Lemma in_product index bnds :
  In index (Py.product (map Py.range bnds)) <-> in_bounds index bnds.
Proof.
  unfold in_bounds. revert index.
  induction bnds as [|b bs IH]; intros index; cbn.
  - split.
    + intros [<- | []]. constructor.
    + intros H. inversion H. auto.
  - rewrite in_flat_map. split.
    + intros (i & Hi & Hin). apply in_map_iff in Hin.
      destruct Hin as (rest & <- & Hrest).
      constructor; [apply in_range; assumption | apply IH; assumption].
    + intros H. inversion H as [|i b' rest bs' Hi Hrest]; subst.
      exists i. split; [apply in_range; assumption|].
      apply in_map. apply IH. assumption.
Qed.

Lemma index_in_range_bounds index bnds :
  in_bounds index bnds -> index_in_range bnds index = true.
Proof.
  induction 1 as [|i b index bs Hi _ IH]; cbn; [reflexivity|].
  rewrite IH. destruct (Z.leb_spec 0 i); [|lia].
  destruct (Z.ltb_spec i b); [|lia]. reflexivity.
Qed.

(** *** Filling the buffer *)

Lemma nd_setitem_ok a index x :
  index_in_range (nd_shape a) index = true ->
  nd_setitem a index x =
    ([EvStore index],
     Ok {| nd_shape := nd_shape a; nd_dtype := nd_dtype a;
           nd_data := fun j => if list_eq_dec Z.eq_dec j index then x
                               else nd_data a j |}).
Proof. intros H. unfold nd_setitem. rewrite H. reflexivity. Qed.

Lemma fill_spec var fs ns dtype lc (x : list Z -> Number) indices :
  forall a,
  (forall index, In index indices ->
     index_in_range (nd_shape a) index = true /\
     cell var fs ns dtype index = (lc index, Ok (x index))) ->
  exists a',
    fill var fs ns dtype indices a =
      (flat_map (fun index => lc index ++ [EvStore index]) indices, Ok a') /\
    nd_shape a' = nd_shape a /\ nd_dtype a' = nd_dtype a /\
    (forall index, In index indices -> nd_data a' index = x index) /\
    (forall index, ~ In index indices -> nd_data a' index = nd_data a index).
Proof.
  induction indices as [|i rest IH]; intros a H.
  - exists a. cbn. repeat split; auto. intros ? [].
  - destruct (H i (or_introl eq_refl)) as [Hr Hc].
    set (a1 := {| nd_shape := nd_shape a; nd_dtype := nd_dtype a;
                  nd_data := fun j => if list_eq_dec Z.eq_dec j i then x i
                                      else nd_data a j |}).
    destruct (IH a1) as (a' & Hf & Hs & Hd & Hin & Hout).
    { intros index Hi. apply H. right. assumption. }
    exists a'. repeat split.
    + cbn [fill flat_map]. unfold bind. rewrite Hc.
      rewrite (nd_setitem_ok a i (x i) Hr). fold a1. rewrite Hf.
      rewrite <- !app_assoc. reflexivity.
    + rewrite Hs. reflexivity.
    + rewrite Hd. reflexivity.
    + intros index [<- | Hi].
      * destruct (in_dec (list_eq_dec Z.eq_dec) i rest) as [Hi|Hi];
          [apply Hin; assumption|].
        rewrite Hout by assumption. cbn.
        destruct (list_eq_dec Z.eq_dec i i); congruence.
      * apply Hin. assumption.
    + intros index Hi. rewrite Hout by (intros Hr'; apply Hi; right; assumption).
      cbn. destruct (list_eq_dec Z.eq_dec index i) as [->|]; [|reflexivity].
      exfalso. apply Hi. left. reflexivity.
Qed.

Lemma np_zeros_ok bnds t :
  Forall (fun b => 0 <= b)%Z bnds ->
  np_zeros bnds t =
    ([EvZeros bnds t],
     Ok {| nd_shape := bnds; nd_dtype := t; nd_data := fun _ => np_zero t |}).
Proof.
  intros H. unfold np_zeros.
  replace (forallb (fun b => (0 <=? b)%Z) bnds) with true; [reflexivity|].
  symmetry. apply forallb_forall. intros b Hb.
  rewrite Forall_forall in H. apply Z.leb_le. auto.
Qed.

Lemma cell_ok var fs ns dtype index root lr v t x :
  parse_and_eval var = inr root ->
  replay (combine fs ns) root index 0 = (lr, Ok v) ->
  In (dtype, t) _type_list ->
  np_scalar t v = inr x ->
  cell var fs ns dtype index = (EvParse var :: lr, Ok x).
Proof.
  intros Hp Hr Ht Hx. unfold cell, bind.
  rewrite (gdb_parse_ok var root Hp), Hr, (type_list_get_in _ _ Ht).
  cbn. rewrite Hx. cbn. rewrite !app_nil_r. reflexivity.
Qed.

(** [to_array] once the driver has completed. *)
Lemma to_array_spec fuel var shape root l1 fs ns bnds dtype t lc x :
  parse_and_eval var = inr root ->
  _get_deref_funcs fuel root shape = (l1, Ok (fs, ns, bnds, dtype)) ->
  In (dtype, t) _type_list ->
  Forall (fun b => 0 <= b)%Z bnds ->
  (forall index, in_bounds index bnds ->
     cell var fs ns dtype index = (lc index, Ok (x index))) ->
  exists a,
    to_array fuel var shape =
      (EvParse var :: l1 ++ EvZeros bnds t ::
         flat_map (fun index => lc index ++ [EvStore index])
           (Py.product (map Py.range bnds)),
       Ok a) /\
    nd_shape a = bnds /\ nd_dtype a = t /\
    (forall index, in_bounds index bnds -> nd_data a index = x index).
Proof.
  intros Hp Hd Ht Hb Hc.
  destruct (fill_spec var fs ns dtype lc x (Py.product (map Py.range bnds))
              {| nd_shape := bnds; nd_dtype := t;
                 nd_data := fun _ => np_zero t |})
    as (a & Hf & Hs & Hk & Hin & _).
  { intros index Hi. apply in_product in Hi. split.
    - apply index_in_range_bounds. assumption.
    - apply Hc. assumption. }
  exists a. repeat split; try assumption.
  - unfold to_array, bind.
    rewrite (gdb_parse_ok var root Hp), Hd, (type_list_get_in _ _ Ht).
    cbn [ret]. rewrite (np_zeros_ok bnds t Hb), Hf. cbn. reflexivity.
  - intros index Hi. apply Hin. apply in_product. assumption.
Qed.

Lemma to_array_cong fuel var root s1 s2 :
  parse_and_eval var = inr root ->
  _get_deref_funcs fuel root s1 = _get_deref_funcs fuel root s2 ->
  to_array fuel var s1 = to_array fuel var s2.
Proof.
  intros Hp H. unfold to_array, bind.
  rewrite (gdb_parse_ok var root Hp), H. reflexivity.
Qed.

Lemma to_array_raise fuel var shape root l e :
  parse_and_eval var = inr root ->
  _get_deref_funcs fuel root shape = (l, Raise e) ->
  to_array fuel var shape = (EvParse var :: l, Raise e).
Proof.
  intros Hp H. unfold to_array, bind.
  rewrite (gdb_parse_ok var root Hp), H. reflexivity.
Qed.

(** *** One turn of the outer loop, by the kind of the current type *)

Lemma report_unused_initial shape :
  report_unused (initial_shape_ind shape) shape = ret tt.
Proof. destruct shape as [[|]|]; reflexivity. Qed.

Lemma turn_arr i k shape f g b v' :
  types_differ f = true ->
  has_type (f_val f) (type_su (f_val f)) ->
  Re.ptr_search (type_su (f_val f)) = false ->
  Re.arr_search (type_su (f_val f)) = Some g ->
  Re.empty_group_search (type_su (f_val f)) = false ->
  Py.int (first_dim g) = Some b ->
  subscript (f_val f) 0 = inr v' ->
  Re.vec_search (type_su v') = false ->
  outer_while (S i) (S k) shape f =
    bind ([EvSubscript 0%Z], Ok tt) (fun _ =>
      outer_while (S i) k shape
        (mk_frame (type_su v') (Some (type_su (f_val f)))
           (mk_walk v' (f_shape_ind f) (f_deref_func f ++ [DeRefArr])
              (f_bounds f ++ [b]) (f_arg_no f ++ [1%nat])))).
Proof.
  intros Hd Ht Hp Ha He Hb Hs Hv.
  erewrite outer_while_step; [ | exact Hd | ].
  2:{ eapply outer_body_ok; [exact Hd | | ].
      - eapply deref_ptr_list_arr; eassumption.
      - apply deref_container_list_none. exact Hv. }
  unfold bind. cbn [mk_walk w_val w_shape_ind w_deref_func w_bounds w_arg_no].
  destruct (outer_while _ _ _ _). reflexivity.
Qed.

Lemma turn_ptr i k f c sh v' :
  types_differ f = true ->
  f_shape_ind f = Some c ->
  Re.ptr_search (type_su (f_val f)) = true ->
  subscript (f_val f) 0 = inr v' ->
  (c + 1 <= length sh)%nat ->
  Re.arr_search (type_su v') = None ->
  Re.vec_search (type_su v') = false ->
  outer_while (S i) (S k) (Some sh) f =
    bind ([EvSubscript 0%Z], Ok tt) (fun _ =>
      outer_while (S i) k (Some sh)
        (mk_frame (type_su v') (Some (type_su (f_val f)))
           (mk_walk v' (Some (c + 1)%nat) (f_deref_func f ++ [DeRefPtr])
              (f_bounds f ++ Py.slice sh c (c + 1))
              (f_arg_no f ++ [length (Py.slice sh c (c + 1))])))).
Proof.
  intros Hd Hc Hp Hs Hl Ha Hv.
  erewrite outer_while_step; [ | exact Hd | ].
  2:{ eapply outer_body_ok; [exact Hd | | ].
      - rewrite Hc. eapply deref_ptr_list_ptr; eassumption.
      - apply deref_container_list_none. exact Hv. }
  unfold bind. cbn [mk_walk w_val w_shape_ind w_deref_func w_bounds w_arg_no].
  destruct (outer_while _ _ _ _). reflexivity.
Qed.

Lemma turn_vec i k shape f impl start finish v' len :
  types_differ f = true ->
  Re.ptr_search (type_su (f_val f)) = false ->
  Re.arr_search (type_su (f_val f)) = None ->
  Re.vec_search (type_su (f_val f)) = true ->
  field (f_val f) "_M_impl" = inr impl ->
  field impl "_M_start" = inr start ->
  field impl "_M_finish" = inr finish ->
  subscript start 0 = inr v' ->
  ptr_sub finish start = inr len ->
  outer_while (S i) (S k) shape f =
    bind ([EvField "_M_impl"; EvField "_M_start"; EvSubscript 0%Z;
           EvField "_M_impl"; EvField "_M_start";
           EvField "_M_impl"; EvField "_M_finish"], Ok tt) (fun _ =>
      outer_while (S i) k shape
        (mk_frame (type_su v') (Some (type_su (f_val f)))
           (mk_walk v' (f_shape_ind f) (f_deref_func f ++ [DeRefVec])
              (f_bounds f ++ [len]) (f_arg_no f ++ [1%nat])))).
Proof.
  intros Hd Hp Ha Hv H1 H2 H3 H4 H5.
  erewrite outer_while_step; [ | exact Hd | ].
  2:{ eapply outer_body_ok; [exact Hd | | ].
      - apply deref_ptr_list_none; assumption.
      - eapply deref_container_list_vec; eassumption. }
  unfold bind. cbn [mk_walk w_val w_shape_ind w_deref_func w_bounds w_arg_no].
  destruct (outer_while _ _ _ _). reflexivity.
Qed.

Lemma turn_terminal i k shape f :
  types_differ f = true ->
  Re.ptr_search (type_su (f_val f)) = false ->
  Re.arr_search (type_su (f_val f)) = None ->
  Re.vec_search (type_su (f_val f)) = false ->
  outer_while (S i) (S k) shape f =
    ret (mk_frame (type_su (f_val f)) (Some (type_su (f_val f)))
           (mk_walk (f_val f) (f_shape_ind f) (f_deref_func f)
              (f_bounds f) (f_arg_no f))).
Proof.
  intros Hd Hp Ha Hv.
  erewrite outer_while_step; [ | exact Hd | ].
  2:{ eapply outer_body_ok; [exact Hd | | ].
      - apply deref_ptr_list_none; assumption.
      - apply deref_container_list_none. exact Hv. }
  cbn [mk_walk w_val w_shape_ind w_deref_func w_bounds w_arg_no].
  rewrite outer_while_done by apply types_differ_same. reflexivity.
Qed.

End EngineFacts.

(** * The specification, property by property *)

(** ** Two-level fixed-size arrays *)

Lemma driver_arr2 {G : Gdb} k shape T t dm dn m n root row0 elem00 :
  In (T, t) _type_list ->
  Py.int dm = Some m -> Py.int dn = Some n ->
  has_type root (arr2_name T dm dn) ->
  subscript root 0 = inr row0 ->
  has_type row0 (arr1_name T dn) ->
  subscript row0 0 = inr elem00 ->
  type_su elem00 = T ->
  _get_deref_funcs (S (S (S k))) root shape =
    ([EvSubscript 0; EvSubscript 0]%Z,
     Ok ([DeRefArr; DeRefArr], [1; 1]%nat, [m; n], T)).
Proof.
  intros HT Hm Hn [Hr1 Hr2] Hs0 [Hw1 Hw2] Hs1 He.
  destruct (int_inv _ _ Hm) as (Hdm & Hnm & _).
  destruct (int_inv _ _ Hn) as (Hdn & Hnn & _).
  destruct (arr2_name_facts T t HT dm Hdm Hnm dn Hdn Hnn)
    as (Hp2 & Ha2 & He2 & Hq2).
  destruct (arr1_name_facts T t HT dn Hdn Hnn) as (Hp1 & Ha1 & He1 & Hv1 & Hq1).
  destruct (scalar_terminal T t HT) as (Hp0 & Ha0 & Hv0).
  destruct (group2_facts dm dn Hdm Hnm Hdn Hnn) as (_ & _ & Hf2 & _).
  destruct (group1_facts dn Hdn Hnn) as (_ & _ & Hf1 & _).
  unfold _get_deref_funcs, _get_type.
  erewrite turn_arr with (g := group2 dm dn) (b := m) (v' := row0);
    cbn [f_val f_old_type f_arr_type f_shape_ind f_deref_func f_bounds
         f_arg_no];
    rewrite ?Hr1, ?Hr2, ?Hw1, ?Hf2; try eassumption; try reflexivity;
    [ | split; assumption ].
  erewrite turn_arr with (g := group1 dn) (b := n) (v' := elem00);
    cbn [mk_frame mk_walk f_val f_old_type f_arr_type f_shape_ind
         f_deref_func f_bounds f_arg_no w_val w_shape_ind w_deref_func
         w_bounds w_arg_no];
    rewrite ?Hw1, ?Hw2, ?He, ?Hf1; try eassumption; try reflexivity;
    [ | unfold types_differ; cbn; rewrite Hq2; reflexivity
      | split; assumption ].
  erewrite turn_terminal;
    cbn [mk_frame mk_walk f_val f_old_type f_arr_type f_shape_ind
         f_deref_func f_bounds f_arg_no w_val w_shape_ind w_deref_func
         w_bounds w_arg_no];
    rewrite ?He; try eassumption;
    [ | unfold types_differ; cbn; rewrite Hq1; reflexivity ].
  cbn. rewrite report_unused_initial. reflexivity.
Qed.

Lemma in_bounds_2 index m n :
  in_bounds index [m; n] ->
  exists i j, index = [i; j] /\ (0 <= i < m)%Z /\ (0 <= j < n)%Z.
Proof.
  intros H. inversion H as [|i ? r1 ? Hi H1]; subst.
  inversion H1 as [|j ? r2 ? Hj H2]; subst. inversion H2; subst.
  exists i, j. auto.
Qed.

Lemma in_bounds_1 index m :
  in_bounds index [m] -> exists i, index = [i] /\ (0 <= i < m)%Z.
Proof.
  intros H. inversion H as [|i ? r1 ? Hi H1]; subst. inversion H1; subst.
  exists i. auto.
Qed.

(** C1.  For a variable whose type is a two-level fixed-size array
    [T [m][n]] of a whitelisted scalar [T], [to_array] returns a buffer of
    shape [(m, n)] whose cell [(i, j)] is the scalar at [var[i][j]], for all
    [0 <= i < m] and [0 <= j < n], and the run with a shape hint is the run
    without one. *)
Theorem C1_two_level_array {G : Gdb}
    (fuel : nat) (var : string) (shape : option (list Z))
    (T : string) (t : np_dtype) (dm dn : string) (m n : Z)
    (root : Value) (row : Z -> Value) (elem : Z -> Z -> Value)
    (x : Z -> Z -> Number) :
  (3 <= fuel)%nat ->
  In (T, t) _type_list ->
  Py.int dm = Some m -> Py.int dn = Some n ->
  parse_and_eval var = inr root ->
  has_type root (arr2_name T dm dn) ->
  (forall i, probed m i ->
     subscript root i = inr (row i) /\ has_type (row i) (arr1_name T dn)) ->
  (forall i j, probed m i -> probed n j ->
     subscript (row i) j = inr (elem i j) /\ type_su (elem i j) = T) ->
  (forall i j, (0 <= i < m)%Z -> (0 <= j < n)%Z ->
     np_scalar t (elem i j) = inr (x i j)) ->
  exists log a,
    to_array fuel var shape = (log, Ok a) /\
    nd_shape a = [m; n] /\ nd_dtype a = t /\
    (forall i j, (0 <= i < m)%Z -> (0 <= j < n)%Z ->
       nd_data a [i; j] = x i j) /\
    to_array fuel var None = to_array fuel var shape.
Proof.
  intros Hfuel HT Hm Hn Hp Hroot Hrow Helem Hx.
  destruct fuel as [|[|[|k]]]; try lia.
  assert (P0m : probed m 0) by (left; reflexivity).
  assert (P0n : probed n 0) by (left; reflexivity).
  destruct (Hrow 0%Z P0m) as [Hs0 Hw0].
  destruct (Helem 0%Z 0%Z P0m P0n) as [Hs1 He0].
  assert (Hdrv : forall s, _get_deref_funcs (S (S (S k))) root s =
            ([EvSubscript 0; EvSubscript 0]%Z,
             Ok ([DeRefArr; DeRefArr], [1; 1]%nat, [m; n], T))).
  { intros s. eapply driver_arr2; eassumption. }
  destruct (int_inv _ _ Hm) as (_ & _ & Hm0).
  destruct (int_inv _ _ Hn) as (_ & _ & Hn0).
  destruct (to_array_spec (S (S (S k))) var shape root _ _ _ _ _ t
              (fun index => match index with
                            | [i; j] => [EvParse var; EvSubscript i;
                                         EvSubscript j]
                            | _ => []
                            end)
              (fun index => match index with
                            | [i; j] => x i j
                            | _ => np_zero t
                            end)
              Hp (Hdrv shape) HT)
    as (a & Ha & Hsh & Hdt & Hcells).
  { repeat constructor; assumption. }
  { intros index Hi. apply in_bounds_2 in Hi.
    destruct Hi as (i & j & -> & Hi & Hj).
    assert (Pi : probed m i) by (right; assumption).
    assert (Pj : probed n j) by (right; assumption).
    destruct (Hrow i Pi) as [Hsi _]. destruct (Helem i j Pi Pj) as [Hsj _].
    eapply cell_ok; try eassumption; [ | apply Hx; assumption ].
    cbn. rewrite Hsi. cbn. rewrite Hsj. reflexivity. }
  eexists. exists a. repeat split; try eassumption.
  - intros i j Hi Hj. apply (Hcells [i; j]).
    constructor; [assumption|]. constructor; [assumption|]. constructor.
  - eapply to_array_cong; [eassumption|]. rewrite !Hdrv. reflexivity.
Qed.

Lemma C1_two_level_array_witness :
  exists log (a : @ndarray Demo.gdb),
    to_array 3 "mat" (Some [1; 2]%Z) = (log, Ok a) /\
    nd_shape a = [2; 3]%Z /\ nd_dtype a = np_int32 /\
    (forall i j, (0 <= i < 2)%Z -> (0 <= j < 3)%Z ->
       nd_data a [i; j] = Demo.stored [i; j]) /\
    to_array (G := Demo.gdb) 3 "mat" None = to_array 3 "mat" (Some [1; 2]%Z).
Proof.
  apply (C1_two_level_array (G := Demo.gdb) 3 "mat" (Some [1; 2]%Z)
           "int" np_int32 "2" "3" 2 3
           (Demo.top (Demo.Arr "2" (Demo.Arr "3" Demo.int_t)))
           (fun i => Demo.at_path (Demo.Arr "3" Demo.int_t) [i])
           (fun i j => Demo.at_path Demo.int_t [i; j])
           (fun i j => Demo.stored [i; j])).
  - lia.
  - simpl. tauto.
  - reflexivity.
  - reflexivity.
  - reflexivity.
  - split; reflexivity.
  - intros i _. split; [reflexivity | split; reflexivity].
  - intros i j _ _. split; reflexivity.
  - intros i j _ _. reflexivity.
Defined.

(** ** Pointers *)

Lemma slice_one {A} (sh : list A) c b :
  nth_error sh c = Some b ->
  Py.slice sh c (c + 1) = [b] /\ (c + 1 <= length sh)%nat.
Proof.
  unfold Py.slice. replace (c + 1 - c)%nat with 1%nat by lia.
  revert c. induction sh as [|a r IH]; intros [|c] H; cbn in *;
    try discriminate.
  - inversion H; subst. split; [reflexivity | lia].
  - destruct (IH c H) as [H1 H2]. split; [assumption | lia].
Qed.

(** The pointer layer takes the hint entry under the cursor as its bound,
    whatever the entry is, and moves the cursor one entry on. *)
Lemma DeRefPtr_init_claims {G : Gdb} v v' c sh b :
  subscript v 0 = inr v' ->
  nth_error sh c = Some b ->
  DeRefPtr_init v (Some c) (Some sh) =
    ([EvSubscript 0%Z],
     Ok {| bounds := [b]; val := v'; shape_ind := Some (S c);
           _shape := Some sh |}).
Proof.
  intros Hs Hn. destruct (slice_one sh c b Hn) as [Hsl Hle].
  rewrite (DeRefPtr_init_ok v c sh v' Hs Hle), Hsl.
  replace (c + 1)%nat with (S c) by lia. reflexivity.
Qed.

Lemma driver_ptr {G : Gdb} k T t b root elem0 :
  In (T, t) _type_list ->
  type_su root = ptr_name T ->
  subscript root 0 = inr elem0 ->
  type_su elem0 = T ->
  _get_deref_funcs (S (S k)) root (Some [b]) =
    ([EvSubscript 0%Z], Ok ([DeRefPtr], [1%nat], [b], T)).
Proof.
  intros HT Hr Hs He.
  destruct (ptr_name_facts T t HT) as (Hp1 & Hq1).
  destruct (scalar_terminal T t HT) as (Hp0 & Ha0 & Hv0).
  unfold _get_deref_funcs, _get_type.
  erewrite turn_ptr with (c := 0%nat) (v' := elem0);
    cbn [f_val f_old_type f_arr_type f_shape_ind f_deref_func f_bounds
         f_arg_no initial_shape_ind];
    rewrite ?Hr, ?He; try eassumption; try reflexivity.
  erewrite turn_terminal;
    cbn [mk_frame mk_walk f_val f_old_type f_arr_type f_shape_ind
         f_deref_func f_bounds f_arg_no w_val w_shape_ind w_deref_func
         w_bounds w_arg_no];
    rewrite ?He; try eassumption;
    [ | unfold types_differ; cbn; rewrite Hq1; reflexivity ].
  reflexivity.
Qed.

(** C2.  For a variable whose type is a pointer [T *] to a whitelisted
    scalar and the shape hint [(k,)], [to_array] returns a buffer of shape
    [(k,)] whose cell [i] is the scalar at [var[i]], for all [0 <= i < k];
    and a pointer layer takes the hint entry under the cursor as its one
    bound, unchecked, and moves the cursor on by one. *)
Theorem C2_pointer_with_hint {G : Gdb}
    (fuel : nat) (var : string) (T : string) (t : np_dtype) (k : Z)
    (root : Value) (elem : Z -> Value) (x : Z -> Number) :
  (2 <= fuel)%nat ->
  In (T, t) _type_list ->
  (0 <= k)%Z ->
  parse_and_eval var = inr root ->
  type_su root = ptr_name T ->
  (forall i, probed k i ->
     subscript root i = inr (elem i) /\ type_su (elem i) = T) ->
  (forall i, (0 <= i < k)%Z -> np_scalar t (elem i) = inr (x i)) ->
  (exists log a,
     to_array fuel var (Some [k]) = (log, Ok a) /\
     nd_shape a = [k] /\ nd_dtype a = t /\
     (forall i, (0 <= i < k)%Z -> nd_data a [i] = x i)) /\
  (forall (v v' : Value) (c : nat) (sh : list Z) (b : Z),
     subscript v 0 = inr v' ->
     nth_error sh c = Some b ->
     DeRefPtr_init v (Some c) (Some sh) =
       ([EvSubscript 0%Z],
        Ok {| bounds := [b]; val := v'; shape_ind := Some (S c);
              _shape := Some sh |})).
Proof.
  intros Hfuel HT Hk Hp Hroot Helem Hx. split.
  2:{ intros. apply DeRefPtr_init_claims; assumption. }
  destruct fuel as [|[|f]]; try lia.
  assert (P0 : probed k 0) by (left; reflexivity).
  destruct (Helem 0%Z P0) as [Hs0 He0].
  pose proof (driver_ptr f T t k root (elem 0%Z) HT Hroot Hs0 He0) as Hdrv.
  destruct (to_array_spec (S (S f)) var (Some [k]) root _ _ _ _ _ t
              (fun index => match index with
                            | [i] => [EvParse var; EvSubscript i]
                            | _ => []
                            end)
              (fun index => match index with
                            | [i] => x i
                            | _ => np_zero t
                            end)
              Hp Hdrv HT)
    as (a & Ha & Hsh & Hdt & Hcells).
  { constructor; [assumption | constructor]. }
  { intros index Hi. apply in_bounds_1 in Hi. destruct Hi as (i & -> & Hi).
    assert (Pi : probed k i) by (right; assumption).
    destruct (Helem i Pi) as [Hsi _].
    eapply cell_ok; try eassumption; [ | apply Hx; assumption ].
    cbn. rewrite Hsi. reflexivity. }
  eexists. exists a. repeat split; try eassumption.
  intros i Hi. apply (Hcells [i]). constructor; [assumption | constructor].
Qed.

Lemma C2_pointer_with_hint_witness :
  (exists log (a : @ndarray Demo.gdb),
     to_array 2 "p" (Some [4]%Z) = (log, Ok a) /\
     nd_shape a = [4]%Z /\ nd_dtype a = np_int32 /\
     (forall i, (0 <= i < 4)%Z -> nd_data a [i] = Demo.stored [i])) /\
  (forall (v v' : @Value Demo.gdb) (c : nat) (sh : list Z) (b : Z),
     subscript v 0 = inr v' ->
     nth_error sh c = Some b ->
     DeRefPtr_init v (Some c) (Some sh) =
       ([EvSubscript 0%Z],
        Ok {| bounds := [b]; val := v'; shape_ind := Some (S c);
              _shape := Some sh |})).
Proof.
  apply (C2_pointer_with_hint (G := Demo.gdb) 2 "p" "int" np_int32 4
           (Demo.top (Demo.Ptr Demo.int_t))
           (fun i => Demo.at_path Demo.int_t [i])
           (fun i => Demo.stored [i])).
  - lia.
  - simpl. tauto.
  - lia.
  - reflexivity.
  - reflexivity.
  - intros i _. split; reflexivity.
  - intros i _. reflexivity.
Defined.

(** ** Fixed-size arrays of pointers *)

Lemma driver_arr_ptr {G : Gdb} f T t dm m k root ptr0 elem00 :
  In (T, t) _type_list ->
  Py.int dm = Some m ->
  has_type root (arr_ptr_name T dm) ->
  subscript root 0 = inr ptr0 ->
  type_su ptr0 = ptr_name T ->
  subscript ptr0 0 = inr elem00 ->
  type_su elem00 = T ->
  _get_deref_funcs (S (S (S f))) root (Some [k]) =
    ([EvSubscript 0; EvSubscript 0]%Z,
     Ok ([DeRefArr; DeRefPtr], [1; 1]%nat, [m; k], T)).
Proof.
  intros HT Hm [Hr1 Hr2] Hs0 Hw Hs1 He.
  destruct (int_inv _ _ Hm) as (Hdm & Hnm & _).
  destruct (arr_ptr_name_facts T t HT dm Hdm Hnm)
    as (Hp2 & Ha2 & He2 & Hv2 & Hq2).
  destruct (ptr_name_facts T t HT) as (Hp1 & Hq1).
  pose proof (ptr_name_not_vec T t HT) as Hv1.
  destruct (scalar_terminal T t HT) as (Hp0 & Ha0 & Hv0).
  destruct (group1_facts dm Hdm Hnm) as (_ & _ & Hf1 & _).
  unfold _get_deref_funcs, _get_type.
  erewrite turn_arr with (g := group1 dm) (b := m) (v' := ptr0);
    cbn [f_val f_old_type f_arr_type f_shape_ind f_deref_func f_bounds
         f_arg_no initial_shape_ind];
    rewrite ?Hr1, ?Hr2, ?Hw, ?Hf1; try eassumption; try reflexivity;
    [ | split; assumption ].
  erewrite turn_ptr with (c := 0%nat) (v' := elem00);
    cbn [mk_frame mk_walk f_val f_old_type f_arr_type f_shape_ind
         f_deref_func f_bounds f_arg_no w_val w_shape_ind w_deref_func
         w_bounds w_arg_no];
    rewrite ?Hw, ?He; try eassumption; try reflexivity;
    [ | unfold types_differ; cbn; rewrite Hq2; reflexivity ].
  erewrite turn_terminal;
    cbn [mk_frame mk_walk f_val f_old_type f_arr_type f_shape_ind
         f_deref_func f_bounds f_arg_no w_val w_shape_ind w_deref_func
         w_bounds w_arg_no];
    rewrite ?He; try eassumption;
    [ | unfold types_differ; cbn; rewrite Hq1; reflexivity ].
  reflexivity.
Qed.

(** C3.  For a variable whose type is a fixed-size array of [m] pointers
    [T *[m]] to a whitelisted scalar and the shape hint [(k,)], the driver
    finds the array layer first, with the bound [m] of the type name, and
    the pointer layer second, with the bound [k] of the hint, and
    [to_array] returns a buffer of shape [(m, k)] whose cell [(i, j)] is the
    scalar at [var[i][j]]. *)
Theorem C3_array_of_pointers {G : Gdb}
    (fuel : nat) (var : string) (T : string) (t : np_dtype) (dm : string)
    (m k : Z) (root : Value) (ptr : Z -> Value) (elem : Z -> Z -> Value)
    (x : Z -> Z -> Number) :
  (3 <= fuel)%nat ->
  In (T, t) _type_list ->
  Py.int dm = Some m ->
  (0 <= k)%Z ->
  parse_and_eval var = inr root ->
  has_type root (arr_ptr_name T dm) ->
  (forall i, probed m i ->
     subscript root i = inr (ptr i) /\ type_su (ptr i) = ptr_name T) ->
  (forall i j, probed m i -> probed k j ->
     subscript (ptr i) j = inr (elem i j) /\ type_su (elem i j) = T) ->
  (forall i j, (0 <= i < m)%Z -> (0 <= j < k)%Z ->
     np_scalar t (elem i j) = inr (x i j)) ->
  _get_deref_funcs fuel root (Some [k]) =
    ([EvSubscript 0; EvSubscript 0]%Z,
     Ok ([DeRefArr; DeRefPtr], [1; 1]%nat, [m; k], T)) /\
  exists log a,
    to_array fuel var (Some [k]) = (log, Ok a) /\
    nd_shape a = [m; k] /\ nd_dtype a = t /\
    (forall i j, (0 <= i < m)%Z -> (0 <= j < k)%Z ->
       nd_data a [i; j] = x i j).
Proof.
  intros Hfuel HT Hm Hk Hp Hroot Hptr Helem Hx.
  destruct fuel as [|[|[|f]]]; try lia.
  assert (P0m : probed m 0) by (left; reflexivity).
  assert (P0k : probed k 0) by (left; reflexivity).
  destruct (Hptr 0%Z P0m) as [Hs0 Hw0].
  destruct (Helem 0%Z 0%Z P0m P0k) as [Hs1 He0].
  pose proof (driver_arr_ptr f T t dm m k root _ _ HT Hm Hroot Hs0 Hw0 Hs1
                He0) as Hdrv.
  split; [exact Hdrv|].
  destruct (int_inv _ _ Hm) as (_ & _ & Hm0).
  destruct (to_array_spec (S (S (S f))) var (Some [k]) root _ _ _ _ _ t
              (fun index => match index with
                            | [i; j] => [EvParse var; EvSubscript i;
                                         EvSubscript j]
                            | _ => []
                            end)
              (fun index => match index with
                            | [i; j] => x i j
                            | _ => np_zero t
                            end)
              Hp Hdrv HT)
    as (a & Ha & Hsh & Hdt & Hcells).
  { constructor; [assumption|]. constructor; [assumption | constructor]. }
  { intros index Hi. apply in_bounds_2 in Hi.
    destruct Hi as (i & j & -> & Hi & Hj).
    assert (Pi : probed m i) by (right; assumption).
    assert (Pj : probed k j) by (right; assumption).
    destruct (Hptr i Pi) as [Hsi _]. destruct (Helem i j Pi Pj) as [Hsj _].
    eapply cell_ok; try eassumption; [ | apply Hx; assumption ].
    cbn. rewrite Hsi. cbn. rewrite Hsj. reflexivity. }
  eexists. exists a. repeat split; try eassumption.
  intros i j Hi Hj. apply (Hcells [i; j]).
  constructor; [assumption|]. constructor; [assumption|]. constructor.
Qed.

Lemma C3_array_of_pointers_witness :
  _get_deref_funcs (G := Demo.gdb) 3
    (Demo.top (Demo.Arr "2" (Demo.Ptr Demo.int_t))) (Some [5]%Z) =
    ([EvSubscript 0; EvSubscript 0]%Z,
     Ok ([DeRefArr; DeRefPtr], [1; 1]%nat, [2; 5]%Z, "int")) /\
  exists log (a : @ndarray Demo.gdb),
    to_array 3 "ap" (Some [5]%Z) = (log, Ok a) /\
    nd_shape a = [2; 5]%Z /\ nd_dtype a = np_int32 /\
    (forall i j, (0 <= i < 2)%Z -> (0 <= j < 5)%Z ->
       nd_data a [i; j] = Demo.stored [i; j]).
Proof.
  apply (C3_array_of_pointers (G := Demo.gdb) 3 "ap" "int" np_int32 "2" 2 5
           (Demo.top (Demo.Arr "2" (Demo.Ptr Demo.int_t)))
           (fun i => Demo.at_path (Demo.Ptr Demo.int_t) [i])
           (fun i j => Demo.at_path Demo.int_t [i; j])
           (fun i j => Demo.stored [i; j])).
  - lia.
  - simpl. tauto.
  - reflexivity.
  - lia.
  - reflexivity.
  - split; reflexivity.
  - intros i _. split; reflexivity.
  - intros i j _ _. split; reflexivity.
  - intros i j _ _. reflexivity.
Defined.

(** ** The invariant of a completed composition *)

Lemma bind_assoc {A B C} (m : M A) (f : A -> M B) (g : B -> M C) :
  bind (bind m f) g = bind m (fun a => bind (f a) g).
Proof.
  destruct m as [l [a|e|]]; cbn; try reflexivity.
  destruct (f a) as [l1 [b|e|]]; cbn; try reflexivity.
  destruct (g b) as [l2 r]. rewrite app_assoc. reflexivity.
Qed.

Lemma bind_ret_r {A} (m : M A) : bind m ret = m.
Proof.
  destruct m as [l [a|e|]]; cbn; try reflexivity.
  rewrite app_nil_r. reflexivity.
Qed.

Lemma combine_app {A B} (l1 l2 : list A) (r1 r2 : list B) :
  length l1 = length r1 ->
  combine (l1 ++ l2) (r1 ++ r2) = combine l1 r1 ++ combine l2 r2.
Proof.
  revert r1. induction l1 as [|a l1 IH]; intros [|b r1] H; cbn in *;
    try discriminate; [reflexivity|].
  f_equal. apply IH. lia.
Qed.

Lemma map_snd_combine {A B} (l : list A) (r : list B) :
  length l = length r -> map snd (combine l r) = r.
Proof.
  revert r. induction l as [|a l IH]; intros [|b r] H; cbn in *;
    try discriminate; [reflexivity|].
  f_equal. apply IH. lia.
Qed.

Lemma list_sum_ones ns :
  Forall (eq 1%nat) ns -> list_sum ns = length ns.
Proof.
  induction 1 as [|n ns <- _ IH]; [reflexivity|].
  change (list_sum (1%nat :: ns)) with (S (list_sum ns)). rewrite IH.
  reflexivity.
Qed.

Lemma bind_ext {A B} (m : M A) (f g : A -> M B) :
  (forall a, f a = g a) -> bind m f = bind m g.
Proof.
  intros H. destruct m as [l [a|e|]]; cbn; try reflexivity.
  rewrite H. reflexivity.
Qed.

Lemma slice_length_one {A} (sh : list A) c :
  (c + 1 <= length sh)%nat -> length (Py.slice sh c (c + 1)) = 1%nat.
Proof.
  intros H. unfold Py.slice. rewrite length_firstn, length_skipn. lia.
Qed.

Section Invariant.

Context {G : Gdb}.
Variable R : Value -> Value -> Prop.
Hypothesis typed : static_typing R.

Lemma replay_app steps1 steps2 v index s :
  replay (steps1 ++ steps2) v index s =
  bind (replay steps1 v index s) (fun v' =>
    replay steps2 v' index (s + list_sum (map snd steps1))).
Proof.
  revert v s. induction steps1 as [|[c n] steps1 IH]; intros v s.
  - cbn. rewrite Nat.add_0_r. destruct (replay steps2 v index s).
    reflexivity.
  - cbn [app replay map snd]. rewrite bind_assoc.
    apply bind_ext. intros v'. rewrite IH. apply bind_ext. intros v''.
    f_equal. change (list_sum (n :: map snd steps1))
      with (n + list_sum (map snd steps1))%nat. lia.
Qed.

Lemma getitem0_inv indices l i :
  getitem0 indices = (l, Ok i) -> exists r, indices = i :: r /\ l = [].
Proof.
  destruct indices as [|j r]; cbn; intros H; inversion H; subst.
  exists r. auto.
Qed.

(** A step that succeeds at index 0 on [v] succeeds at every index on every
    value related to [v], and the results are related. *)
Lemma deref_typed c v w l v' i :
  R v w ->
  deref c v [0%Z] = (l, Ok v') ->
  exists l' w', deref c w [i] = (l', Ok w') /\ R v' w'.
Proof.
  destruct typed as (_ & _ & Hsub & Hfld). intros HR H.
  destruct c; cbn [deref getitem0] in *.
  1,2: apply bind_inv_ok in H; destruct H as (l1 & i0 & l2 & H1 & H2 & _);
       inversion H1; subst i0;
       apply gdb_subscript_inv in H2; destruct H2 as [H2 _];
       destruct (Hsub v w 0%Z i v' HR H2) as (w' & Hw & HR');
       exists [EvSubscript i], w'; split; [|assumption];
       cbn; rewrite Hw; reflexivity.
  apply bind_inv_ok in H. destruct H as (l1 & impl & l2 & H1 & H & _).
  apply bind_inv_ok in H. destruct H as (l3 & start & l4 & H2 & H & _).
  apply bind_inv_ok in H. destruct H as (l5 & i0 & l6 & H3 & H4 & _).
  inversion H3; subst i0.
  apply gdb_field_inv in H1. destruct H1 as [H1 _].
  apply gdb_field_inv in H2. destruct H2 as [H2 _].
  apply gdb_subscript_inv in H4. destruct H4 as [H4 _].
  destruct (Hfld v w _ impl HR H1) as (impl' & Hi & HRi).
  destruct (Hfld impl impl' _ start HRi H2) as (start' & Hs & HRs).
  destruct (Hsub start start' 0%Z i v' HRs H4) as (w' & Hw & HR').
  exists [EvField "_M_impl"; EvField "_M_start"; EvSubscript i], w'.
  split; [|assumption]. apply (deref_vec_ok w i impl' start' w'); assumption.
Qed.

(** A constructor that returns has made its discovery access with the
    step method of its class, and owns one bound. *)
Lemma new_inv c v si shape l d :
  new c v si shape = (l, Ok d) ->
  length (bounds d) = 1%nat /\
  exists l0, deref c v [0%Z] = (l0, Ok (val d)).
Proof.
  destruct c; cbn [new].
  - unfold DeRefPtr_init. destruct shape as [sh|]; [|discriminate].
    intros H. apply bind_inv_ok in H.
    destruct H as (l1 & v' & l2 & H1 & H2 & _).
    cbn [val DeRefBase_init] in H1.
    unfold _get_range_from_shape in H2.
    cbn [shape_ind _shape set_val DeRefBase_init] in H2.
    destruct si as [c|]; [|discriminate].
    destruct (Nat.ltb_spec (length sh) (c + 1)); [discriminate|].
    inversion H2; subst. cbn. split; [|eauto].
    apply slice_length_one. assumption.
  - unfold DeRefArr_init. cbn [val DeRefBase_init].
    destruct (Re.empty_group_search _); [discriminate|].
    destruct (Re.arr_search _) as [g|]; [|discriminate].
    destruct (Py.int _) as [b|]; [|discriminate].
    intros H. apply bind_inv_ok in H.
    destruct H as (l1 & v' & l2 & H1 & H2 & _).
    inversion H2; subst. cbn in *. split; [reflexivity | eauto].
  - unfold DeRefVec_init. cbn [val DeRefBase_init].
    intros H. apply bind_inv_ok in H.
    destruct H as (l1 & v' & l2 & H1 & H & _).
    apply bind_inv_ok in H. destruct H as (? & ? & ? & _ & H & _).
    apply bind_inv_ok in H. destruct H as (? & ? & ? & _ & H & _).
    apply bind_inv_ok in H. destruct H as (? & ? & ? & _ & H & _).
    apply bind_inv_ok in H. destruct H as (? & ? & ? & _ & H & _).
    apply bind_inv_ok in H. destruct H as (? & ? & ? & _ & H & _).
    inversion H; subst. cbn. split; [reflexivity | eauto].
Qed.

Lemma walk_inv_step root w c l d shape :
  walk_inv R root w ->
  new c (w_val w) (w_shape_ind w) shape = (l, Ok d) ->
  walk_inv R root
    {| w_val := val d; w_shape_ind := shape_ind d;
       w_deref_func := w_deref_func w ++ [c];
       w_bounds := w_bounds w ++ bounds d;
       w_arg_no := w_arg_no w ++ [length (bounds d)] |}.
Proof.
  intros (Hl1 & Hl2 & Hones & Hrep) Hnew.
  destruct (new_inv _ _ _ _ _ _ Hnew) as (Hb & l0 & Hd).
  unfold walk_inv. cbn [w_val w_deref_func w_bounds w_arg_no]. rewrite Hb.
  repeat split.
  - rewrite !length_app. cbn. lia.
  - rewrite !length_app. cbn. lia.
  - apply Forall_app. split; [assumption | repeat constructor].
  - intros index Hlen. rewrite length_app in Hlen. cbn in Hlen.
    destruct (Hrep index) as (l1 & v1 & Hr1 & HR1); [lia|].
    rewrite combine_app by assumption. rewrite replay_app, Hr1.
    rewrite map_snd_combine by assumption.
    rewrite list_sum_ones by assumption.
    destruct (nth_error index (length (w_arg_no w))) as [i|] eqn:Hi.
    2:{ apply nth_error_None in Hi. lia. }
    destruct (slice_one index _ i Hi) as [Hsl _].
    destruct (deref_typed c (w_val w) v1 l0 (val d) i HR1 Hd)
      as (l' & w' & Hw & HR').
    exists (l1 ++ l'), w'. split; [|assumption].
    cbn [bind combine replay]. cbn [Nat.add]. rewrite Hsl, Hw. cbn.
    rewrite app_nil_r. reflexivity.
Qed.

Lemma deref_for_inv root type_list shape :
  forall arr_type w l w',
  walk_inv R root w ->
  _deref_for type_list arr_type w shape = (l, Ok w') ->
  walk_inv R root w'.
Proof.
  induction type_list as [|c rest IH]; intros arr_type w l w' Hw H.
  - inversion H; subst. assumption.
  - cbn [_deref_for] in H. destruct (pattern_search c arr_type).
    + apply bind_inv_ok in H. destruct H as (l1 & d & l2 & H1 & H2 & _).
      eapply IH; [|exact H2]. eapply walk_inv_step; eassumption.
    + eapply IH; eassumption.
Qed.

Lemma inner_body_inv root shape f l f' :
  walk_inv R root (walk_of f) ->
  inner_body shape f = (l, Ok f') ->
  walk_inv R root (walk_of f').
Proof.
  intros Hw H. unfold inner_body in H. apply bind_inv_ok in H.
  destruct H as (l1 & w & l2 & H1 & H2 & _). inversion H2; subst.
  unfold _deref in H1. eapply deref_for_inv in H1; [|exact Hw].
  destruct w. exact H1.
Qed.

Lemma inner_while_inv root shape k :
  forall f l f',
  walk_inv R root (walk_of f) ->
  inner_while k shape f = (l, Ok f') ->
  walk_inv R root (walk_of f').
Proof.
  induction k as [|k IH]; intros f l f' Hw H; cbn [inner_while] in H;
    destruct (types_differ f).
  - discriminate.
  - inversion H; subst. assumption.
  - apply bind_inv_ok in H. destruct H as (l1 & f1 & l2 & H1 & H2 & _).
    eapply IH; [|exact H2]. eapply inner_body_inv; eassumption.
  - inversion H; subst. assumption.
Qed.

Lemma outer_body_inv root shape i f l f' :
  walk_inv R root (walk_of f) ->
  outer_body i shape f = (l, Ok f') ->
  walk_inv R root (walk_of f') /\ f_arr_type f' = type_su (f_val f').
Proof.
  intros Hw H. unfold outer_body in H. apply bind_inv_ok in H.
  destruct H as (l1 & f1 & l2 & H1 & H & _).
  apply bind_inv_ok in H. destruct H as (l3 & w & l4 & H2 & H3 & _).
  inversion H3; subst. cbn [f_arr_type f_val]. split; [|reflexivity].
  eapply inner_while_inv in H1; [|exact Hw].
  unfold _deref in H2. eapply deref_for_inv in H2; [|exact H1].
  destruct w. exact H2.
Qed.

Lemma outer_while_inv root shape i k :
  forall f l f',
  walk_inv R root (walk_of f) ->
  f_arr_type f = type_su (f_val f) ->
  outer_while i k shape f = (l, Ok f') ->
  walk_inv R root (walk_of f') /\ f_arr_type f' = type_su (f_val f').
Proof.
  induction k as [|k IH]; intros f l f' Hw Ht H; cbn [outer_while] in H;
    destruct (types_differ f).
  - discriminate.
  - inversion H; subst. auto.
  - apply bind_inv_ok in H. destruct H as (l1 & f1 & l2 & H1 & H2 & _).
    destruct (outer_body_inv _ _ _ _ _ _ Hw H1) as [Hw1 Ht1].
    eapply IH; eassumption.
  - inversion H; subst. auto.
Qed.

Lemma walk_inv_initial root si :
  walk_inv R root (mk_walk root si [] [] []).
Proof.
  destruct typed as (Hrefl & _). unfold walk_inv. cbn.
  split; [reflexivity|]. split; [reflexivity|]. split; [constructor|].
  intros index _. exists [], root. split; [reflexivity | apply Hrefl].
Qed.

Lemma driver_inv root fuel shape l fs ns bnds dtype :
  _get_deref_funcs fuel root shape = (l, Ok (fs, ns, bnds, dtype)) ->
  exists w, walk_inv R root w /\ w_deref_func w = fs /\ w_arg_no w = ns /\
            w_bounds w = bnds /\ type_su (w_val w) = dtype.
Proof.
  intros H. unfold _get_deref_funcs in H. apply bind_inv_ok in H.
  destruct H as (l1 & f & l2 & H1 & H & _).
  apply bind_inv_ok in H. destruct H as (l3 & u & l4 & _ & H2 & _).
  inversion H2; subst.
  eapply outer_while_inv in H1;
    [ | apply walk_inv_initial | reflexivity ].
  destruct H1 as [Hw Ht]. exists (walk_of f). cbn. auto.
Qed.

End Invariant.


Lemma demo_static_typing : static_typing (G := Demo.gdb) Demo.same_ty.
Proof.
  unfold static_typing, Demo.same_ty. cbn. repeat split.
  - intros v w H. rewrite H. reflexivity.
  - intros v w i j v' H Hs. unfold Demo.demo_subscript in *. rewrite <- H.
    destruct (Demo.ty v); inversion Hs; subst; eexists; split;
      reflexivity.
  - intros v w name v' H Hf. unfold Demo.demo_field in *. rewrite <- H.
    destruct (Demo.ty v); try discriminate.
    + destruct (String.eqb name "_M_impl"); inversion Hf; subst.
      eexists; split; reflexivity.
    + destruct (String.eqb name "_M_start");
        [inversion Hf; subst; eexists; split; reflexivity|].
      destruct (String.eqb name "_M_finish"); inversion Hf; subst.
      eexists; split; reflexivity.
Qed.


(** ** Unsized arrays *)

Lemma classify_array name :
  classify name = FixedArray ->
  Re.ptr_search name = false /\ exists g, Re.arr_search name = Some g.
Proof.
  unfold classify. destruct (Re.ptr_search name); [discriminate|].
  destruct (Re.arr_search name) as [g|]; [eauto|].
  destruct (Re.vec_search name); discriminate.
Qed.

Lemma classify_pointer name :
  classify name = Pointer -> Re.ptr_search name = true.
Proof.
  unfold classify. destruct (Re.ptr_search name); [reflexivity|].
  destruct (Re.arr_search name); [discriminate|].
  destruct (Re.vec_search name); discriminate.
Qed.

Lemma outer_while_unbound {G : Gdb} i k shape f :
  types_differ f = true ->
  classify (type_su (f_val f)) = FixedArray ->
  Re.empty_group_search (type_us (f_val f)) = true ->
  outer_while (S i) (S k) shape f =
    ([], Raise (GdbError msg_missing_dimensions)).
Proof.
  intros Hd Hc He. apply classify_array in Hc. destruct Hc as (Hp & g & Ha).
  apply outer_while_raise; [assumption|].
  unfold outer_body. apply bind_raise.
  cbn [inner_while]. rewrite Hd. apply bind_raise.
  unfold inner_body. apply bind_raise.
  unfold _deref, _ptr_list, _get_type.
  cbn [_deref_for pattern_search]. rewrite Hp, Ha. apply bind_raise.
  cbn [new w_val]. apply DeRefArr_init_unbound. assumption.
Qed.

(** C6.  A fixed-size array layer whose type name holds an empty pair of
    brackets makes the constructor of the array layer, the driver when it
    comes to that layer and [to_array] on a variable of that type fail with
    the
    debugger's error for missing dimensions, whatever the shape hint and
    the cursor are: the dimension is neither taken as 0 nor read from the
    hint. *)
Theorem C6_unsized_array_fails {G : Gdb} (v : Value)
    (shape : option (list Z)) :
  classify (type_su v) = FixedArray ->
  Re.empty_group_search (type_us v) = true ->
  (forall si,
     DeRefArr_init v si shape =
       ([], Raise (GdbError msg_missing_dimensions))) /\
  (forall rest w,
     w_val w = v ->
     _deref_for (DeRefArr :: rest) (_get_type v) w shape =
       ([], Raise (GdbError msg_missing_dimensions))) /\
  (forall i k f,
     types_differ f = true -> f_val f = v ->
     outer_while (S i) (S k) shape f =
       ([], Raise (GdbError msg_missing_dimensions))) /\
  (forall fuel var,
     (1 <= fuel)%nat -> parse_and_eval var = inr v ->
     to_array fuel var shape =
       ([EvParse var], Raise (GdbError msg_missing_dimensions))).
Proof.
  intros Hc He. repeat split.
  - intros si. apply DeRefArr_init_unbound. assumption.
  - intros rest w <-. destruct (classify_array _ Hc) as (_ & g & Ha).
    unfold _get_type. cbn [_deref_for pattern_search]. rewrite Ha.
    apply bind_raise. apply DeRefArr_init_unbound. assumption.
  - intros i k f Hd <-. apply outer_while_unbound; assumption.
  - intros [|fuel] var Hf Hp; [lia|].
    apply to_array_raise with (root := v); [assumption|].
    unfold _get_deref_funcs. apply bind_raise.
    apply outer_while_unbound; [reflexivity | assumption | assumption].
Qed.

Lemma C6_unsized_array_fails_witness :
  (forall si,
     DeRefArr_init (G := Demo.gdb) (Demo.top (Demo.Arr "" Demo.int_t)) si
       (Some [3]%Z) =
       ([], Raise (GdbError msg_missing_dimensions))) /\
  (forall rest (w : @walk Demo.gdb),
     w_val w = Demo.top (Demo.Arr "" Demo.int_t) ->
     _deref_for (DeRefArr :: rest)
       (@_get_type Demo.gdb (Demo.top (Demo.Arr "" Demo.int_t))) w
       (Some [3]%Z) =
       ([], Raise (GdbError msg_missing_dimensions))) /\
  (forall i k (f : @frame Demo.gdb),
     types_differ f = true ->
     f_val f = Demo.top (Demo.Arr "" Demo.int_t) ->
     outer_while (G := Demo.gdb) (S i) (S k) (Some [3]%Z) f =
       ([], Raise (GdbError msg_missing_dimensions))) /\
  (forall fuel var,
     (1 <= fuel)%nat ->
     @parse_and_eval Demo.gdb var
       = inr (Demo.top (Demo.Arr "" Demo.int_t)) ->
     to_array (G := Demo.gdb) fuel var (Some [3]%Z) =
       ([EvParse var], Raise (GdbError msg_missing_dimensions))).
Proof.
  apply (C6_unsized_array_fails (G := Demo.gdb)
           (Demo.top (Demo.Arr "" Demo.int_t)) (Some [3]%Z));
    reflexivity.
Defined.

Example demo_rows :
  Demo.run 2 "rows" (Some [3]%Z) [] =
  ([EvParse "rows"], Raise (GdbError msg_missing_dimensions)).
Proof. reflexivity. Qed.

(** ** Sequence containers *)

Lemma driver_vec {G : Gdb} k shape T t len root impl start finish elem0 :
  In (T, t) _type_list ->
  type_su root = vec_name T ->
  field root "_M_impl" = inr impl ->
  field impl "_M_start" = inr start ->
  field impl "_M_finish" = inr finish ->
  ptr_sub finish start = inr len ->
  subscript start 0 = inr elem0 ->
  type_su elem0 = T ->
  _get_deref_funcs (S (S k)) root shape =
    (vec_discovery, Ok ([DeRefVec], [1%nat], [len], T)).
Proof.
  intros HT Hr H1 H2 H3 H4 H5 He.
  destruct (vec_name_facts T t HT) as (Hp1 & Ha1 & Hv1 & Hq1).
  destruct (scalar_terminal T t HT) as (Hp0 & Ha0 & Hv0).
  unfold _get_deref_funcs, _get_type.
  erewrite turn_vec with (v' := elem0) (len := len);
    cbn [f_val f_old_type f_arr_type f_shape_ind f_deref_func f_bounds
         f_arg_no];
    rewrite ?Hr, ?He; try eassumption; try reflexivity.
  erewrite turn_terminal;
    cbn [mk_frame mk_walk f_val f_old_type f_arr_type f_shape_ind
         f_deref_func f_bounds f_arg_no w_val w_shape_ind w_deref_func
         w_bounds w_arg_no];
    rewrite ?He; try eassumption;
    [ | unfold types_differ; cbn [mk_frame f_old_type f_arr_type];
        rewrite Hq1; reflexivity ].
  cbn. rewrite report_unused_initial. reflexivity.
Qed.

(** What the code does for a sequence container of a whitelisted scalar
    with run-time length [len] (the end marker minus the begin marker):
    [to_array] returns a buffer of shape [(len,)] whose cell [i] is the
    scalar at offset [i] from the begin marker, whatever shape hint is
    supplied; the run is the run without a hint, so it prints nothing even
    when a hint was supplied and none of it was used. *)
Theorem sequence_container_any_hint {G : Gdb}
    (fuel : nat) (var : string) (shape : option (list Z))
    (T : string) (t : np_dtype) (len : Z)
    (root impl start finish : Value) (elem : Z -> Value)
    (x : Z -> Number) :
  (2 <= fuel)%nat ->
  In (T, t) _type_list ->
  (0 <= len)%Z ->
  parse_and_eval var = inr root ->
  type_su root = vec_name T ->
  field root "_M_impl" = inr impl ->
  field impl "_M_start" = inr start ->
  field impl "_M_finish" = inr finish ->
  ptr_sub finish start = inr len ->
  (forall i, probed len i ->
     subscript start i = inr (elem i) /\ type_su (elem i) = T) ->
  (forall i, (0 <= i < len)%Z -> np_scalar t (elem i) = inr (x i)) ->
  exists log a,
    to_array fuel var shape = (log, Ok a) /\
    nd_shape a = [len] /\ nd_dtype a = t /\
    (forall i, (0 <= i < len)%Z -> nd_data a [i] = x i) /\
    (forall msg, ~ In (EvPrint msg) log) /\
    to_array fuel var None = to_array fuel var shape.
Proof.
  intros Hfuel HT Hlen Hp Hroot H1 H2 H3 H4 Helem Hx.
  destruct fuel as [|[|f]]; try lia.
  assert (P0 : probed len 0) by (left; reflexivity).
  destruct (Helem 0%Z P0) as [Hs0 He0].
  assert (Hdrv : forall s, _get_deref_funcs (S (S f)) root s =
            (vec_discovery, Ok ([DeRefVec], [1%nat], [len], T))).
  { intros s. eapply driver_vec; eassumption. }
  destruct (to_array_spec (S (S f)) var shape root _ _ _ _ _ t
              (fun index => match index with
                            | [i] => [EvParse var; EvField "_M_impl";
                                      EvField "_M_start"; EvSubscript i]
                            | _ => []
                            end)
              (fun index => match index with
                            | [i] => x i
                            | _ => np_zero t
                            end)
              Hp (Hdrv shape) HT)
    as (a & Ha & Hsh & Hdt & Hcells).
  { constructor; [assumption | constructor]. }
  { intros index Hi. apply in_bounds_1 in Hi. destruct Hi as (i & -> & Hi).
    assert (Pi : probed len i) by (right; assumption).
    destruct (Helem i Pi) as [Hsi _].
    eapply cell_ok; try eassumption; [ | apply Hx; assumption ].
    cbn [combine replay]. rewrite bind_ret_r.
    apply (deref_vec_ok root i impl start (elem i)); assumption. }
  eexists. exists a. repeat split; try eassumption.
  - intros i Hi. apply (Hcells [i]). constructor; [assumption | constructor].
  - intros msg [Hin | Hin]; [discriminate|].
    apply in_app_or in Hin. destruct Hin as [Hin | [Hin | Hin]].
    + unfold vec_discovery in Hin. cbn in Hin.
      repeat (destruct Hin as [Hin | Hin]; [discriminate|]). contradiction.
    + discriminate.
    + apply in_flat_map in Hin. destruct Hin as (index & _ & Hin).
      apply in_app_or in Hin. destruct Hin as [Hin | [Hin | []]];
        [|discriminate].
      destruct index as [|i [|j r]]; cbn in Hin; try contradiction.
      repeat (destruct Hin as [Hin | Hin]; [discriminate|]). contradiction.
  - eapply to_array_cong; [eassumption|]. rewrite !Hdrv. reflexivity.
Qed.

Lemma no_print_in log :
  filter is_print log = [] -> forall msg, ~ In (EvPrint msg) log.
Proof.
  intros H msg Hin.
  assert (Hf : In (EvPrint msg) (filter is_print log)).
  { apply filter_In. split; [assumption | reflexivity]. }
  rewrite H in Hf. exact Hf.
Qed.

Lemma sequence_container_any_hint_witness :
  exists log (a : @ndarray Demo.gdb),
    to_array 2 "v" (Some [7]%Z) = (log, Ok a) /\
    nd_shape a = [4]%Z /\ nd_dtype a = np_int32 /\
    (forall i, (0 <= i < 4)%Z -> nd_data a [i] = Demo.stored [i]) /\
    (forall msg, ~ In (EvPrint msg) log) /\
    to_array (G := Demo.gdb) 2 "v" None = to_array 2 "v" (Some [7]%Z).
Proof.
  apply (sequence_container_any_hint (G := Demo.gdb) 2 "v" (Some [7]%Z)
           "int" np_int32 4
           (Demo.top (Demo.Vec 4 Demo.int_t))
           (Demo.at_path (Demo.VecImpl 4 Demo.int_t) [])
           (Demo.at_path (Demo.Ptr Demo.int_t) [])
           {| Demo.ty := Demo.Ptr Demo.int_t; Demo.path := [];
              Demo.at_elem := 4 |}
           (fun i => Demo.at_path Demo.int_t [i])
           (fun i => Demo.stored [i])).
  - lia.
  - simpl. tauto.
  - lia.
  - reflexivity.
  - reflexivity.
  - reflexivity.
  - reflexivity.
  - reflexivity.
  - reflexivity.
  - intros i _. split; reflexivity.
  - intros i _. reflexivity.
Defined.

(** C7.  For a sequence container the surplus notice is to be produced
    whenever the shape hint is non-empty, and the conversion still
    succeeds.  The code does not produce it: the vector [v] of four [int]
    converted with the hint [(7,)] gives its buffer of shape [(4,)] and
    nothing is printed.  The cursor is unset for an absent hint and 0 for a
    hint nothing has been claimed from, so that the two can be told apart,
    but the closing test [if shape_ind:] takes 0 for unset and skips the
    comparison with the length of the hint, which would have printed the
    notice.  The neighbouring run does report the surplus: the pointer [p]
    converted with the hint [(3, 7)] claims one entry, and the same closing
    statement prints that not all of the bounds are used. *)
Theorem C7_surplus_notice_failing_input :
  @type_su Demo.gdb (Demo.top (Demo.Vec 4 Demo.int_t)) = vec_name "int" /\
  Demo.run 2 "v" (Some [7]%Z) [[0]; [1]; [2]; [3]]%Z =
    ([EvParse "v";
      EvField "_M_impl"; EvField "_M_start"; EvSubscript 0;
      EvField "_M_impl"; EvField "_M_start";
      EvField "_M_impl"; EvField "_M_finish";
      EvZeros [4] np_int32;
      EvParse "v"; EvField "_M_impl"; EvField "_M_start"; EvSubscript 0;
      EvStore [0];
      EvParse "v"; EvField "_M_impl"; EvField "_M_start"; EvSubscript 1;
      EvStore [1];
      EvParse "v"; EvField "_M_impl"; EvField "_M_start"; EvSubscript 2;
      EvStore [2];
      EvParse "v"; EvField "_M_impl"; EvField "_M_start"; EvSubscript 3;
      EvStore [3]]%Z,
     Ok ([4]%Z, np_int32, [0; 1; 2; 3]%Z)) /\
  (~ exists msg,
      In (EvPrint msg) (fst (to_array (G := Demo.gdb) 2 "v" (Some [7]%Z)))) /\
  initial_shape_ind (Some [7]%Z) = Some 0%nat /\
  initial_shape_ind None = None /\
  report_unused (Some 0%nat) (Some [7]%Z) = ret tt /\
  report_unused (Some 1%nat) (Some [3; 7]%Z) =
    ([EvPrint msg_not_all_used], Ok tt) /\
  Demo.run 2 "p" (Some [3; 7]%Z) [[0]; [1]; [2]]%Z =
    ([EvParse "p"; EvSubscript 0; EvPrint msg_not_all_used;
      EvZeros [3] np_int32;
      EvParse "p"; EvSubscript 0; EvStore [0];
      EvParse "p"; EvSubscript 1; EvStore [1];
      EvParse "p"; EvSubscript 2; EvStore [2]]%Z,
     Ok ([3]%Z, np_int32, [0; 1; 2]%Z)).
Proof.
  split; [reflexivity|]. split; [vm_compute; reflexivity|].
  split.
  { intros [msg H]. revert H. apply no_print_in. vm_compute. reflexivity. }
  repeat split; vm_compute; reflexivity.
Qed.

(** ** Discovery accesses *)

Lemma subscripts_app l1 l2 :
  subscripts (l1 ++ l2) = subscripts l1 ++ subscripts l2.
Proof. unfold subscripts. apply flat_map_app. Qed.

Lemma deref_log {G : Gdb} c v i l v' :
  deref c v [i] = (l, Ok v') -> subscripts l = [i].
Proof.
  intros H. destruct c; cbn [deref getitem0] in H.
  1,2: apply bind_inv_ok in H; destruct H as (l1 & i0 & l2 & H1 & H2 & ->);
       inversion H1; subst;
       apply gdb_subscript_inv in H2; destruct H2 as [_ ->]; reflexivity.
  apply bind_inv_ok in H. destruct H as (l1 & impl & l2 & H1 & H & ->).
  apply bind_inv_ok in H. destruct H as (l3 & start & l4 & H2 & H & ->).
  apply bind_inv_ok in H. destruct H as (l5 & i0 & l6 & H3 & H4 & ->).
  inversion H3; subst.
  apply gdb_field_inv in H1. destruct H1 as [_ ->].
  apply gdb_field_inv in H2. destruct H2 as [_ ->].
  apply gdb_subscript_inv in H4. destruct H4 as [_ ->]. reflexivity.
Qed.

Lemma new_log {G : Gdb} c v si shape l d :
  new c v si shape = (l, Ok d) -> subscripts l = [0%Z].
Proof.
  destruct c; cbn [new].
  - unfold DeRefPtr_init. destruct shape as [sh|]; [|discriminate].
    intros H. apply bind_inv_ok in H.
    destruct H as (l1 & v' & l2 & H1 & H2 & ->).
    apply deref_log in H1. rewrite subscripts_app, H1.
    unfold _get_range_from_shape in H2.
    cbn [shape_ind _shape set_val DeRefBase_init] in H2.
    destruct si as [c|]; [|discriminate].
    destruct (Nat.ltb (length sh) (c + 1)); [discriminate|].
    inversion H2; subst. reflexivity.
  - unfold DeRefArr_init. cbn [val DeRefBase_init].
    destruct (Re.empty_group_search _); [discriminate|].
    destruct (Re.arr_search _) as [g|]; [|discriminate].
    destruct (Py.int _) as [b|]; [|discriminate].
    intros H. apply bind_inv_ok in H.
    destruct H as (l1 & v' & l2 & H1 & H2 & ->).
    apply deref_log in H1. rewrite subscripts_app, H1.
    inversion H2; subst. reflexivity.
  - unfold DeRefVec_init. cbn [val DeRefBase_init].
    intros H. apply bind_inv_ok in H.
    destruct H as (l1 & v' & l2 & H1 & H & ->).
    apply deref_log in H1. rewrite subscripts_app, H1.
    apply bind_inv_ok in H. destruct H as (? & ? & ? & Ha & H & ->).
    apply bind_inv_ok in H. destruct H as (? & ? & ? & Hb & H & ->).
    apply bind_inv_ok in H. destruct H as (? & ? & ? & Hc & H & ->).
    apply bind_inv_ok in H. destruct H as (? & ? & ? & Hd & H & ->).
    apply bind_inv_ok in H. destruct H as (? & ? & ? & He & H & ->).
    apply gdb_field_inv in Ha, Hb, Hc, Hd.
    destruct Ha as [_ ->], Hb as [_ ->], Hc as [_ ->], Hd as [_ ->].
    apply lift_inv_ok in He. destruct He as [_ ->].
    inversion H; subst. reflexivity.
Qed.

(** C10.  A layer constructor that returns has made exactly one subscript
    access, at index 0, whatever bound it found; and for a sequence
    container of run-time length 0 the driver still subscripts the begin
    marker at 0, and [to_array] returns a buffer of shape [(0,)] without
    storing into any cell. *)
Theorem C10_discovery_access {G : Gdb}
    (fuel : nat) (var : string) (shape : option (list Z))
    (T : string) (t : np_dtype)
    (root impl start finish elem0 : Value) :
  (2 <= fuel)%nat ->
  In (T, t) _type_list ->
  parse_and_eval var = inr root ->
  type_su root = vec_name T ->
  field root "_M_impl" = inr impl ->
  field impl "_M_start" = inr start ->
  field impl "_M_finish" = inr finish ->
  ptr_sub finish start = inr 0%Z ->
  subscript start 0 = inr elem0 ->
  type_su elem0 = T ->
  (forall c v si sh l d,
     new c v si sh = (l, Ok d) -> subscripts l = [0%Z]) /\
  exists log a,
    to_array fuel var shape = (log, Ok a) /\
    nd_shape a = [0%Z] /\
    log = EvParse var :: vec_discovery ++ [EvZeros [0%Z] t] /\
    In (EvSubscript 0%Z) log /\
    filter is_store log = [].
Proof.
  intros Hfuel HT Hp Hroot H1 H2 H3 H4 H5 He. split.
  { intros c v si sh l d. apply new_log. }
  destruct fuel as [|[|f]]; try lia.
  pose proof (driver_vec f shape T t 0%Z root impl start finish elem0
                HT Hroot H1 H2 H3 H4 H5 He) as Hdrv.
  destruct (to_array_spec (S (S f)) var shape root _ _ _ _ _ t
              (fun _ => []) (fun _ => np_zero t) Hp Hdrv HT)
    as (a & Ha & Hsh & _).
  { constructor; [lia | constructor]. }
  { intros index Hi. apply in_bounds_1 in Hi. destruct Hi as (i & _ & Hi).
    lia. }
  eexists. exists a. split; [exact Ha|]. split; [exact Hsh|].
  split; [reflexivity|]. split; [|reflexivity].
  right. unfold vec_discovery. cbn. tauto.
Qed.

Lemma C10_discovery_access_witness :
  (forall c (v : @Value Demo.gdb) si sh l d,
     new c v si sh = (l, Ok d) -> subscripts l = [0%Z]) /\
  exists log (a : @ndarray Demo.gdb),
    to_array 2 "empty" None = (log, Ok a) /\
    nd_shape a = [0%Z] /\
    log = EvParse "empty" :: vec_discovery ++ [EvZeros [0%Z] np_int32] /\
    In (EvSubscript 0%Z) log /\
    filter is_store log = [].
Proof.
  apply (C10_discovery_access (G := Demo.gdb) 2 "empty" None "int" np_int32
           (Demo.top (Demo.Vec 0 Demo.int_t))
           (Demo.at_path (Demo.VecImpl 0 Demo.int_t) [])
           (Demo.at_path (Demo.Ptr Demo.int_t) [])
           (Demo.at_path (Demo.Ptr Demo.int_t) [])
           (Demo.at_path Demo.int_t [0%Z])).
  - lia.
  - simpl. tauto.
  - reflexivity.
  - reflexivity.
  - reflexivity.
  - reflexivity.
  - reflexivity.
  - reflexivity.
  - reflexivity.
  - reflexivity.
Defined.

(** ** The scalar whitelist *)

Lemma quiet_bind {A B} (m : M A) (f : A -> M B) :
  quiet m -> (forall a, quiet (f a)) -> quiet (bind m f).
Proof.
  unfold quiet. intros Hm Hf. destruct m as [l [a|e|]]; cbn in *;
    try assumption.
  specialize (Hf a). destruct (f a) as [l' r]. cbn in *.
  rewrite filter_app, Hm, Hf. reflexivity.
Qed.

Lemma quiet_lift {A} (r : exn + A) : quiet (lift r).
Proof. destruct r; reflexivity. Qed.

Section Quiet.

Context {G : Gdb}.

Lemma quiet_subscript v i : quiet (gdb_subscript v i).
Proof. unfold gdb_subscript. apply quiet_bind; [reflexivity|]. intros _. apply quiet_lift. Qed.

Lemma quiet_field v name : quiet (gdb_field v name).
Proof. unfold gdb_field. apply quiet_bind; [reflexivity|]. intros _. apply quiet_lift. Qed.

Lemma quiet_getitem0 indices : quiet (getitem0 indices).
Proof. destruct indices; reflexivity. Qed.

Lemma quiet_deref c v indices : quiet (deref c v indices).
Proof.
  destruct c; cbn [deref];
    repeat first [ apply quiet_getitem0 | apply quiet_subscript
                 | apply quiet_field | apply quiet_bind; [|intros ?] ].
Qed.

Lemma quiet_get_range self n : quiet (_get_range_from_shape self n).
Proof.
  unfold _get_range_from_shape. destruct (shape_ind self); [|reflexivity].
  destruct (_shape self); [|reflexivity].
  destruct (Nat.ltb _ _); reflexivity.
Qed.

Lemma quiet_new c v si shape : quiet (new c v si shape).
Proof.
  destruct c; cbn [new].
  - unfold DeRefPtr_init. destruct shape; [|reflexivity].
    apply quiet_bind; [apply quiet_deref|]. intros ?. apply quiet_get_range.
  - unfold DeRefArr_init. destruct (Re.empty_group_search _); [reflexivity|].
    destruct (Re.arr_search _); [|reflexivity].
    destruct (Py.int _); [|reflexivity].
    apply quiet_bind; [apply quiet_deref|]. intros ?. reflexivity.
  - unfold DeRefVec_init.
    repeat first [ apply quiet_deref | apply quiet_field | apply quiet_lift
                 | apply quiet_bind; [|intros ?] ].
    reflexivity.
Qed.

Lemma quiet_deref_for type_list shape :
  forall arr_type w, quiet (_deref_for type_list arr_type w shape).
Proof.
  induction type_list as [|c rest IH]; intros arr_type w; cbn [_deref_for].
  - reflexivity.
  - destruct (pattern_search c arr_type); [|apply IH].
    apply quiet_bind; [apply quiet_new|]. intros d. apply IH.
Qed.

Lemma quiet_inner_while k shape : forall f, quiet (inner_while k shape f).
Proof.
  induction k as [|k IH]; intros f; cbn [inner_while];
    destruct (types_differ f); try reflexivity.
  apply quiet_bind; [|apply IH].
  unfold inner_body. apply quiet_bind; [apply quiet_deref_for|].
  intros w. reflexivity.
Qed.

Lemma quiet_outer_while i k shape : forall f, quiet (outer_while i k shape f).
Proof.
  induction k as [|k IH]; intros f; cbn [outer_while];
    destruct (types_differ f); try reflexivity.
  apply quiet_bind; [|apply IH].
  unfold outer_body. apply quiet_bind; [apply quiet_inner_while|].
  intros f1. apply quiet_bind; [apply quiet_deref_for|].
  intros w. reflexivity.
Qed.

Lemma quiet_report_unused si shape : quiet (report_unused si shape).
Proof.
  destruct si as [[|n]|]; try reflexivity. cbn [report_unused].
  destruct shape; [|reflexivity]. destruct (negb _); reflexivity.
Qed.

Lemma quiet_driver fuel root shape : quiet (_get_deref_funcs fuel root shape).
Proof.
  unfold _get_deref_funcs. apply quiet_bind; [apply quiet_outer_while|].
  intros f. apply quiet_bind; [apply quiet_report_unused|].
  intros _. reflexivity.
Qed.

Lemma type_list_get_missing dtype :
  (forall t, ~ In (dtype, t) _type_list) ->
  type_list_get dtype = raise (KeyError dtype).
Proof.
  intros H. unfold type_list_get.
  destruct (find _ _type_list) as [[T t]|] eqn:E; [|reflexivity].
  apply find_some in E. destruct E as [Hin Heq].
  apply String.eqb_eq in Heq. cbn in Heq. subst.
  exfalso. eapply H. eassumption.
Qed.

End Quiet.

(** C8.  The whitelist holds the seven scalar type names; when the driver
    ends on a type name outside it, [to_array] fails with the [KeyError] of
    that name, and by then the run has neither allocated the buffer nor
    stored into it. *)
Theorem C8_unlisted_scalar {G : Gdb}
    (fuel : nat) (var : string) (shape : option (list Z)) (root : Value)
    (log : list event) (fs : list deref_class) (ns : list nat)
    (bnds : list Z) (dtype : string) :
  parse_and_eval var = inr root ->
  _get_deref_funcs fuel root shape = (log, Ok (fs, ns, bnds, dtype)) ->
  ~ In dtype ["unsigned char"; "unsigned int"; "char"; "short"; "int";
              "float"; "double"]%string ->
  map fst _type_list =
    ["unsigned char"; "unsigned int"; "char"; "short"; "int"; "float";
     "double"]%string /\
  to_array fuel var shape = (EvParse var :: log, Raise (KeyError dtype)) /\
  filter is_alloc_or_store (EvParse var :: log) = [].
Proof.
  intros Hp Hd Hnot. split; [reflexivity|]. split.
  - unfold to_array, bind. rewrite (gdb_parse_ok var root Hp), Hd.
    rewrite type_list_get_missing.
    + cbn. rewrite app_nil_r. reflexivity.
    + intros t Hin. apply Hnot.
      change (In (fst (dtype, t)) (map fst _type_list)).
      apply in_map. assumption.
  - pose proof (quiet_driver fuel root shape) as Hq. unfold quiet in Hq.
    rewrite Hd in Hq. cbn [fst] in Hq. cbn [filter is_alloc_or_store].
    exact Hq.
Qed.

Lemma C8_unlisted_scalar_witness :
  map fst _type_list =
    ["unsigned char"; "unsigned int"; "char"; "short"; "int"; "float";
     "double"]%string /\
  to_array (G := Demo.gdb) 1 "big" None =
    ([EvParse "big"], Raise (KeyError "long")) /\
  filter is_alloc_or_store [EvParse "big"] = [].
Proof.
  apply (C8_unlisted_scalar (G := Demo.gdb) 1 "big" None
           (Demo.top (Demo.Scalar "long")) [] [] [] [] "long").
  - reflexivity.
  - reflexivity.
  - simpl. intros H. repeat (destruct H as [H|H]; [discriminate|]).
    exact H.
Defined.

(** ** Pointer layers without a bound to claim *)

Section PointerTurn.

Context {G : Gdb}.
Variables (i k : nat) (f : frame).
Hypothesis differ : types_differ f = true.
Hypothesis pointer : classify (type_su (f_val f)) = Pointer.

Lemma outer_while_ptr_raise shape l e :
  DeRefPtr_init (f_val f) (f_shape_ind f) shape = (l, Raise e) ->
  outer_while (S i) (S k) shape f = (l, Raise e).
Proof.
  intros H. apply classify_pointer in pointer.
  apply outer_while_raise; [assumption|].
  unfold outer_body. apply bind_raise.
  cbn [inner_while]. rewrite differ. apply bind_raise.
  unfold inner_body. apply bind_raise.
  unfold _deref, _ptr_list, _get_type.
  cbn [_deref_for pattern_search]. rewrite pointer. apply bind_raise.
  exact H.
Qed.

(** The hint is absent. *)
Lemma pointer_hint_absent :
  outer_while (S i) (S k) None f =
    ([], Raise (ValueError msg_shape_required)).
Proof. apply outer_while_ptr_raise. apply DeRefPtr_init_absent. Qed.

(** The hint is there and every entry of it is claimed. *)
Lemma pointer_hint_exhausted sh c v' :
  f_shape_ind f = Some c ->
  (length sh <= c)%nat ->
  subscript (f_val f) 0 = inr v' ->
  outer_while (S i) (S k) (Some sh) f =
    ([EvSubscript 0%Z], Raise (IndexError msg_insufficient_bounds)).
Proof.
  intros Hc Hl Hs. apply outer_while_ptr_raise. rewrite Hc.
  apply (DeRefPtr_init_exhausted _ c sh v'); [assumption | lia].
Qed.

(** The cursor was never set. *)
Lemma pointer_no_cursor sh v' :
  f_shape_ind f = None ->
  subscript (f_val f) 0 = inr v' ->
  outer_while (S i) (S k) (Some sh) f =
    ([EvSubscript 0%Z], Raise (TypeError msg_none_plus_int)).
Proof.
  intros Hc Hs. apply outer_while_ptr_raise. rewrite Hc.
  apply (DeRefPtr_init_no_cursor _ sh v'). assumption.
Qed.

End PointerTurn.

Lemma new_keeps_cursor {G : Gdb} c v si shape l d :
  c <> DeRefPtr -> new c v si shape = (l, Ok d) -> shape_ind d = si.
Proof.
  destruct c; [congruence| |]; intros _; cbn [new].
  - unfold DeRefArr_init. cbn [val DeRefBase_init].
    destruct (Re.empty_group_search _); [discriminate|].
    destruct (Re.arr_search _) as [g|]; [|discriminate].
    destruct (Py.int _) as [b|]; [|discriminate].
    intros H. apply bind_inv_ok in H.
    destruct H as (l1 & v' & l2 & H1 & H2 & _).
    inversion H2; subst. reflexivity.
  - unfold DeRefVec_init. cbn [val DeRefBase_init].
    intros H. apply bind_inv_ok in H.
    destruct H as (l1 & v' & l2 & H1 & H & _).
    apply bind_inv_ok in H. destruct H as (? & ? & ? & _ & H & _).
    apply bind_inv_ok in H. destruct H as (? & ? & ? & _ & H & _).
    apply bind_inv_ok in H. destruct H as (? & ? & ? & _ & H & _).
    apply bind_inv_ok in H. destruct H as (? & ? & ? & _ & H & _).
    apply bind_inv_ok in H. destruct H as (? & ? & ? & _ & H & _).
    inversion H; subst. reflexivity.
Qed.



(** C5.  A pointer layer that finds no bound left for it is to abort
    [to_array] with an error whose message names the missing bound.  At the
    empty shape hint the code does not: for the pointer [p] converted with
    the hint [()] no entry is left, yet [to_array] fails with the
    [TypeError] of adding a number to the unset cursor.  The two
    neighbouring runs do report the missing bound: without a hint [p] gives
    the [ValueError] that asks for a shape, and the pointer to pointer [pp]
    with the hint [(4,)] gives the [IndexError] of insufficient bounds at
    its second layer. *)
Theorem C5_empty_hint_failing_input :
  to_array (G := Demo.gdb) 2 "p" (Some []) =
    ([EvParse "p"; EvSubscript 0%Z], Raise (TypeError msg_none_plus_int)) /\
  to_array (G := Demo.gdb) 2 "p" None =
    ([EvParse "p"], Raise (ValueError msg_shape_required)) /\
  to_array (G := Demo.gdb) 3 "pp" (Some [4%Z]) =
    ([EvParse "pp"; EvSubscript 0%Z; EvSubscript 0%Z],
     Raise (IndexError msg_insufficient_bounds)).
Proof. repeat split; vm_compute; reflexivity. Qed.

(** * Further properties of the engine *)

Example lab_names :
  map (fun p => Demo.type_name (snd p)) Lab.variables =
  [ "double"; "int *"; "int **"; "int (*)[3]"; "int [2][3][4]";
    "std::vector<int, std::allocator<int> > [2]" ]%string.
Proof. reflexivity. Qed.

(** ** Scalars *)

Lemma driver_scalar {G : Gdb} k shape T t root :
  In (T, t) _type_list ->
  type_su root = T ->
  _get_deref_funcs (S k) root shape = ([], Ok ([], [], [], T)).
Proof.
  intros HT Hr. destruct (scalar_terminal T t HT) as (Hp0 & Ha0 & Hv0).
  unfold _get_deref_funcs, _get_type.
  erewrite turn_terminal;
    cbn [f_val f_old_type f_arr_type f_shape_ind f_deref_func f_bounds
         f_arg_no];
    rewrite ?Hr; try eassumption; try reflexivity.
  cbn. rewrite report_unused_initial. reflexivity.
Qed.

(** X1.  For a variable of a whitelisted scalar type, with any hint,
    [to_array] returns a buffer without dimensions whose one cell is the
    cast of the variable: the driver finds no layer, the product of no
    ranges is the one empty index tuple, and the variable is resolved a
    second time for that one cell. *)
Theorem X1_scalar_variable {G : Gdb}
    (fuel : nat) (var : string) (shape : option (list Z))
    (T : string) (t : np_dtype) (root : Value) (x : Number) :
  (1 <= fuel)%nat ->
  In (T, t) _type_list ->
  parse_and_eval var = inr root ->
  type_su root = T ->
  np_scalar t root = inr x ->
  exists a,
    to_array fuel var shape =
      ([EvParse var; EvZeros [] t; EvParse var; EvStore []], Ok a) /\
    nd_shape a = [] /\ nd_dtype a = t /\ nd_data a [] = x.
Proof.
  intros Hfuel HT Hp Hr Hx. destruct fuel as [|k]; [lia|].
  pose proof (driver_scalar k shape T t root HT Hr) as Hdrv.
  destruct (to_array_spec (S k) var shape root _ _ _ _ _ t
              (fun _ => [EvParse var]) (fun _ => x) Hp Hdrv HT)
    as (a & Ha & Hsh & Hdt & Hcells).
  { constructor. }
  { intros index Hi. inversion Hi; subst.
    eapply cell_ok; try eassumption. reflexivity. }
  exists a. repeat split; try assumption.
  apply Hcells. constructor.
Qed.

Lemma X1_scalar_variable_witness :
  exists a : @ndarray Lab.gdb,
    to_array 1 "x" (Some [3]%Z) =
      ([EvParse "x"; EvZeros [] np_float64; EvParse "x"; EvStore []], Ok a) /\
    nd_shape a = [] /\ nd_dtype a = np_float64 /\ nd_data a [] = 0%Z.
Proof.
  apply (X1_scalar_variable (G := Lab.gdb) 1 "x" (Some [3]%Z) "double"
           np_float64 (Demo.top (Demo.Scalar "double")) 0%Z).
  - lia.
  - simpl. tauto.
  - reflexivity.
  - reflexivity.
  - reflexivity.
Defined.

(** ** The inner loop *)

Lemma inner_body_settles {G : Gdb} shape f l f' :
  inner_body shape f = (l, Ok f') -> types_differ f' = false.
Proof.
  intros H. unfold inner_body in H. apply bind_inv_ok in H.
  destruct H as (l1 & w & l2 & _ & H2 & _). inversion H2; subst.
  unfold types_differ. cbn. rewrite String.eqb_refl. reflexivity.
Qed.

(** X2.  The inner [while] loop of [_get_deref_funcs] never takes a second
    turn: its body sets [old_type] to the type name it has just read into
    [arr_type], so, entered with the two different, the loop is one run of
    its body, whatever that run does. *)
Theorem X2_inner_loop_single_turn {G : Gdb}
    (k : nat) (shape : option (list Z)) (f : frame) :
  types_differ f = true ->
  inner_while (S k) shape f = inner_body shape f.
Proof.
  intros Hd. cbn [inner_while]. rewrite Hd.
  destruct (inner_body shape f) as [l [f'|e|]] eqn:E; cbn; try reflexivity.
  rewrite (inner_while_done k shape f' (inner_body_settles _ _ _ _ E)).
  cbn. rewrite app_nil_r. reflexivity.
Qed.

Lemma X2_inner_loop_single_turn_witness :
  inner_while (G := Lab.gdb) 1 (Some [4; 5]%Z)
    (mk_frame (G := Lab.gdb) "int **" None
       (mk_walk (G := Lab.gdb) (Demo.top (Demo.Ptr (Demo.Ptr Demo.int_t))) (Some 0%nat)
          [] [] [])) =
  inner_body (Some [4; 5]%Z)
    (mk_frame (G := Lab.gdb) "int **" None
       (mk_walk (G := Lab.gdb) (Demo.top (Demo.Ptr (Demo.Ptr Demo.int_t))) (Some 0%nat)
          [] [] [])).
Proof.
  apply (X2_inner_loop_single_turn (G := Lab.gdb)). reflexivity.
Defined.

(** ** Pointers and the shape hint *)

Lemma prints_app l1 l2 : prints (l1 ++ l2) = prints l1 ++ prints l2.
Proof. unfold prints. apply flat_map_app. Qed.

Lemma prints_cells {A} (lc : A -> list event) (indices : list A) :
  (forall i, prints (lc i) = []) ->
  prints (flat_map lc indices) = [].
Proof.
  intros H. induction indices as [|i r IH]; [reflexivity|].
  cbn [flat_map]. rewrite prints_app, H, IH. reflexivity.
Qed.

Section PointerNames.

Variables (T : string) (t : np_dtype).
Hypothesis T_listed : In (T, t) _type_list.

Lemma ptr_name_not_arr : Re.arr_search (ptr_name T) = None.
Proof. pose proof T_listed as H. whitelisted H; reflexivity. Qed.

Lemma ptr2_name_facts :
  Re.ptr_search (ptr2_name T) = true /\
  String.eqb (ptr_name T) (ptr2_name T) = false.
Proof. pose proof T_listed as H. whitelisted H; split; reflexivity. Qed.

End PointerNames.

(** X3.  For a variable the driver takes for a pointer, [to_array] without
    a shape hint fails with the [ValueError] that asks for a shape, and the
    pointer has not been dereferenced by then. *)
Theorem X3_pointer_without_hint {G : Gdb}
    (fuel : nat) (var : string) (root : Value) :
  (1 <= fuel)%nat ->
  parse_and_eval var = inr root ->
  classify (type_su root) = Pointer ->
  to_array fuel var None =
    ([EvParse var], Raise (ValueError msg_shape_required)).
Proof.
  intros Hfuel Hp Hc. destruct fuel as [|k]; [lia|].
  apply to_array_raise with (root := root); [assumption|].
  unfold _get_deref_funcs. apply bind_raise.
  apply pointer_hint_absent; [reflexivity | assumption].
Qed.

Lemma X3_pointer_without_hint_witness :
  to_array (G := Lab.gdb) 1 "rows" None =
    ([EvParse "rows"], Raise (ValueError msg_shape_required)).
Proof.
  apply (X3_pointer_without_hint (G := Lab.gdb) 1 "rows"
           (Demo.top (Demo.Ptr (Demo.Arr "3" Demo.int_t)))).
  - lia.
  - reflexivity.
  - reflexivity.
Defined.

Lemma first_turn_ptr2 {G : Gdb} i k T t sh b root p0 :
  In (T, t) _type_list ->
  type_su root = ptr2_name T ->
  subscript root 0 = inr p0 ->
  type_su p0 = ptr_name T ->
  outer_while (S i) (S k) (Some (b :: sh))
    (mk_frame (ptr2_name T) None
       (mk_walk root (Some 0%nat) [] [] [])) =
  bind ([EvSubscript 0%Z], Ok tt) (fun _ =>
    outer_while (S i) k (Some (b :: sh))
      (mk_frame (ptr_name T) (Some (ptr2_name T))
         (mk_walk p0 (Some 1%nat) [DeRefPtr] [b] [1%nat]))).
Proof.
  intros HT Hr Hs Hw.
  destruct (ptr2_name_facts T t HT) as (Hp2 & Hq2).
  erewrite turn_ptr with (c := 0%nat) (v' := p0);
    cbn [mk_frame mk_walk f_val f_old_type f_arr_type f_shape_ind
         f_deref_func f_bounds f_arg_no w_val w_shape_ind w_deref_func
         w_bounds w_arg_no];
    rewrite ?Hr, ?Hw; try eassumption; try reflexivity.
  - cbn; lia.
  - apply (ptr_name_not_arr T t HT).
  - apply (ptr_name_not_vec T t HT).
Qed.

(** X4.  For a pointer to pointer [T **] and a hint of one entry, the
    first layer claims the entry and the second, after its discovery
    access, finds none left: [to_array] fails with the [IndexError] of
    insufficient bounds. *)
Theorem X4_hint_one_entry_short {G : Gdb}
    (fuel : nat) (var : string) (T : string) (t : np_dtype) (b : Z)
    (root p0 e0 : Value) :
  (2 <= fuel)%nat ->
  In (T, t) _type_list ->
  parse_and_eval var = inr root ->
  type_su root = ptr2_name T ->
  subscript root 0 = inr p0 ->
  type_su p0 = ptr_name T ->
  subscript p0 0 = inr e0 ->
  to_array fuel var (Some [b]) =
    ([EvParse var; EvSubscript 0%Z; EvSubscript 0%Z],
     Raise (IndexError msg_insufficient_bounds)).
Proof.
  intros Hfuel HT Hp Hr Hs Hw Hs1. destruct fuel as [|[|k]]; try lia.
  destruct (ptr_name_facts T t HT) as (Hp1 & _).
  destruct (ptr2_name_facts T t HT) as (_ & Hq2).
  apply to_array_raise with (root := root); [assumption|].
  unfold _get_deref_funcs, _get_type. apply bind_raise. rewrite Hr.
  match goal with
  | |- outer_while _ _ _ ?f0 = _ =>
      change f0 with (mk_frame (ptr2_name T) None
                        (mk_walk root (Some 0%nat) [] [] []))
  end.
  rewrite (first_turn_ptr2 (S k) (S k) T t [] b root p0 HT Hr Hs Hw).
  assert (H2 : outer_while (S (S k)) (S k) (Some [b])
                 (mk_frame (ptr_name T) (Some (ptr2_name T))
                    (mk_walk p0 (Some 1%nat) [DeRefPtr] [b] [1%nat])) =
               ([EvSubscript 0%Z],
                Raise (IndexError msg_insufficient_bounds))).
  { apply pointer_hint_exhausted with (c := 1%nat) (v' := e0).
    - unfold types_differ. cbn [mk_frame f_old_type f_arr_type].
      rewrite Hq2. reflexivity.
    - cbn [mk_frame mk_walk f_val w_val]. rewrite Hw. unfold classify.
      rewrite Hp1. reflexivity.
    - reflexivity.
    - cbn. lia.
    - exact Hs1. }
  unfold bind. rewrite H2. reflexivity.
Qed.

Lemma X4_hint_one_entry_short_witness :
  to_array (G := Lab.gdb) 2 "pp" (Some [4]%Z) =
    ([EvParse "pp"; EvSubscript 0%Z; EvSubscript 0%Z],
     Raise (IndexError msg_insufficient_bounds)).
Proof.
  apply (X4_hint_one_entry_short (G := Lab.gdb) 2 "pp" "int" np_int32 4
           (Demo.top (Demo.Ptr (Demo.Ptr Demo.int_t)))
           (Demo.at_path (Demo.Ptr Demo.int_t) [0%Z])
           (Demo.at_path Demo.int_t [0; 0]%Z)).
  - lia.
  - simpl. tauto.
  - reflexivity.
  - reflexivity.
  - reflexivity.
  - reflexivity.
  - reflexivity.
Defined.

Lemma driver_ptr2 {G : Gdb} f T t k1 k2 rest root p0 e00 :
  In (T, t) _type_list ->
  type_su root = ptr2_name T ->
  subscript root 0 = inr p0 ->
  type_su p0 = ptr_name T ->
  subscript p0 0 = inr e00 ->
  type_su e00 = T ->
  _get_deref_funcs (S (S (S f))) root (Some (k1 :: k2 :: rest)) =
    ([EvSubscript 0; EvSubscript 0]%Z
       ++ match rest with [] => [] | _ => [EvPrint msg_not_all_used] end,
     Ok ([DeRefPtr; DeRefPtr], [1; 1]%nat, [k1; k2], T)).
Proof.
  intros HT Hr Hs Hw Hs1 He.
  destruct (ptr_name_facts T t HT) as (Hp1 & Hq1).
  destruct (ptr2_name_facts T t HT) as (_ & Hq2).
  destruct (scalar_terminal T t HT) as (Hp0 & Ha0 & Hv0).
  unfold _get_deref_funcs, _get_type. rewrite Hr.
  match goal with
  | |- bind (outer_while _ _ _ ?f0) _ = _ =>
      change f0 with (mk_frame (ptr2_name T) None
                        (mk_walk root (Some 0%nat) [] [] []))
  end.
  rewrite (first_turn_ptr2 _ _ T t (k2 :: rest) k1 root p0 HT Hr Hs Hw).
  erewrite turn_ptr with (c := 1%nat) (v' := e00);
    cbn [mk_frame mk_walk f_val f_old_type f_arr_type f_shape_ind
         f_deref_func f_bounds f_arg_no w_val w_shape_ind w_deref_func
         w_bounds w_arg_no];
    rewrite ?Hw, ?He; try eassumption; try reflexivity;
    [ | unfold types_differ; cbn [mk_frame f_old_type f_arr_type];
        rewrite Hq2;
        reflexivity
      | cbn; lia ].
  erewrite turn_terminal;
    cbn [mk_frame mk_walk f_val f_old_type f_arr_type f_shape_ind
         f_deref_func f_bounds f_arg_no w_val w_shape_ind w_deref_func
         w_bounds w_arg_no];
    rewrite ?He; try eassumption;
    [ | unfold types_differ; cbn [mk_frame f_old_type f_arr_type];
        rewrite Hq1;
        reflexivity ].
  destruct rest; reflexivity.
Qed.

(** X5.  For a pointer to pointer [T **] and a hint that starts with
    [(k1, k2)], the first layer claims [k1], the second [k2], and
    [to_array] returns a buffer of shape [(k1, k2)] whose cell [(i, j)] is
    the scalar at [var[i][j]]; the text that not all bounds are used is
    printed, once, exactly when the hint has further entries. *)
Theorem X5_pointer_to_pointer {G : Gdb}
    (fuel : nat) (var : string) (T : string) (t : np_dtype)
    (k1 k2 : Z) (rest : list Z)
    (root : Value) (ptr : Z -> Value) (elem : Z -> Z -> Value)
    (x : Z -> Z -> Number) :
  (3 <= fuel)%nat ->
  In (T, t) _type_list ->
  (0 <= k1)%Z -> (0 <= k2)%Z ->
  parse_and_eval var = inr root ->
  type_su root = ptr2_name T ->
  (forall i, probed k1 i ->
     subscript root i = inr (ptr i) /\ type_su (ptr i) = ptr_name T) ->
  (forall i j, probed k1 i -> probed k2 j ->
     subscript (ptr i) j = inr (elem i j) /\ type_su (elem i j) = T) ->
  (forall i j, (0 <= i < k1)%Z -> (0 <= j < k2)%Z ->
     np_scalar t (elem i j) = inr (x i j)) ->
  exists log a,
    to_array fuel var (Some (k1 :: k2 :: rest)) = (log, Ok a) /\
    nd_shape a = [k1; k2] /\ nd_dtype a = t /\
    (forall i j, (0 <= i < k1)%Z -> (0 <= j < k2)%Z ->
       nd_data a [i; j] = x i j) /\
    prints log = match rest with [] => [] | _ => [msg_not_all_used] end.
Proof.
  intros Hfuel HT Hk1 Hk2 Hp Hroot Hptr Helem Hx.
  destruct fuel as [|[|[|f]]]; try lia.
  assert (P01 : probed k1 0) by (left; reflexivity).
  assert (P02 : probed k2 0) by (left; reflexivity).
  destruct (Hptr 0%Z P01) as [Hs0 Hw0].
  destruct (Helem 0%Z 0%Z P01 P02) as [Hs1 He0].
  pose proof (driver_ptr2 f T t k1 k2 rest root _ _ HT Hroot Hs0 Hw0 Hs1
                He0) as Hdrv.
  destruct (to_array_spec (S (S (S f))) var _ root _ _ _ _ _ t
              (fun index => match index with
                            | [i; j] => [EvParse var; EvSubscript i;
                                         EvSubscript j]
                            | _ => []
                            end)
              (fun index => match index with
                            | [i; j] => x i j
                            | _ => np_zero t
                            end)
              Hp Hdrv HT)
    as (a & Ha & Hsh & Hdt & Hcells).
  { constructor; [assumption|]. constructor; [assumption | constructor]. }
  { intros index Hi. apply in_bounds_2 in Hi.
    destruct Hi as (i & j & -> & Hi & Hj).
    assert (Pi : probed k1 i) by (right; assumption).
    assert (Pj : probed k2 j) by (right; assumption).
    destruct (Hptr i Pi) as [Hsi _]. destruct (Helem i j Pi Pj) as [Hsj _].
    eapply cell_ok; try eassumption; [ | apply Hx; assumption ].
    cbn. rewrite Hsi. cbn. rewrite Hsj. reflexivity. }
  eexists. exists a. repeat split; try eassumption.
  - intros i j Hi Hj. apply (Hcells [i; j]).
    constructor; [assumption|]. constructor; [assumption|]. constructor.
  - change (EvParse var :: ?l) with ([EvParse var] ++ l).
    rewrite !prints_app.
    change (EvZeros [k1; k2] t :: ?l) with ([EvZeros [k1; k2] t] ++ l).
    rewrite prints_app, prints_cells.
    + destruct rest; reflexivity.
    + intros [|i [|j [|? ?]]]; reflexivity.
Qed.

Lemma X5_pointer_to_pointer_witness :
  exists log (a : @ndarray Lab.gdb),
    to_array 3 "pp" (Some [2; 3; 9]%Z) = (log, Ok a) /\
    nd_shape a = [2; 3]%Z /\ nd_dtype a = np_int32 /\
    (forall i j, (0 <= i < 2)%Z -> (0 <= j < 3)%Z ->
       nd_data a [i; j] = Demo.stored [i; j]) /\
    prints log = [msg_not_all_used].
Proof.
  apply (X5_pointer_to_pointer (G := Lab.gdb) 3 "pp" "int" np_int32 2 3
           [9%Z]
           (Demo.top (Demo.Ptr (Demo.Ptr Demo.int_t)))
           (fun i => Demo.at_path (Demo.Ptr Demo.int_t) [i])
           (fun i j => Demo.at_path Demo.int_t [i; j])
           (fun i j => Demo.stored [i; j])).
  - lia.
  - simpl. tauto.
  - lia.
  - lia.
  - reflexivity.
  - reflexivity.
  - intros i _. split; reflexivity.
  - intros i j _ _. split; reflexivity.
  - intros i j _ _. reflexivity.
Defined.

(** ** Pointers to fixed-size arrays *)

Lemma ptr_arr_name_facts T t d :
  In (T, t) _type_list ->
  all_digits d = true -> d <> EmptyString ->
  Re.ptr_search (ptr_arr_name T d) = true /\
  String.eqb (arr1_name T d) (ptr_arr_name T d) = false.
Proof.
  intros HT Hd Hne.
  destruct (group1_facts d Hd Hne) as (Hg & _).
  assert (Hx : Re.ptr_here (String "*" (String ")" (group1 d))) = true).
  { unfold Re.ptr_here. rewrite Hg. reflexivity. }
  assert (Hy : Re.ptr_search (String "*" (String ")" (group1 d))) = true).
  { cbn [Re.ptr_search]. rewrite Hx. reflexivity. }
  whitelisted HT; unfold ptr_arr_name, arr1_name; split;
    try (cbn -[group1 Re.ptr_here]; rewrite ?Hx, ?orb_true_r; reflexivity);
    apply eqb_length_neq; rewrite ?length_append; cbn; lia.
Qed.

Lemma deref_ptr_list_ptr_arr {G : Gdb} v fs bs ns c sh v1 g b v2 :
  Re.ptr_search (type_su v) = true ->
  subscript v 0 = inr v1 ->
  (c + 1 <= length sh)%nat ->
  Re.arr_search (type_su v1) = Some g ->
  has_type v1 (type_su v1) ->
  Re.empty_group_search (type_su v1) = false ->
  Py.int (first_dim g) = Some b ->
  subscript v1 0 = inr v2 ->
  _deref _ptr_list v fs bs ns (Some c) (Some sh) =
    ([EvSubscript 0; EvSubscript 0]%Z,
     Ok (mk_walk v2 (Some (c + 1)%nat) ((fs ++ [DeRefPtr]) ++ [DeRefArr])
           ((bs ++ Py.slice sh c (c + 1)) ++ [b])
           ((ns ++ [length (Py.slice sh c (c + 1))]) ++ [1%nat]))).
Proof.
  intros H1 H2 H3 H4 [_ Hus] H5 H6 H7. unfold _deref, _ptr_list, _get_type.
  cbn [_deref_for pattern_search w_val w_shape_ind]. rewrite H1.
  cbn [new].
  erewrite bind_ok;
    [ | apply (DeRefPtr_init_ok v c sh v1); assumption | ].
  - reflexivity.
  - cbn beta. unfold _get_type.
    cbn [val bounds shape_ind _deref_for pattern_search w_val w_shape_ind
         w_deref_func w_bounds w_arg_no new].
    rewrite H4.
    erewrite bind_ok;
      [ | apply (DeRefArr_init_ok v1 _ (Some sh) g b v2);
          rewrite ?Hus; assumption
        | reflexivity ].
    reflexivity.
Qed.

Lemma driver_ptr_arr {G : Gdb} f T t d n k root row0 elem00 :
  In (T, t) _type_list ->
  Py.int d = Some n ->
  type_su root = ptr_arr_name T d ->
  subscript root 0 = inr row0 ->
  has_type row0 (arr1_name T d) ->
  subscript row0 0 = inr elem00 ->
  type_su elem00 = T ->
  _get_deref_funcs (S (S f)) root (Some [k]) =
    ([EvSubscript 0; EvSubscript 0]%Z,
     Ok ([DeRefPtr; DeRefArr], [1; 1]%nat, [k; n], T)).
Proof.
  intros HT Hn Hr Hs0 [Hw1 Hw2] Hs1 He.
  destruct (int_inv _ _ Hn) as (Hd & Hne & _).
  destruct (ptr_arr_name_facts T t d HT Hd Hne) as (Hp2 & Hq2).
  destruct (arr1_name_facts T t HT d Hd Hne) as (Hp1 & Ha1 & He1 & Hv1 & Hq1).
  destruct (scalar_terminal T t HT) as (Hp0 & Ha0 & Hv0).
  destruct (group1_facts d Hd Hne) as (_ & _ & Hf1 & _).
  unfold _get_deref_funcs, _get_type.
  erewrite outer_while_step; [ | reflexivity | ].
  2:{ eapply outer_body_ok; [reflexivity | | ].
      - cbn [f_val f_deref_func f_bounds f_arg_no f_shape_ind
             initial_shape_ind].
        eapply (deref_ptr_list_ptr_arr root [] [] [] 0%nat [k] row0
                  (group1 d) n elem00);
          rewrite ?Hr, ?Hw1, ?Hf1; try eassumption; try reflexivity.
        split; assumption.
      - apply deref_container_list_none.
        cbn [mk_walk w_val]. rewrite He. exact Hv0. }
  cbn [mk_walk w_val w_shape_ind w_deref_func w_bounds w_arg_no f_val].
  rewrite He, Hr.
  change (outer_while (S (S f)) (S f) (Some [k]) ?fr)
    with (outer_while (S (S f)) (S f) (Some [k]) fr).
  match goal with
  | |- context [outer_while ?i (S ?j) ?s ?fr] =>
      rewrite (turn_terminal (S f) j s fr)
  end;
    cbn [mk_frame mk_walk f_val f_old_type f_arr_type f_shape_ind
         f_deref_func f_bounds f_arg_no w_val w_shape_ind w_deref_func
         w_bounds w_arg_no];
    rewrite ?He; try assumption.
  - reflexivity.
  - unfold types_differ. cbn [mk_frame f_old_type f_arr_type].
    apply negb_true_iff. apply String.eqb_neq. intros E.
    assert (Hlen : String.length T = String.length (ptr_arr_name T d))
      by (rewrite <- E; reflexivity).
    unfold ptr_arr_name in Hlen. rewrite length_append in Hlen.
    cbn in Hlen. lia.
Qed.

(** X6.  For a pointer to a fixed-size array of [n] scalars (the type
    name [ptr_arr_name T d], a parenthesised star before [[n]]) and the hint
    [(k,)], one call of [_deref] constructs the pointer layer and, on the
    type it uncovers, the array layer: the driver returns the steps
    pointer, array with the bounds [k] of the hint and [n] of the type
    name, two turns of the outer loop are enough, and [to_array] returns a
    buffer of shape [(k, n)] whose cell [(i, j)] is the scalar at
    [var[i][j]]. *)
Theorem X6_pointer_to_array {G : Gdb}
    (fuel : nat) (var : string) (T : string) (t : np_dtype) (d : string)
    (n k : Z) (root : Value) (row : Z -> Value) (elem : Z -> Z -> Value)
    (x : Z -> Z -> Number) :
  (2 <= fuel)%nat ->
  In (T, t) _type_list ->
  Py.int d = Some n ->
  (0 <= k)%Z ->
  parse_and_eval var = inr root ->
  type_su root = ptr_arr_name T d ->
  (forall i, probed k i ->
     subscript root i = inr (row i) /\ has_type (row i) (arr1_name T d)) ->
  (forall i j, probed k i -> probed n j ->
     subscript (row i) j = inr (elem i j) /\ type_su (elem i j) = T) ->
  (forall i j, (0 <= i < k)%Z -> (0 <= j < n)%Z ->
     np_scalar t (elem i j) = inr (x i j)) ->
  _get_deref_funcs fuel root (Some [k]) =
    ([EvSubscript 0; EvSubscript 0]%Z,
     Ok ([DeRefPtr; DeRefArr], [1; 1]%nat, [k; n], T)) /\
  exists log a,
    to_array fuel var (Some [k]) = (log, Ok a) /\
    nd_shape a = [k; n] /\ nd_dtype a = t /\
    (forall i j, (0 <= i < k)%Z -> (0 <= j < n)%Z ->
       nd_data a [i; j] = x i j).
Proof.
  intros Hfuel HT Hn Hk Hp Hroot Hrow Helem Hx.
  destruct fuel as [|[|f]]; try lia.
  assert (P0k : probed k 0) by (left; reflexivity).
  assert (P0n : probed n 0) by (left; reflexivity).
  destruct (Hrow 0%Z P0k) as [Hs0 Hw0].
  destruct (Helem 0%Z 0%Z P0k P0n) as [Hs1 He0].
  pose proof (driver_ptr_arr f T t d n k root _ _ HT Hn Hroot Hs0 Hw0 Hs1
                He0) as Hdrv.
  split; [exact Hdrv|].
  destruct (int_inv _ _ Hn) as (_ & _ & Hn0).
  destruct (to_array_spec (S (S f)) var (Some [k]) root _ _ _ _ _ t
              (fun index => match index with
                            | [i; j] => [EvParse var; EvSubscript i;
                                         EvSubscript j]
                            | _ => []
                            end)
              (fun index => match index with
                            | [i; j] => x i j
                            | _ => np_zero t
                            end)
              Hp Hdrv HT)
    as (a & Ha & Hsh & Hdt & Hcells).
  { constructor; [assumption|]. constructor; [assumption | constructor]. }
  { intros index Hi. apply in_bounds_2 in Hi.
    destruct Hi as (i & j & -> & Hi & Hj).
    assert (Pi : probed k i) by (right; assumption).
    assert (Pj : probed n j) by (right; assumption).
    destruct (Hrow i Pi) as [Hsi _]. destruct (Helem i j Pi Pj) as [Hsj _].
    eapply cell_ok; try eassumption; [ | apply Hx; assumption ].
    cbn. rewrite Hsi. cbn. rewrite Hsj. reflexivity. }
  eexists. exists a. repeat split; try eassumption.
  intros i j Hi Hj. apply (Hcells [i; j]).
  constructor; [assumption|]. constructor; [assumption|]. constructor.
Qed.

Lemma X6_pointer_to_array_witness :
  _get_deref_funcs (G := Lab.gdb) 2
    (Demo.top (Demo.Ptr (Demo.Arr "3" Demo.int_t))) (Some [5]%Z) =
    ([EvSubscript 0; EvSubscript 0]%Z,
     Ok ([DeRefPtr; DeRefArr], [1; 1]%nat, [5; 3]%Z, "int")) /\
  exists log (a : @ndarray Lab.gdb),
    to_array 2 "rows" (Some [5]%Z) = (log, Ok a) /\
    nd_shape a = [5; 3]%Z /\ nd_dtype a = np_int32 /\
    (forall i j, (0 <= i < 5)%Z -> (0 <= j < 3)%Z ->
       nd_data a [i; j] = Demo.stored [i; j]).
Proof.
  apply (X6_pointer_to_array (G := Lab.gdb) 2 "rows" "int" np_int32 "3" 3 5
           (Demo.top (Demo.Ptr (Demo.Arr "3" Demo.int_t)))
           (fun i => Demo.at_path (Demo.Arr "3" Demo.int_t) [i])
           (fun i j => Demo.at_path Demo.int_t [i; j])
           (fun i j => Demo.stored [i; j])).
  - lia.
  - simpl. tauto.
  - reflexivity.
  - lia.
  - reflexivity.
  - reflexivity.
  - intros i _. split; [reflexivity | split; reflexivity].
  - intros i j _ _. split; reflexivity.
  - intros i j _ _. reflexivity.
Defined.

(** ** What a run writes, allocates and resolves *)

Lemma walk_only_bind {A B} (m : M A) (f : A -> M B) :
  walk_only m -> (forall a, walk_only (f a)) -> walk_only (bind m f).
Proof.
  unfold walk_only. intros Hm Hf. destruct m as [l [a|e|]]; cbn in *;
    try assumption.
  specialize (Hf a). destruct (f a) as [l' r]. cbn in *.
  rewrite forallb_app, Hm, Hf. reflexivity.
Qed.

Lemma walk_only_lift {A} (r : exn + A) : walk_only (lift r).
Proof. destruct r; reflexivity. Qed.

Lemma walk_only_logs l :
  forallb is_walk_event l = true ->
  stores l = [] /\ parses l = [] /\ allocations l = [].
Proof.
  induction l as [|ev l IH]; cbn; [auto|].
  intros H. apply andb_true_iff in H. destruct H as [Hev Hl].
  destruct (IH Hl) as (H1 & H2 & H3).
  destruct ev; try discriminate; cbn; auto.
Qed.

Section WalkOnly.

Context {G : Gdb}.

Lemma walk_only_subscript v i : walk_only (gdb_subscript v i).
Proof.
  unfold gdb_subscript. apply walk_only_bind; [reflexivity|].
  intros _. apply walk_only_lift.
Qed.

Lemma walk_only_field v name : walk_only (gdb_field v name).
Proof.
  unfold gdb_field. apply walk_only_bind; [reflexivity|].
  intros _. apply walk_only_lift.
Qed.

Lemma walk_only_getitem0 indices : walk_only (getitem0 indices).
Proof. destruct indices; reflexivity. Qed.

Lemma walk_only_deref c v indices : walk_only (deref c v indices).
Proof.
  destruct c; cbn [deref];
    repeat first [ apply walk_only_getitem0 | apply walk_only_subscript
                 | apply walk_only_field
                 | apply walk_only_bind; [|intros ?] ].
Qed.

Lemma walk_only_replay steps index :
  forall v s, walk_only (replay steps v index s).
Proof.
  induction steps as [|[c n] steps IH]; intros v s; cbn [replay].
  - reflexivity.
  - apply walk_only_bind; [apply walk_only_deref|]. intros v'. apply IH.
Qed.

Lemma walk_only_get_range self n : walk_only (_get_range_from_shape self n).
Proof.
  unfold _get_range_from_shape. destruct (shape_ind self); [|reflexivity].
  destruct (_shape self); [|reflexivity].
  destruct (Nat.ltb _ _); reflexivity.
Qed.

Lemma walk_only_new c v si shape : walk_only (new c v si shape).
Proof.
  destruct c; cbn [new].
  - unfold DeRefPtr_init. destruct shape; [|reflexivity].
    apply walk_only_bind; [apply walk_only_deref|]. intros ?.
    apply walk_only_get_range.
  - unfold DeRefArr_init. destruct (Re.empty_group_search _); [reflexivity|].
    destruct (Re.arr_search _); [|reflexivity].
    destruct (Py.int _); [|reflexivity].
    apply walk_only_bind; [apply walk_only_deref|]. intros ?. reflexivity.
  - unfold DeRefVec_init.
    repeat first [ apply walk_only_deref | apply walk_only_field
                 | apply walk_only_lift
                 | apply walk_only_bind; [|intros ?] ].
    reflexivity.
Qed.

Lemma walk_only_deref_for type_list shape :
  forall arr_type w, walk_only (_deref_for type_list arr_type w shape).
Proof.
  induction type_list as [|c rest IH]; intros arr_type w; cbn [_deref_for].
  - reflexivity.
  - destruct (pattern_search c arr_type); [|apply IH].
    apply walk_only_bind; [apply walk_only_new|]. intros d. apply IH.
Qed.

Lemma walk_only_inner_while k shape :
  forall f, walk_only (inner_while k shape f).
Proof.
  induction k as [|k IH]; intros f; cbn [inner_while];
    destruct (types_differ f); try reflexivity.
  apply walk_only_bind; [|apply IH].
  unfold inner_body. apply walk_only_bind; [apply walk_only_deref_for|].
  intros w. reflexivity.
Qed.

Lemma walk_only_outer_while i k shape :
  forall f, walk_only (outer_while i k shape f).
Proof.
  induction k as [|k IH]; intros f; cbn [outer_while];
    destruct (types_differ f); try reflexivity.
  apply walk_only_bind; [|apply IH].
  unfold outer_body. apply walk_only_bind; [apply walk_only_inner_while|].
  intros f1. apply walk_only_bind; [apply walk_only_deref_for|].
  intros w. reflexivity.
Qed.

Lemma walk_only_report_unused si shape : walk_only (report_unused si shape).
Proof.
  destruct si as [[|n]|]; try reflexivity. cbn [report_unused].
  destruct shape; [|reflexivity]. destruct (negb _); reflexivity.
Qed.

Lemma walk_only_driver fuel root shape :
  walk_only (_get_deref_funcs fuel root shape).
Proof.
  unfold _get_deref_funcs.
  apply walk_only_bind; [apply walk_only_outer_while|].
  intros f. apply walk_only_bind; [apply walk_only_report_unused|].
  intros _. reflexivity.
Qed.

End WalkOnly.

Lemma stores_app l1 l2 : stores (l1 ++ l2) = stores l1 ++ stores l2.
Proof. unfold stores. apply flat_map_app. Qed.

Lemma parses_app l1 l2 : parses (l1 ++ l2) = parses l1 ++ parses l2.
Proof. unfold parses. apply flat_map_app. Qed.

Lemma allocations_app l1 l2 :
  allocations (l1 ++ l2) = allocations l1 ++ allocations l2.
Proof. unfold allocations. apply flat_map_app. Qed.

Lemma NoDup_map_inj {A B} (f : A -> B) (l : list A) :
  (forall x y, f x = f y -> x = y) -> NoDup l -> NoDup (map f l).
Proof.
  intros Hf. induction 1 as [|a l Ha Hl IH]; cbn; constructor;
    [|assumption].
  intros Hin. apply in_map_iff in Hin. destruct Hin as (y & Hy & Hin).
  apply Hf in Hy. subst. contradiction.
Qed.

Lemma NoDup_range b : NoDup (Py.range b).
Proof.
  unfold Py.range. apply NoDup_map_inj.
  - intros x y H. lia.
  - apply seq_NoDup.
Qed.

Lemma NoDup_flat_map_heads {A B} (f : A -> list B) (l : list A) :
  NoDup l ->
  (forall x, In x l -> NoDup (f x)) ->
  (forall x y z, In z (f x) -> In z (f y) -> x = y) ->
  NoDup (flat_map f l).
Proof.
  intros Hl Hf Hdis. induction Hl as [|a l Ha Hl IH]; cbn; [constructor|].
  apply NoDup_app.
  - apply Hf. left. reflexivity.
  - apply IH. intros x Hx. apply Hf. right. assumption.
  - intros z Hz Hz'. apply in_flat_map in Hz'. destruct Hz' as (y & Hy & Hzy).
    assert (a = y) by (eapply Hdis; eassumption). subst. contradiction.
Qed.

Lemma NoDup_product bnds : NoDup (Py.product (map Py.range bnds)).
Proof.
  induction bnds as [|b bs IH]; cbn.
  - constructor; [intros [] | constructor].
  - apply NoDup_flat_map_heads.
    + apply NoDup_range.
    + intros i _. apply NoDup_map_inj; [|assumption].
      intros x y H. inversion H. reflexivity.
    + intros i j z Hi Hj. apply in_map_iff in Hi, Hj.
      destruct Hi as (r1 & <- & _). destruct Hj as (r2 & H & _).
      inversion H. reflexivity.
Qed.

Section RunLogs.

Context {G : Gdb}.

Lemma gdb_parse_inv var l v :
  gdb_parse var = (l, Ok v) ->
  parse_and_eval var = inr v /\ l = [EvParse var].
Proof.
  unfold gdb_parse. cbn. destruct (parse_and_eval var); cbn; intros H;
    inversion H; auto.
Qed.

Lemma cell_inv var fs ns dtype index l x :
  cell var fs ns dtype index = (l, Ok x) ->
  stores l = [] /\ allocations l = [] /\ parses l = [var].
Proof.
  unfold cell. intros H.
  apply bind_inv_ok in H. destruct H as (l1 & v & l2 & H1 & H & ->).
  apply bind_inv_ok in H. destruct H as (l3 & v' & l4 & H2 & H & ->).
  apply bind_inv_ok in H. destruct H as (l5 & t & l6 & H3 & H4 & ->).
  apply gdb_parse_inv in H1. destruct H1 as [_ ->].
  apply type_list_get_inv in H3. destruct H3 as [_ ->].
  apply lift_inv_ok in H4. destruct H4 as [_ ->].
  pose proof (walk_only_replay (combine fs ns) index v 0%nat) as Hw.
  unfold walk_only in Hw. rewrite H2 in Hw. cbn [fst] in Hw.
  destruct (walk_only_logs l3 Hw) as (Hs & Hp & Hz).
  rewrite !stores_app, !allocations_app, !parses_app, Hs, Hp, Hz.
  repeat split; reflexivity.
Qed.

Lemma nd_setitem_inv a index x l a' :
  nd_setitem a index x = (l, Ok a') ->
  l = [EvStore index] /\ nd_shape a' = nd_shape a.
Proof.
  unfold nd_setitem. destruct (index_in_range _ _); [|discriminate].
  cbn. intros H. inversion H; subst. auto.
Qed.

Lemma fill_inv var fs ns dtype indices :
  forall a l a',
  fill var fs ns dtype indices a = (l, Ok a') ->
  stores l = indices /\ allocations l = [] /\
  parses l = repeat var (length indices) /\ nd_shape a' = nd_shape a.
Proof.
  induction indices as [|i rest IH]; intros a l a' H; cbn [fill] in H.
  - inversion H; subst. repeat split; reflexivity.
  - apply bind_inv_ok in H. destruct H as (l1 & x & l2 & H1 & H & ->).
    apply bind_inv_ok in H. destruct H as (l3 & a1 & l4 & H2 & H3 & ->).
    apply cell_inv in H1. destruct H1 as (Hs & Hz & Hp).
    apply nd_setitem_inv in H2. destruct H2 as [-> Hsh].
    apply IH in H3. destruct H3 as (Hs' & Hz' & Hp' & Hsh').
    rewrite !stores_app, !allocations_app, !parses_app, Hs, Hz, Hp, Hs',
      Hz', Hp'.
    cbn. repeat split; congruence.
Qed.

Lemma np_zeros_inv bnds t l a :
  np_zeros bnds t = (l, Ok a) -> l = [EvZeros bnds t] /\ nd_shape a = bnds.
Proof.
  unfold np_zeros. destruct (forallb _ _); [|discriminate].
  cbn. intros H. inversion H; subst. auto.
Qed.

End RunLogs.

(** X7.  In every run of [to_array] that returns a buffer, the buffer is
    allocated once, with the shape it is returned with; the indices stored
    into are the Cartesian product of the ranges of that shape, in
    row-major order and each index once; and the variable is resolved once
    for the driver and once more for every cell. *)
Theorem X7_each_cell_stored_once {G : Gdb}
    (fuel : nat) (var : string) (shape : option (list Z))
    (log : list event) (a : ndarray) :
  to_array fuel var shape = (log, Ok a) ->
  allocations log = [nd_shape a] /\
  stores log = Py.product (map Py.range (nd_shape a)) /\
  NoDup (stores log) /\
  parses log = repeat var (1 + length (stores log)).
Proof.
  unfold to_array. intros H.
  apply bind_inv_ok in H. destruct H as (l1 & v & l2 & H1 & H & ->).
  apply bind_inv_ok in H.
  destruct H as (l3 & [[[fs ns] bnds] dtype] & l4 & H2 & H & ->).
  apply bind_inv_ok in H. destruct H as (l5 & t & l6 & H3 & H & ->).
  apply bind_inv_ok in H. destruct H as (l7 & a0 & l8 & H4 & H5 & ->).
  apply gdb_parse_inv in H1. destruct H1 as [_ ->].
  apply type_list_get_inv in H3. destruct H3 as [_ ->].
  apply np_zeros_inv in H4. destruct H4 as [-> Hsh0].
  apply fill_inv in H5. destruct H5 as (Hs & Hz & Hp & Hsh).
  pose proof (walk_only_driver fuel v shape) as Hw.
  unfold walk_only in Hw. rewrite H2 in Hw. cbn [fst] in Hw.
  destruct (walk_only_logs l3 Hw) as (Hs3 & Hp3 & Hz3).
  assert (Hshape : nd_shape a = bnds) by congruence.
  rewrite !stores_app, !allocations_app, !parses_app, Hs, Hz, Hp, Hs3, Hp3,
    Hz3, Hshape.
  cbn. repeat split.
  - apply NoDup_product.
Qed.

Lemma X7_each_cell_stored_once_witness :
  exists (log : list event) (a : @ndarray Lab.gdb),
    to_array 4 "cube" None = (log, Ok a) /\
    allocations log = [nd_shape a] /\
    stores log = Py.product (map Py.range (nd_shape a)) /\
    NoDup (stores log) /\
    parses log = repeat "cube" (1 + length (stores log)).
Proof.
  destruct (to_array (G := Lab.gdb) 4 "cube" None) as [log [a|e|]] eqn:E;
    try (vm_compute in E; discriminate).
  exists log, a. split; [reflexivity|].
  apply (X7_each_cell_stored_once (G := Lab.gdb) 4 "cube" None log a E).
Defined.

Example lab_cube :
  Lab.run 4 "cube" None [[0; 0; 0]; [1; 2; 3]]%Z =
  (fst (to_array (G := Lab.gdb) 4 "cube" None),
   Ok ([2; 3; 4]%Z, np_int32, [0; 123]%Z)).
Proof. vm_compute. reflexivity. Qed.

(** ** How the hint is consumed *)


Lemma access_only_bind {A B} (m : M A) (f : A -> M B) :
  access_only m -> (forall a, access_only (f a)) -> access_only (bind m f).
Proof.
  unfold access_only. intros Hm Hf. destruct m as [l [a|e|]]; cbn in *;
    try assumption.
  specialize (Hf a). destruct (f a) as [l' r]. cbn in *.
  rewrite forallb_app, Hm, Hf. reflexivity.
Qed.

Lemma access_only_lift {A} (r : exn + A) : access_only (lift r).
Proof. destruct r; reflexivity. Qed.

Lemma access_only_prints l : forallb is_access l = true -> prints l = [].
Proof.
  induction l as [|ev l IH]; cbn; [auto|].
  intros H. apply andb_true_iff in H. destruct H as [Hev Hl].
  destruct ev; try discriminate; cbn; auto.
Qed.

Section AccessOnly.

Context {G : Gdb}.

Lemma access_only_subscript v i : access_only (gdb_subscript v i).
Proof.
  unfold gdb_subscript. apply access_only_bind; [reflexivity|].
  intros _. apply access_only_lift.
Qed.

Lemma access_only_field v name : access_only (gdb_field v name).
Proof.
  unfold gdb_field. apply access_only_bind; [reflexivity|].
  intros _. apply access_only_lift.
Qed.

Lemma access_only_getitem0 indices : access_only (getitem0 indices).
Proof. destruct indices; reflexivity. Qed.

Lemma access_only_deref c v indices : access_only (deref c v indices).
Proof.
  destruct c; cbn [deref];
    repeat first [ apply access_only_getitem0 | apply access_only_subscript
                 | apply access_only_field
                 | apply access_only_bind; [|intros ?] ].
Qed.

Lemma access_only_get_range self n :
  access_only (_get_range_from_shape self n).
Proof.
  unfold _get_range_from_shape. destruct (shape_ind self); [|reflexivity].
  destruct (_shape self); [|reflexivity].
  destruct (Nat.ltb _ _); reflexivity.
Qed.

Lemma access_only_new c v si shape : access_only (new c v si shape).
Proof.
  destruct c; cbn [new].
  - unfold DeRefPtr_init. destruct shape; [|reflexivity].
    apply access_only_bind; [apply access_only_deref|]. intros ?.
    apply access_only_get_range.
  - unfold DeRefArr_init. destruct (Re.empty_group_search _); [reflexivity|].
    destruct (Re.arr_search _); [|reflexivity].
    destruct (Py.int _); [|reflexivity].
    apply access_only_bind; [apply access_only_deref|]. intros ?.
    reflexivity.
  - unfold DeRefVec_init.
    repeat first [ apply access_only_deref | apply access_only_field
                 | apply access_only_lift
                 | apply access_only_bind; [|intros ?] ].
    reflexivity.
Qed.

Lemma access_only_deref_for type_list shape :
  forall arr_type w, access_only (_deref_for type_list arr_type w shape).
Proof.
  induction type_list as [|c rest IH]; intros arr_type w; cbn [_deref_for].
  - reflexivity.
  - destruct (pattern_search c arr_type); [|apply IH].
    apply access_only_bind; [apply access_only_new|]. intros d. apply IH.
Qed.

Lemma access_only_inner_while k shape :
  forall f, access_only (inner_while k shape f).
Proof.
  induction k as [|k IH]; intros f; cbn [inner_while];
    destruct (types_differ f); try reflexivity.
  apply access_only_bind; [|apply IH].
  unfold inner_body. apply access_only_bind; [apply access_only_deref_for|].
  intros w. reflexivity.
Qed.

Lemma access_only_outer_while i k shape :
  forall f, access_only (outer_while i k shape f).
Proof.
  induction k as [|k IH]; intros f; cbn [outer_while];
    destruct (types_differ f); try reflexivity.
  apply access_only_bind; [|apply IH].
  unfold outer_body. apply access_only_bind; [apply access_only_inner_while|].
  intros f1. apply access_only_bind; [apply access_only_deref_for|].
  intros w. reflexivity.
Qed.

End AccessOnly.

Lemma ptr_bounds_snoc fs bnds c b :
  length fs = length bnds ->
  ptr_bounds (fs ++ [c]) (bnds ++ [b]) =
  ptr_bounds fs bnds ++ (if is_ptr_step c then [b] else []).
Proof.
  revert bnds. induction fs as [|a fs IH]; intros [|x bnds] H; cbn in H;
    try discriminate.
  - destruct c; reflexivity.
  - cbn [app ptr_bounds]. rewrite IH by lia. destruct a; reflexivity.
Qed.

Lemma ptr_bounds_none fs bnds :
  filter is_ptr_step fs = [] -> ptr_bounds fs bnds = [].
Proof.
  revert bnds. induction fs as [|a fs IH]; intros bnds H; [reflexivity|].
  destruct a; cbn in H; try discriminate; destruct bnds; cbn; auto.
Qed.

Lemma firstn_succ_slice {A} (sh : list A) k :
  firstn (k + 1) sh = firstn k sh ++ Py.slice sh k (k + 1).
Proof.
  unfold Py.slice. replace (k + 1 - k)%nat with 1%nat by lia.
  revert sh. induction k as [|k IH]; intros sh.
  - destruct sh; reflexivity.
  - destruct sh as [|a sh]; [reflexivity|]. cbn [Nat.add firstn skipn app].
    rewrite IH. reflexivity.
Qed.

Section HintInvariant.

Context {G : Gdb}.

Lemma new_ptr_cursor v si shape l d :
  new DeRefPtr v si shape = (l, Ok d) ->
  exists k sh, si = Some k /\ shape = Some sh /\
    (k + 1 <= length sh)%nat /\ shape_ind d = Some (k + 1)%nat /\
    bounds d = Py.slice sh k (k + 1).
Proof.
  cbn [new]. unfold DeRefPtr_init. destruct shape as [sh|]; [|discriminate].
  intros H. apply bind_inv_ok in H.
  destruct H as (l1 & v' & l2 & H1 & H2 & _).
  unfold _get_range_from_shape in H2.
  cbn [shape_ind _shape set_val DeRefBase_init] in H2.
  destruct si as [k|]; [|discriminate].
  destruct (Nat.ltb_spec (length sh) (k + 1)); [discriminate|].
  inversion H2; subst. exists k, sh. cbn. repeat split; auto.
Qed.

Lemma hint_inv_step shape w c l d :
  hint_inv shape w ->
  new c (w_val w) (w_shape_ind w) shape = (l, Ok d) ->
  hint_inv shape
    {| w_val := val d; w_shape_ind := shape_ind d;
       w_deref_func := w_deref_func w ++ [c];
       w_bounds := w_bounds w ++ bounds d;
       w_arg_no := w_arg_no w ++ [length (bounds d)] |}.
Proof.
  intros [Hlen Hcur] Hnew.
  destruct (new_inv _ _ _ _ _ _ Hnew) as (Hb & _).
  destruct (bounds d) as [|b [|? ?]] eqn:Eb; try discriminate.
  unfold hint_inv. cbn [w_shape_ind w_deref_func w_bounds].
  split; [rewrite !length_app; cbn; lia|].
  rewrite filter_app, (ptr_bounds_snoc _ _ c b Hlen).
  destruct c.
  - destruct (new_ptr_cursor _ _ _ _ _ Hnew)
      as (k & sh & Hsi & Hsh & Hle & Hd & Hbd).
    rewrite Hd. rewrite Hsi in Hcur.
    destruct Hcur as (Hk & sh' & Hsh' & Hle' & Hpb).
    assert (sh' = sh) by congruence. subst sh'.
    cbn [filter is_ptr_step]. rewrite length_app. cbn [length].
    split; [lia|]. exists sh. split; [assumption|]. split; [lia|].
    rewrite Hpb, firstn_succ_slice. congruence.
  - rewrite (new_keeps_cursor DeRefArr _ _ _ _ _ ltac:(discriminate) Hnew).
    cbn [filter is_ptr_step]. rewrite !app_nil_r. exact Hcur.
  - rewrite (new_keeps_cursor DeRefVec _ _ _ _ _ ltac:(discriminate) Hnew).
    cbn [filter is_ptr_step]. rewrite !app_nil_r. exact Hcur.
Qed.

Lemma hint_inv_deref_for type_list shape :
  forall arr_type w l w',
  hint_inv shape w ->
  _deref_for type_list arr_type w shape = (l, Ok w') ->
  hint_inv shape w'.
Proof.
  induction type_list as [|c rest IH]; intros arr_type w l w' Hw H.
  - inversion H; subst. assumption.
  - cbn [_deref_for] in H. destruct (pattern_search c arr_type).
    + apply bind_inv_ok in H. destruct H as (l1 & d & l2 & H1 & H2 & _).
      eapply IH; [|exact H2]. eapply hint_inv_step; eassumption.
    + eapply IH; eassumption.
Qed.

Lemma hint_inv_inner_body shape f l f' :
  hint_inv shape (walk_of f) ->
  inner_body shape f = (l, Ok f') ->
  hint_inv shape (walk_of f').
Proof.
  intros Hw H. unfold inner_body in H. apply bind_inv_ok in H.
  destruct H as (l1 & w & l2 & H1 & H2 & _). inversion H2; subst.
  unfold _deref in H1. eapply hint_inv_deref_for in H1; [|exact Hw].
  destruct w. exact H1.
Qed.

Lemma hint_inv_inner_while shape k :
  forall f l f',
  hint_inv shape (walk_of f) ->
  inner_while k shape f = (l, Ok f') ->
  hint_inv shape (walk_of f').
Proof.
  induction k as [|k IH]; intros f l f' Hw H; cbn [inner_while] in H;
    destruct (types_differ f).
  - discriminate.
  - inversion H; subst. assumption.
  - apply bind_inv_ok in H. destruct H as (l1 & f1 & l2 & H1 & H2 & _).
    eapply IH; [|exact H2]. eapply hint_inv_inner_body; eassumption.
  - inversion H; subst. assumption.
Qed.

Lemma hint_inv_outer_body shape i f l f' :
  hint_inv shape (walk_of f) ->
  outer_body i shape f = (l, Ok f') ->
  hint_inv shape (walk_of f').
Proof.
  intros Hw H. unfold outer_body in H. apply bind_inv_ok in H.
  destruct H as (l1 & f1 & l2 & H1 & H & _).
  apply bind_inv_ok in H. destruct H as (l3 & w & l4 & H2 & H3 & _).
  inversion H3; subst.
  eapply hint_inv_inner_while in H1; [|exact Hw].
  unfold _deref in H2. eapply hint_inv_deref_for in H2; [|exact H1].
  destruct w. exact H2.
Qed.

Lemma hint_inv_outer_while shape i k :
  forall f l f',
  hint_inv shape (walk_of f) ->
  outer_while i k shape f = (l, Ok f') ->
  hint_inv shape (walk_of f').
Proof.
  induction k as [|k IH]; intros f l f' Hw H; cbn [outer_while] in H;
    destruct (types_differ f).
  - discriminate.
  - inversion H; subst. assumption.
  - apply bind_inv_ok in H. destruct H as (l1 & f1 & l2 & H1 & H2 & _).
    eapply IH; [|exact H2]. eapply hint_inv_outer_body; eassumption.
  - inversion H; subst. assumption.
Qed.

Lemma hint_inv_initial root shape :
  hint_inv shape (mk_walk root (initial_shape_ind shape) [] [] []).
Proof.
  unfold hint_inv. cbn. split; [reflexivity|].
  destruct shape as [[|b sh]|]; cbn; try reflexivity.
  split; [reflexivity|]. exists (b :: sh). repeat split. cbn. lia.
Qed.

End HintInvariant.

(** X8.  In every composition the driver completes, the pointer steps are
    no more than the hint has entries (none when the hint is absent), their
    bounds are the first entries of the hint in order, and the text that
    not all bounds are used is printed, once, exactly when the pointer
    steps have taken some but not all of the hint; nothing else is
    printed. *)
Theorem X8_hint_consumption {G : Gdb}
    (fuel : nat) (root : Value) (shape : option (list Z))
    (log : list event) (fs : list deref_class) (ns : list nat)
    (bnds : list Z) (dtype : string) :
  _get_deref_funcs fuel root shape = (log, Ok (fs, ns, bnds, dtype)) ->
  match shape with
  | None => filter is_ptr_step fs = [] /\ prints log = []
  | Some sh =>
      (length (filter is_ptr_step fs) <= length sh)%nat /\
      ptr_bounds fs bnds = firstn (length (filter is_ptr_step fs)) sh /\
      prints log =
        if (0 <? length (filter is_ptr_step fs))%nat
           && negb (length (filter is_ptr_step fs) =? length sh)%nat
        then [msg_not_all_used] else []
  end.
Proof.
  intros H. unfold _get_deref_funcs in H. apply bind_inv_ok in H.
  destruct H as (l1 & f & l2 & H1 & H & ->).
  apply bind_inv_ok in H. destruct H as (l3 & u & l4 & H2 & H3 & ->).
  inversion H3; subst. clear H3.
  pose proof (access_only_outer_while fuel fuel shape
                {| f_arr_type := _get_type root; f_old_type := None;
                   f_val := root;
                   f_shape_ind := initial_shape_ind shape;
                   f_deref_func := []; f_arg_no := []; f_bounds := [] |})
    as Ha.
  unfold access_only in Ha. rewrite H1 in Ha. cbn [fst] in Ha.
  apply access_only_prints in Ha.
  eapply hint_inv_outer_while in H1; [|apply hint_inv_initial].
  destruct H1 as [Hlen Hcur]. cbn [walk_of mk_walk w_shape_ind w_deref_func
                                    w_bounds] in Hcur.
  rewrite !prints_app, Ha, app_nil_r. cbn [app].
  destruct (f_shape_ind f) as [k|] eqn:Ek.
  - destruct Hcur as (Hk & sh & -> & Hle & Hpb). rewrite <- Hk.
    split; [assumption|]. split; [assumption|].
    destruct k as [|k]; cbn [report_unused] in H2.
    + inversion H2; subst. reflexivity.
    + change (0 <? S k)%nat with true. cbn [andb].
      destruct (negb (S k =? length sh)%nat); inversion H2; subst;
        reflexivity.
  - cbn [report_unused] in H2. inversion H2; subst.
    rewrite Hcur. cbn [length]. rewrite (ptr_bounds_none _ _ Hcur).
    destruct shape as [sh|]; [|split; reflexivity].
    split; [lia|]. split; reflexivity.
Qed.

Lemma X8_hint_consumption_witness :
  (length (filter is_ptr_step [DeRefPtr; DeRefPtr]) <= length [2; 3; 9]%Z)%nat
  /\
  ptr_bounds [DeRefPtr; DeRefPtr] [2; 3]%Z =
    firstn (length (filter is_ptr_step [DeRefPtr; DeRefPtr])) [2; 3; 9]%Z /\
  prints [EvSubscript 0%Z; EvSubscript 0%Z; EvPrint msg_not_all_used] =
    if (0 <? length (filter is_ptr_step [DeRefPtr; DeRefPtr]))%nat
       && negb (length (filter is_ptr_step [DeRefPtr; DeRefPtr])
                =? length [2; 3; 9]%Z)%nat
    then [msg_not_all_used] else [].
Proof.
  apply (X8_hint_consumption (G := Lab.gdb) 3
           (Demo.top (Demo.Ptr (Demo.Ptr Demo.int_t))) (Some [2; 3; 9]%Z)
           [EvSubscript 0%Z; EvSubscript 0%Z; EvPrint msg_not_all_used]
           [DeRefPtr; DeRefPtr] [1; 1]%nat [2; 3]%Z "int").
  vm_compute. reflexivity.
Defined.

(** ** The bound of an array layer *)

Lemma arr_search_unfold s :
  Re.arr_search s =
  if Re.groups_eol Re.Open s then Some (Re.strip_eol s)
  else match s with
       | EmptyString => None
       | String _ r => Re.arr_search r
       end.
Proof. destruct s; reflexivity. Qed.

Lemma arr_search_sound s g :
  Re.arr_search s = Some g ->
  exists p g', s = (p ++ g')%string /\
    Re.groups_eol Re.Open g' = true /\ g = Re.strip_eol g'.
Proof.
  induction s as [|c r IH]; rewrite arr_search_unfold.
  - cbn. discriminate.
  - destruct (Re.groups_eol Re.Open (String c r)) eqn:E.
    + intros H. inversion H; subst. exists EmptyString, (String c r). auto.
    + intros H. destruct (IH H) as (p & g' & -> & Hg & ->).
      exists (String c p), g'. auto.
Qed.

Lemma empty_group_suffix p s :
  Re.empty_group_search (p ++ s) = false -> Re.empty_group_search s = false.
Proof.
  induction p as [|c p IH]; [auto|].
  change ((String c p ++ s)%string) with (String c (p ++ s)).
  cbn [Re.empty_group_search]. intros H. apply orb_false_iff in H.
  apply IH. apply H.
Qed.

Lemma groups_inside_inv s :
  Re.groups_eol Re.Inside s = true ->
  exists d rest, s = (d ++ String "]" rest)%string /\ all_digits d = true /\
    Re.groups_eol Re.Closed rest = true.
Proof.
  induction s as [|c r IH]; cbn [Re.groups_eol]; [discriminate|].
  destruct (Re.is_digit c) eqn:Ed.
  - intros H. destruct (IH H) as (d & rest & -> & Hd & Hr).
    exists (String c d), rest. cbn. rewrite Ed. auto.
  - destruct (Re.is_char c "]") eqn:Ec; [|discriminate].
    apply Ascii.eqb_eq in Ec. subst. intros H.
    exists EmptyString, r. auto.
Qed.

Lemma groups_closed_inv rest :
  Re.groups_eol Re.Closed rest = true ->
  rest = EmptyString \/ rest = String "010" EmptyString \/
  exists r', rest = String "[" r' /\ Re.groups_eol Re.Inside r' = true.
Proof.
  destruct rest as [|c r]; [auto|]. cbn [Re.groups_eol].
  destruct (Re.is_char c "[") eqn:Ec.
  - apply Ascii.eqb_eq in Ec. subst. eauto.
  - intros H. apply andb_true_iff in H. destruct H as [Hn Hr].
    apply Ascii.eqb_eq in Hn. subst. destruct r; [auto | discriminate].
Qed.

Lemma groups_open_inv g :
  Re.groups_eol Re.Open g = true ->
  exists d rest, g = String "[" (d ++ String "]" rest) /\
    all_digits d = true /\ Re.groups_eol Re.Closed rest = true.
Proof.
  destruct g as [|c r]; cbn [Re.groups_eol]; [discriminate|].
  destruct (Re.is_char c "[") eqn:Ec; [|discriminate].
  apply Ascii.eqb_eq in Ec. subst. intros H.
  destruct (groups_inside_inv r H) as (d & rest & -> & Hd & Hr). eauto.
Qed.

Lemma int_digits_some s acc :
  all_digits s = true -> exists z, Py.int_digits acc s = Some z.
Proof.
  revert acc. induction s as [|c r IH]; intros acc H; cbn in *; [eauto|].
  apply andb_true_iff in H. destruct H as [Hc Hr]. rewrite Hc. auto.
Qed.

Lemma int_some d :
  all_digits d = true -> d <> EmptyString ->
  exists b, Py.int d = Some b /\ (0 <= b)%Z.
Proof.
  intros Hd Hne. destruct d as [|c r]; [congruence|].
  destruct (int_digits_some (String c r) 0%Z Hd) as (b & Hb).
  assert (Hi : Py.int (String c r) = Some b) by exact Hb.
  exists b. split; [exact Hi|]. eapply int_inv. exact Hi.
Qed.

Lemma strip_eol_cons c s :
  s <> EmptyString -> Re.strip_eol (String c s) = String c (Re.strip_eol s).
Proof. destruct s; [congruence | reflexivity]. Qed.

Lemma strip_eol_app p s :
  s <> EmptyString ->
  Re.strip_eol (p ++ s) = (p ++ Re.strip_eol s)%string.
Proof.
  intros H. induction p as [|c p IH]; [reflexivity|].
  change ((String c p ++ s)%string) with (String c (p ++ s)).
  rewrite strip_eol_cons, IH; [reflexivity|].
  destruct p; [assumption | discriminate].
Qed.

Lemma drop_last_app p s :
  s <> EmptyString -> Py.drop_last (p ++ s) = (p ++ Py.drop_last s)%string.
Proof.
  intros H. induction p as [|c p IH]; [reflexivity|].
  change ((String c p ++ s)%string) with (String c (p ++ s)).
  cbn [Py.drop_last]. rewrite IH.
  destruct (p ++ s)%string eqn:E; [|reflexivity].
  destruct p; [contradiction | discriminate].
Qed.

Lemma first_dim_of_match g' d rest :
  g' = String "[" (d ++ String "]" rest) ->
  all_digits d = true ->
  Re.groups_eol Re.Closed rest = true ->
  first_dim (Re.strip_eol g') = d.
Proof.
  intros -> Hd Hr. unfold first_dim.
  destruct (groups_closed_inv rest Hr) as [-> | [-> | (r' & -> & Hi)]].
  - change (String "[" (d ++ "]")) with (String "[" d ++ "]")%string.
    rewrite strip_eol_snoc by reflexivity. cbn [append Py.slice_1_m1].
    rewrite drop_last_snoc. apply split_first_digits. assumption.
  - rewrite strip_eol_cons by (destruct d; discriminate).
    rewrite strip_eol_app by discriminate. cbn [Re.strip_eol Py.slice_1_m1].
    change (Re.is_char "]" "010") with false. cbn [Re.strip_eol].
    change (if Re.is_char "010" "010" then EmptyString
            else String "010" EmptyString) with EmptyString.
    rewrite drop_last_snoc. apply split_first_digits. assumption.
  - destruct (groups_inside_inv r' Hi) as (d2 & rest2 & -> & _ & _).
    rewrite strip_eol_cons by (destruct d; discriminate).
    rewrite strip_eol_app by discriminate.
    rewrite strip_eol_cons by discriminate.
    rewrite strip_eol_cons by (destruct d2; discriminate).
    cbn [Py.slice_1_m1].
    rewrite drop_last_app by discriminate.
    assert (Hne : Re.strip_eol (d2 ++ String "]" rest2) <> EmptyString).
    { rewrite strip_eol_app by discriminate.
      destruct rest2 as [|c2 r2].
      - cbn. destruct d2; discriminate.
      - rewrite strip_eol_cons by discriminate. destruct d2; discriminate. }
    destruct (Re.strip_eol (d2 ++ String "]" rest2)) as [|c3 r3] eqn:E;
      [congruence|].
    cbn [Py.drop_last].
    apply split_first_digits_sep. assumption.
Qed.

(** X9.  Wherever the pattern of the array layer matches a type name that
    holds no empty pair of brackets, the text the layer cuts out of the
    match is a non-empty run of digits, so that [int] accepts it: the
    constructor then fails only if its discovery access fails, and
    otherwise owns that one, non-negative bound. *)
Theorem X9_array_bound_parses {G : Gdb}
    (v : Value) (group : string) :
  Re.arr_search (type_us v) = Some group ->
  Re.empty_group_search (type_us v) = false ->
  exists b,
    Py.int (first_dim group) = Some b /\ (0 <= b)%Z /\
    forall si shape,
      DeRefArr_init v si shape =
        bind (deref DeRefArr v [0%Z]) (fun v' =>
          ret {| bounds := [b]; val := v'; shape_ind := si;
                 _shape := shape |}).
Proof.
  intros Ha He.
  destruct (arr_search_sound _ _ Ha) as (p & g' & Hs & Hg & Hgr).
  assert (Heg : Re.empty_group_search g' = false).
  { apply (empty_group_suffix p). rewrite <- Hs. exact He. }
  destruct (groups_open_inv g' Hg) as (d & rest & Hg' & Hd & Hr).
  assert (Hne : d <> EmptyString).
  { intros ->. rewrite Hg' in Heg. cbn in Heg. discriminate. }
  pose proof (first_dim_of_match g' d rest Hg' Hd Hr) as Hfd.
  rewrite <- Hgr in Hfd.
  destruct (int_some d Hd Hne) as (b & Hb & Hb0).
  exists b. rewrite Hfd. split; [assumption|]. split; [assumption|].
  intros si shape. unfold DeRefArr_init. cbn [val DeRefBase_init].
  rewrite He, Ha.
  change (Py.split_first (Py.slice_1_m1 group)) with (first_dim group).
  rewrite Hfd, Hb. reflexivity.
Qed.

Lemma X9_array_bound_parses_witness :
  exists b,
    Py.int (first_dim "[2][3][4]") = Some b /\ (0 <= b)%Z /\
    forall si shape,
      DeRefArr_init (G := Lab.gdb)
        (Demo.top (Demo.Arr "2" (Demo.Arr "3" (Demo.Arr "4" Demo.int_t))))
        si shape =
        bind (deref (G := Lab.gdb) DeRefArr
                (Demo.top
                   (Demo.Arr "2" (Demo.Arr "3" (Demo.Arr "4" Demo.int_t))))
                [0%Z])
          (fun v' =>
             ret (set_val (set_bounds (DeRefBase_init (G := Lab.gdb) v' si shape)
                             [b]) v')).
Proof.
  apply (X9_array_bound_parses (G := Lab.gdb)
           (Demo.top (Demo.Arr "2" (Demo.Arr "3" (Demo.Arr "4" Demo.int_t))))
           "[2][3][4]").
  - reflexivity.
  - reflexivity.
Defined.

(** ** Arrays of any number of dimensions *)

Section GroupsFacts.

Lemma groups_closed ds :
  Forall digits_ok ds -> Re.groups_eol Re.Closed (groups ds) = true.
Proof.
  induction 1 as [|d ds [Hd _] _ IH]; [reflexivity|].
  cbn [groups Re.groups_eol]. change (Re.is_char "[" "[") with true.
  cbn iota. rewrite groups_inside_digits by assumption. exact IH.
Qed.

Lemma groups_open d ds :
  Forall digits_ok (d :: ds) -> Re.groups_eol Re.Open (groups (d :: ds)) = true.
Proof.
  intros H. inversion H as [|? ? [Hd _] Hds]; subst.
  cbn [groups Re.groups_eol]. change (Re.is_char "[" "[") with true.
  cbn iota. rewrite groups_inside_digits by assumption.
  apply (groups_closed ds Hds).
Qed.

Lemma groups_ends_closed d ds :
  exists front, groups (d :: ds) = (front ++ "]")%string.
Proof.
  revert d. induction ds as [|d' ds IH]; intros d.
  - exists (String "[" d). reflexivity.
  - destruct (IH d') as (front & Hf). cbn [groups] in *. rewrite Hf.
    exists (String "[" (d ++ String "]" front)). cbn. f_equal.
    rewrite append_assoc. reflexivity.
Qed.

Lemma groups_strip d ds : Re.strip_eol (groups (d :: ds)) = groups (d :: ds).
Proof.
  destruct (groups_ends_closed d ds) as (front & ->).
  apply strip_eol_snoc. reflexivity.
Qed.

Lemma groups_no_empty ds :
  Forall digits_ok ds -> Re.empty_group_search (groups ds) = false.
Proof.
  induction 1 as [|d ds [Hd Hne] _ IH]; [reflexivity|].
  cbn [groups]. rewrite empty_group_open_digits by assumption. exact IH.
Qed.

Lemma groups_no_ptr ds :
  Forall digits_ok ds -> Re.ptr_search (groups ds) = false.
Proof.
  induction 1 as [|d ds [Hd Hne] _ IH]; [reflexivity|].
  cbn [groups Re.ptr_search Re.ptr_here].
  change (Re.is_char "[" "*") with false. cbn [andb orb].
  rewrite ptr_search_digits by assumption. exact IH.
Qed.

Lemma groups_first_dim d ds :
  Forall digits_ok (d :: ds) -> first_dim (groups (d :: ds)) = d.
Proof.
  intros H. inversion H as [|? ? [Hd _] Hds]; subst.
  rewrite <- (groups_strip d ds) at 1.
  apply (first_dim_of_match _ d (groups ds)); [reflexivity | assumption|].
  apply groups_closed. assumption.
Qed.

Lemma length_groups_cons d ds :
  String.length (groups (d :: ds)) =
  S (String.length d + S (String.length (groups ds))).
Proof.
  change (groups (d :: ds)) with (String "[" (d ++ String "]" (groups ds))).
  change (String.length (String "[" ?x)) with (S (String.length x)).
  rewrite length_append. reflexivity.
Qed.

Lemma arr_name_longer T d ds :
  (String.length (arr_name T ds) < String.length (arr_name T (d :: ds)))%nat.
Proof.
  assert (H : forall x, String.length (T ++ String " " x)
                        = S (String.length T + String.length x)).
  { intros x. rewrite length_append. cbn [String.length]. lia. }
  destruct ds as [|d' ds]; unfold arr_name; rewrite !H, !length_groups_cons;
    lia.
Qed.

Lemma arr_name_facts T t d ds :
  In (T, t) _type_list ->
  Forall digits_ok (d :: ds) ->
  Re.ptr_search (arr_name T (d :: ds)) = false /\
  Re.arr_search (arr_name T (d :: ds)) = Some (groups (d :: ds)) /\
  Re.empty_group_search (arr_name T (d :: ds)) = false /\
  String.eqb (arr_name T ds) (arr_name T (d :: ds)) = false.
Proof.
  intros HT Hds.
  pose proof (groups_no_ptr _ Hds) as Hp.
  pose proof (groups_no_empty _ Hds) as He.
  pose proof (arr_search_here _ (groups_open d ds Hds) (groups_strip d ds))
    as Ha.
  split; [|split; [|split]].
  4:{ apply eqb_length_neq. pose proof (arr_name_longer T d ds). lia. }
  all: whitelisted HT; unfold arr_name;
    cbn -[groups]; first [exact Hp | exact Ha | exact He].
Qed.

Lemma arr_name_not_vec T t ds :
  In (T, t) _type_list -> Re.vec_search (arr_name T ds) = false.
Proof.
  intros HT. destruct ds as [|d ds]; whitelisted HT; reflexivity.
Qed.

Lemma dims_ok ds ms :
  Forall2 (fun d m => Py.int d = Some m) ds ms ->
  Forall digits_ok ds /\ Forall (fun b => 0 <= b)%Z ms.
Proof.
  induction 1 as [|d m ds ms Hd _ [IH1 IH2]]; [split; constructor|].
  destruct (int_inv _ _ Hd) as (H1 & H2 & H3).
  split; constructor; try assumption. split; assumption.
Qed.

End GroupsFacts.

Section ArrayWalk.

Context {G : Gdb}.
Variables (T : string) (t : np_dtype).
Hypothesis T_listed : In (T, t) _type_list.

Lemma chain_type v ds vn :
  array_chain T v ds vn -> type_su v = arr_name T ds.
Proof. destruct 1 as [v H | v d ds v' vn [H _] _ _]; assumption. Qed.

Lemma walk_arrays ds ms :
  Forall2 (fun d m => Py.int d = Some m) ds ms ->
  forall i k shape f vn,
  types_differ f = true ->
  array_chain T (f_val f) ds vn ->
  (length ds < k)%nat ->
  outer_while (S i) k shape f =
    (repeat (EvSubscript 0%Z) (length ds),
     Ok (mk_frame T (Some T)
           (mk_walk vn (f_shape_ind f)
              (f_deref_func f ++ repeat DeRefArr (length ds))
              (f_bounds f ++ ms)
              (f_arg_no f ++ repeat 1%nat (length ds))))).
Proof.
  induction 1 as [|d m ds ms Hd Hdm IH]; intros i k shape f vn Hdiff Hch Hk.
  - inversion Hch as [v0 HT0 E1 E2 E3|]. subst v0.
    destruct k as [|k]; [cbn in Hk; lia|].
    destruct (scalar_terminal T t T_listed) as (Hp0 & Ha0 & Hv0).
    rewrite turn_terminal; rewrite ?HT0; try assumption.
    cbn [repeat length]. rewrite !app_nil_r. reflexivity.
  - inversion Hch as [|v0 d0 ds0 v' vn0 Hty Hsub Hrest E1 E2 E3].
    subst v0 d0 ds0 vn0.
    destruct k as [|k]; [cbn in Hk; lia|].
    assert (Hall : Forall2 (fun d m => Py.int d = Some m) (d :: ds) (m :: ms))
      by (constructor; assumption).
    destruct (dims_ok _ _ Hall) as [Hok _].
    destruct (arr_name_facts T t d ds T_listed Hok) as (Hp & Ha & He & Hq).
    pose proof (chain_type _ _ _ Hrest) as Hty'.
    destruct Hty as [Hsu Hus].
    rewrite (turn_arr i k shape f (groups (d :: ds)) m v');
      rewrite ?Hsu; try assumption.
    + rewrite IH with (vn := vn).
      * cbn [mk_frame mk_walk f_shape_ind f_deref_func f_bounds f_arg_no
             w_shape_ind w_deref_func w_bounds w_arg_no bind length repeat].
        rewrite <- !app_assoc. reflexivity.
      * unfold types_differ. cbn [mk_frame f_old_type f_arr_type].
        rewrite Hty', Hq. reflexivity.
      * exact Hrest.
      * cbn in Hk. lia.
    + split; assumption.
    + rewrite (groups_first_dim d ds Hok). assumption.
    + rewrite Hty'. apply (arr_name_not_vec T t ds T_listed).
Qed.

Lemma replay_arrays (at_ : list Z -> Value) n :
  (forall idx i, (length idx < n)%nat ->
     subscript (at_ idx) i = inr (at_ (idx ++ [i]))) ->
  forall suf pre,
  (length pre + length suf <= n)%nat ->
  replay (combine (repeat DeRefArr (length suf)) (repeat 1%nat (length suf)))
    (at_ pre) (pre ++ suf) (length pre) =
    (map EvSubscript suf, Ok (at_ (pre ++ suf))).
Proof.
  intros Hsub. induction suf as [|i suf IH]; intros pre Hlen.
  - cbn. rewrite app_nil_r. reflexivity.
  - cbn [length repeat combine replay].
    assert (Hnth : nth_error (pre ++ i :: suf) (length pre) = Some i).
    { rewrite nth_error_app2 by lia. rewrite Nat.sub_diag. reflexivity. }
    destruct (slice_one _ _ _ Hnth) as [Hsl _]. rewrite Hsl.
    cbn [length] in Hlen.
    erewrite bind_ok;
      [ | apply deref_index_ok; [auto | apply Hsub; lia] | ].
    + reflexivity.
    + replace (pre ++ i :: suf) with ((pre ++ [i]) ++ suf)
        by (rewrite <- app_assoc; reflexivity).
      replace (length pre + 1)%nat with (length (pre ++ [i]))
        by (rewrite length_app; reflexivity).
      apply IH. rewrite length_app. cbn. lia.
Qed.

End ArrayWalk.

Lemma skipn_cons_next {A} (l : list A) k a r :
  skipn k l = a :: r -> skipn (S k) l = r /\ (k < length l)%nat.
Proof.
  revert l. induction k as [|k IH]; intros [|x l] H; cbn in *;
    try discriminate.
  - inversion H; subst. split; [reflexivity | lia].
  - destruct (IH l H) as [H1 H2]. split; [assumption | lia].
Qed.

Lemma chain_from_values {G : Gdb} T ds (at_ : list Z -> Value) :
  (forall idx, (length idx <= length ds)%nat ->
     has_type (at_ idx) (arr_name T (skipn (length idx) ds))) ->
  (forall idx i, (length idx < length ds)%nat ->
     subscript (at_ idx) i = inr (at_ (idx ++ [i]))) ->
  forall ds' pre,
  skipn (length pre) ds = ds' ->
  (length pre <= length ds)%nat ->
  array_chain T (at_ pre) ds' (at_ (pre ++ repeat 0%Z (length ds'))).
Proof.
  intros Hty Hsub. induction ds' as [|d ds' IH]; intros pre Hskip Hlen.
  - cbn. rewrite app_nil_r. apply chain_nil.
    destruct (Hty pre Hlen) as [H _]. rewrite Hskip in H. exact H.
  - destruct (skipn_cons_next _ _ _ _ Hskip) as [Hnext Hlt].
    apply chain_cons with (v' := at_ (pre ++ [0%Z])).
    + rewrite <- Hskip. apply Hty. assumption.
    + apply Hsub. assumption.
    + cbn [length repeat].
      replace (pre ++ 0%Z :: repeat 0%Z (length ds'))
        with ((pre ++ [0%Z]) ++ repeat 0%Z (length ds'))
        by (rewrite <- app_assoc; reflexivity).
      apply IH; rewrite length_app; cbn [length];
        rewrite Nat.add_1_r; [assumption | lia].
Qed.

(** X10.  For a variable whose type is a fixed-size array of any number of
    dimensions [T [m1]...[mn]] over a whitelisted scalar, [to_array]
    returns a buffer of shape [(m1, ..., mn)] whose cell at an index tuple
    is the scalar reached from the variable by subscripting with the
    entries of the tuple in order; one more turn of the outer loop than
    there are dimensions is enough, and the run with a shape hint is the
    run without one. *)
Theorem X10_array_of_any_rank {G : Gdb}
    (fuel : nat) (var : string) (shape : option (list Z))
    (T : string) (t : np_dtype) (ds : list string) (ms : list Z)
    (at_ : list Z -> Value) (x : list Z -> Number) :
  (length ds < fuel)%nat ->
  In (T, t) _type_list ->
  Forall2 (fun d m => Py.int d = Some m) ds ms ->
  parse_and_eval var = inr (at_ []) ->
  (forall idx, (length idx <= length ds)%nat ->
     has_type (at_ idx) (arr_name T (skipn (length idx) ds))) ->
  (forall idx i, (length idx < length ds)%nat ->
     subscript (at_ idx) i = inr (at_ (idx ++ [i]))) ->
  (forall idx, in_bounds idx ms -> np_scalar t (at_ idx) = inr (x idx)) ->
  exists log a,
    to_array fuel var shape = (log, Ok a) /\
    nd_shape a = ms /\ nd_dtype a = t /\
    (forall idx, in_bounds idx ms -> nd_data a idx = x idx) /\
    to_array fuel var None = to_array fuel var shape.
Proof.
  intros Hfuel HT Hdims Hp Hty Hsub Hx.
  destruct fuel as [|i]; [lia|].
  destruct (dims_ok _ _ Hdims) as [_ Hms].
  pose proof (Forall2_length Hdims) as Hlen.
  assert (Hdrv : forall s, _get_deref_funcs (S i) (at_ []) s =
            (repeat (EvSubscript 0%Z) (length ds),
             Ok (repeat DeRefArr (length ds), repeat 1%nat (length ds),
                 ms, T))).
  { intros s. unfold _get_deref_funcs.
    erewrite (walk_arrays T t HT ds ms Hdims i (S i) s);
      [ | reflexivity
        | apply (chain_from_values T ds at_ Hty Hsub ds []);
          [reflexivity | cbn; lia]
        | assumption ].
    cbn [bind mk_frame mk_walk f_shape_ind f_deref_func f_bounds f_arg_no
         f_arr_type w_shape_ind w_deref_func w_bounds w_arg_no app].
    rewrite report_unused_initial. cbn. rewrite app_nil_r. reflexivity. }
  destruct (to_array_spec (S i) var shape (at_ []) _ _ _ _ _ t
              (fun index => EvParse var :: map EvSubscript index) x
              Hp (Hdrv shape) HT Hms)
    as (a & Ha & Hsh & Hdt & Hcells).
  { intros index Hi.
    assert (Hli : length index = length ds).
    { rewrite Hlen. eapply Forall2_length. exact Hi. }
    eapply cell_ok; try eassumption; [ | apply Hx; assumption ].
    rewrite <- Hli.
    apply (replay_arrays at_ (length ds) Hsub index []). cbn. lia. }
  eexists. exists a. repeat split; try eassumption.
  eapply to_array_cong; [eassumption|]. rewrite !Hdrv. reflexivity.
Qed.

Lemma X10_array_of_any_rank_witness :
  exists log (a : @ndarray Lab.gdb),
    to_array 4 "cube" (Some [7]%Z) = (log, Ok a) /\
    nd_shape a = [2; 3; 4]%Z /\ nd_dtype a = np_int32 /\
    (forall idx, in_bounds idx [2; 3; 4]%Z -> nd_data a idx = Demo.stored idx)
    /\
    to_array (G := Lab.gdb) 4 "cube" None = to_array 4 "cube" (Some [7]%Z).
Proof.
  apply (X10_array_of_any_rank (G := Lab.gdb) 4 "cube" (Some [7]%Z) "int"
           np_int32 ["2"; "3"; "4"]%string [2; 3; 4]%Z Lab.cube_at
           Demo.stored).
  - simpl. lia.
  - simpl. tauto.
  - repeat constructor.
  - reflexivity.
  - intros [|a [|b [|c [|e r]]]] H; split; reflexivity.
  - intros [|a [|b [|c r]]] i H; try reflexivity. cbn in H. lia.
  - intros idx H. inversion H as [|a ? r1 ? _ H1]; subst.
    inversion H1 as [|b ? r2 ? _ H2]; subst.
    inversion H2 as [|c ? r3 ? _ H3]; subst. inversion H3; subst.
    reflexivity.
Defined.

(** ** Fixed-size arrays of sequence containers *)

Lemma arr_vec_name_facts T t d :
  In (T, t) _type_list ->
  digits_ok d ->
  Re.ptr_search (arr_vec_name T d) = false /\
  Re.arr_search (arr_vec_name T d) = Some (group1 d) /\
  Re.empty_group_search (arr_vec_name T d) = false /\
  String.eqb T (arr_vec_name T d) = false.
Proof.
  intros HT Hd.
  assert (Hds : Forall digits_ok [d]) by (constructor; [assumption | constructor]).
  pose proof (groups_no_ptr _ Hds) as Hp.
  pose proof (groups_no_empty _ Hds) as He.
  pose proof (arr_search_here _ (groups_open d [] Hds) (groups_strip d []))
    as Ha.
  change (groups [d]) with (group1 d) in *.
  split; [|split; [|split]].
  4:{ apply eqb_length_neq. unfold arr_vec_name, vec_name.
      rewrite !length_append. cbn [String.length]. lia. }
  all: whitelisted HT; unfold arr_vec_name, vec_name;
    cbn -[group1]; first [exact Hp | exact Ha | exact He].
Qed.

Lemma driver_arr_vec {G : Gdb} k shape T t d n root vec0 impl start finish
    elem0 len :
  In (T, t) _type_list ->
  Py.int d = Some n ->
  has_type root (arr_vec_name T d) ->
  subscript root 0 = inr vec0 ->
  type_su vec0 = vec_name T ->
  field vec0 "_M_impl" = inr impl ->
  field impl "_M_start" = inr start ->
  field impl "_M_finish" = inr finish ->
  ptr_sub finish start = inr len ->
  subscript start 0 = inr elem0 ->
  type_su elem0 = T ->
  _get_deref_funcs (S (S k)) root shape =
    (EvSubscript 0%Z :: vec_discovery,
     Ok ([DeRefArr; DeRefVec], [1; 1]%nat, [n; len], T)).
Proof.
  intros HT Hn [Hr Hr'] Hs0 Hv H1 H2 H3 H4 H5 He.
  destruct (int_inv _ _ Hn) as (Hd & Hne & _).
  destruct (arr_vec_name_facts T t d HT (conj Hd Hne))
    as (Hp2 & Ha2 & He2 & Hq2).
  destruct (vec_name_facts T t HT) as (_ & _ & Hv1 & _).
  destruct (scalar_terminal T t HT) as (Hp0 & Ha0 & Hv0).
  destruct (group1_facts d Hd Hne) as (_ & _ & Hf1 & _).
  unfold _get_deref_funcs, _get_type.
  erewrite outer_while_step; [ | reflexivity | ].
  2:{ eapply outer_body_ok; [reflexivity | | ].
      - cbn [f_val f_deref_func f_bounds f_arg_no f_shape_ind].
        eapply (deref_ptr_list_arr root [] [] [] _ shape (group1 d) n vec0);
          rewrite ?Hr, ?Hf1; try eassumption; try reflexivity.
        split; assumption.
      - cbn [mk_walk w_val w_shape_ind w_deref_func w_bounds w_arg_no].
        eapply (deref_container_list_vec vec0); try eassumption.
        rewrite Hv. exact Hv1. }
  cbn [mk_walk w_val w_shape_ind w_deref_func w_bounds w_arg_no f_val app].
  rewrite He, Hr.
  match goal with
  | |- context [outer_while ?i (S ?j) ?s ?fr] =>
      rewrite (turn_terminal (S k) j s fr)
  end;
    cbn [mk_frame mk_walk f_val f_old_type f_arr_type f_shape_ind
         f_deref_func f_bounds f_arg_no w_val w_shape_ind w_deref_func
         w_bounds w_arg_no];
    rewrite ?He; try assumption.
  - cbn. rewrite report_unused_initial. reflexivity.
  - unfold types_differ. cbn [mk_frame f_old_type f_arr_type].
    rewrite Hq2. reflexivity.
Qed.

Lemma fields_app l1 l2 : fields (l1 ++ l2) = fields l1 ++ fields l2.
Proof. unfold fields. apply flat_map_app. Qed.

Lemma fields_cells_arr_vec var l :
  filter (String.eqb "_M_finish")
    (fields
       (flat_map
          (fun index =>
             match index with
             | [j; i] => [EvParse var; EvSubscript j; EvField "_M_impl";
                          EvField "_M_start"; EvSubscript i]
             | _ => []
             end ++ [EvStore index]) l)) = [].
Proof.
  induction l as [|index l IH]; [reflexivity|].
  cbn [flat_map]. rewrite fields_app, filter_app, IH, app_nil_r.
  destruct index as [|j [|i [|k r]]]; reflexivity.
Qed.

(** X11.  For a variable whose type is a fixed-size array of [n] sequence
    containers of a whitelisted scalar, [to_array] peels the array and the
    container in one turn of the outer loop and returns a buffer of shape
    [(n, len)], where [len] is the run-time length of the container at
    index 0: cell [(j, i)] is the scalar at offset [i] from the begin
    marker of container [j], and the end marker is selected once in the
    whole run, on container 0, so the lengths of the other containers are
    never read. *)
Theorem X11_array_of_vectors {G : Gdb}
    (fuel : nat) (var : string) (shape : option (list Z))
    (T : string) (t : np_dtype) (d : string) (n len : Z)
    (root finish0 : Value) (vec impl start : Z -> Value)
    (elem : Z -> Z -> Value) (x : Z -> Z -> Number) :
  (2 <= fuel)%nat ->
  In (T, t) _type_list ->
  Py.int d = Some n ->
  (0 <= len)%Z ->
  parse_and_eval var = inr root ->
  has_type root (arr_vec_name T d) ->
  (forall j, probed n j ->
     subscript root j = inr (vec j) /\
     field (vec j) "_M_impl" = inr (impl j) /\
     field (impl j) "_M_start" = inr (start j)) ->
  type_su (vec 0%Z) = vec_name T ->
  field (impl 0%Z) "_M_finish" = inr finish0 ->
  ptr_sub finish0 (start 0%Z) = inr len ->
  subscript (start 0%Z) 0 = inr (elem 0%Z 0%Z) ->
  type_su (elem 0%Z 0%Z) = T ->
  (forall j i, (0 <= j < n)%Z -> (0 <= i < len)%Z ->
     subscript (start j) i = inr (elem j i) /\
     np_scalar t (elem j i) = inr (x j i)) ->
  exists log a,
    to_array fuel var shape = (log, Ok a) /\
    nd_shape a = [n; len] /\ nd_dtype a = t /\
    (forall j i, (0 <= j < n)%Z -> (0 <= i < len)%Z ->
       nd_data a [j; i] = x j i) /\
    filter (String.eqb "_M_finish") (fields log) = ["_M_finish"%string].
Proof.
  intros Hfuel HT Hn Hlen Hp Hroot Hvec Hv0 Hfin Hsub Hs00 He00 Hcell.
  destruct fuel as [|[|f]]; try lia.
  destruct (int_inv _ _ Hn) as (_ & _ & Hn0).
  assert (P0 : probed n 0) by (left; reflexivity).
  destruct (Hvec 0%Z P0) as (Hr0 & Hi0 & Hst0).
  pose proof (driver_arr_vec f shape T t d n root (vec 0%Z) (impl 0%Z)
                (start 0%Z) finish0 (elem 0%Z 0%Z) len
                HT Hn Hroot Hr0 Hv0 Hi0 Hst0 Hfin Hsub Hs00 He00) as Hdrv.
  destruct (to_array_spec (S (S f)) var shape root _ _ _ _ _ t
              (fun index => match index with
                            | [j; i] => [EvParse var; EvSubscript j;
                                         EvField "_M_impl";
                                         EvField "_M_start"; EvSubscript i]
                            | _ => []
                            end)
              (fun index => match index with
                            | [j; i] => x j i
                            | _ => np_zero t
                            end)
              Hp Hdrv HT)
    as (a & Ha & Hsh & Hdt & Hcells).
  { constructor; [assumption | constructor; [assumption | constructor]]. }
  { intros index Hi. apply in_bounds_2 in Hi.
    destruct Hi as (j & i & -> & Hj & Hi).
    assert (Pj : probed n j) by (right; assumption).
    destruct (Hvec j Pj) as (Hrj & Hij & Hstj).
    destruct (Hcell j i Hj Hi) as (Hsji & Hxji).
    eapply cell_ok; try eassumption.
    cbn [combine replay].
    change (Py.slice [j; i] 0 (0 + 1)) with [j].
    change (Py.slice [j; i] (0 + 1) (0 + 1 + 1)) with [i].
    apply (bind_ok _ _ [EvSubscript j] (vec j)
             [EvField "_M_impl"; EvField "_M_start"; EvSubscript i]
             (Ok (elem j i))).
    - cbn. rewrite Hrj. reflexivity.
    - cbn [replay]. rewrite bind_ret_r.
      apply (deref_vec_ok (vec j) i (impl j) (start j) (elem j i));
        assumption. }
  eexists. exists a. repeat split; try eassumption.
  - intros j i Hj Hi. apply (Hcells [j; i]).
    constructor; [assumption | constructor; [assumption | constructor]].
  - change (EvParse var :: ?l) with ([EvParse var] ++ l).
    rewrite !fields_app, !filter_app.
    change (EvZeros [n; len] t :: ?l) with ([EvZeros [n; len] t] ++ l).
    rewrite fields_app, filter_app, fields_cells_arr_vec. reflexivity.
Qed.

Lemma X11_array_of_vectors_witness :
  exists log (a : @ndarray Lab.gdb),
    to_array 2 "vs" None = (log, Ok a) /\
    nd_shape a = [2; 3]%Z /\ nd_dtype a = np_int32 /\
    (forall j i, (0 <= j < 2)%Z -> (0 <= i < 3)%Z ->
       nd_data a [j; i] = Demo.stored [j; i]) /\
    filter (String.eqb "_M_finish") (fields log) = ["_M_finish"%string].
Proof.
  apply (X11_array_of_vectors (G := Lab.gdb) 2 "vs" None "int" np_int32
           "2" 2 3
           (Demo.top (Demo.Arr "2" (Demo.Vec 3 Demo.int_t)))
           {| Demo.ty := Demo.Ptr Demo.int_t; Demo.path := [0%Z];
              Demo.at_elem := 3 |}
           (fun j => Demo.at_path (Demo.Vec 3 Demo.int_t) [j])
           (fun j => Demo.at_path (Demo.VecImpl 3 Demo.int_t) [j])
           (fun j => Demo.at_path (Demo.Ptr Demo.int_t) [j])
           (fun j i => Demo.at_path Demo.int_t [j; i])
           (fun j i => Demo.stored [j; i])).
  - lia.
  - simpl. tauto.
  - reflexivity.
  - lia.
  - reflexivity.
  - split; reflexivity.
  - intros j _. repeat split; reflexivity.
  - reflexivity.
  - reflexivity.
  - reflexivity.
  - reflexivity.
  - reflexivity.
  - intros j i _ _. split; reflexivity.
Defined.

(** ** Runs that fail *)

Lemma bind_inv_raise {A B} (m : M A) (f : A -> M B) l e :
  bind m f = (l, Raise e) ->
  m = (l, Raise e) \/
  exists l1 a l2, m = (l1, Ok a) /\ f a = (l2, Raise e) /\ l = l1 ++ l2.
Proof.
  unfold bind. destruct m as [l1 [a|e1|]]; intros H.
  - destruct (f a) as [l2 r] eqn:Hf. inversion H; subst.
    right. exists l1, a, l2. auto.
  - inversion H; subst. left. reflexivity.
  - discriminate.
Qed.

Section FailedRuns.

Context {G : Gdb}.

Lemma type_list_get_log dtype : fst (type_list_get dtype) = [].
Proof.
  unfold type_list_get. destruct (find _ _) as [[? ?]|]; reflexivity.
Qed.

Lemma cell_log var fs ns dtype index :
  exists l, fst (cell var fs ns dtype index) = EvParse var :: l /\
            forallb is_walk_event l = true.
Proof.
  unfold cell, gdb_parse.
  destruct (parse_and_eval var) as [e|v]; cbn [lift emit raise ret bind app].
  - exists []. split; reflexivity.
  - assert (Hw : walk_only
                   (v0 <- replay (combine fs ns) v index 0 ;;
                    t <- type_list_get dtype ;; lift (np_scalar t v0))).
    { apply walk_only_bind; [apply walk_only_replay|]. intros v0.
      apply walk_only_bind; [|intros t; apply walk_only_lift].
      unfold walk_only. rewrite type_list_get_log. reflexivity. }
    unfold walk_only in Hw.
    destruct (bind (replay _ _ _ _) _) as [l r]. exists l. auto.
Qed.

Lemma cell_log_silent var fs ns dtype index l r :
  cell var fs ns dtype index = (l, r) ->
  stores l = [] /\ allocations l = [].
Proof.
  intros H. destruct (cell_log var fs ns dtype index) as (l' & Hl & Hw).
  rewrite H in Hl. cbn [fst] in Hl. subst l.
  destruct (walk_only_logs l' Hw) as (Hs & _ & Hz).
  cbn. auto.
Qed.

Lemma fill_raise var fs ns dtype indices :
  forall a l e,
  fill var fs ns dtype indices a = (l, Raise e) ->
  allocations l = [] /\
  exists rest, indices = stores l ++ rest /\ rest <> [].
Proof.
  induction indices as [|i rest IH]; intros a l e H; cbn [fill] in H.
  - discriminate.
  - apply bind_inv_raise in H.
    destruct H as [H | (l1 & x & l2 & H1 & H & ->)].
    { apply cell_log_silent in H. destruct H as [Hs Hz].
      split; [assumption|]. rewrite Hs. exists (i :: rest).
      split; [reflexivity | discriminate]. }
    apply cell_log_silent in H1. destruct H1 as [Hs Hz].
    apply bind_inv_raise in H.
    destruct H as [H | (l3 & a1 & l4 & H2 & H3 & ->)].
    { unfold nd_setitem in H. destruct (index_in_range _ _);
        [discriminate|].
      inversion H; subst. rewrite app_nil_r.
      split; [assumption|]. rewrite Hs. exists (i :: rest).
      split; [reflexivity | discriminate]. }
    apply nd_setitem_inv in H2. destruct H2 as [-> _].
    apply IH in H3. destruct H3 as (Hz' & r & Hr & Hne).
    rewrite !stores_app, !allocations_app, Hs, Hz, Hz'.
    split; [reflexivity|]. exists r. cbn. rewrite Hr at 1.
    split; [reflexivity | assumption].
Qed.

End FailedRuns.

(** X12.  In every run of [to_array] that raises, either the failure came
    before the buffer was allocated and nothing was stored, or the buffer
    was allocated once and the indices stored into are a proper initial
    segment of the Cartesian product of the ranges of its shape, in
    row-major order: a failure while the cells are read leaves the later
    cells untouched. *)
Theorem X12_failed_run_stores_prefix {G : Gdb}
    (fuel : nat) (var : string) (shape : option (list Z))
    (log : list event) (e : exn) :
  to_array fuel var shape = (log, Raise e) ->
  (allocations log = [] /\ stores log = []) \/
  (exists bnds rest,
     allocations log = [bnds] /\
     Py.product (map Py.range bnds) = stores log ++ rest /\
     rest <> []).
Proof.
  unfold to_array. intros H.
  apply bind_inv_raise in H.
  destruct H as [H | (l1 & v & l2 & H1 & H & ->)].
  { unfold gdb_parse in H. destruct (parse_and_eval var); cbn in H;
      inversion H; subst. left. split; reflexivity. }
  apply gdb_parse_inv in H1. destruct H1 as [_ ->].
  pose proof (walk_only_driver fuel v shape) as Hw. unfold walk_only in Hw.
  apply bind_inv_raise in H.
  destruct H as [H | (l3 & [[[fs ns] bnds] dtype] & l4 & H2 & H & ->)].
  { rewrite H in Hw. cbn [fst] in Hw.
    destruct (walk_only_logs l2 Hw) as (Hs & _ & Hz).
    left. cbn. auto. }
  rewrite H2 in Hw. cbn [fst] in Hw.
  destruct (walk_only_logs l3 Hw) as (Hs3 & _ & Hz3).
  apply bind_inv_raise in H.
  destruct H as [H | (l5 & t & l6 & H3 & H & ->)].
  { pose proof (type_list_get_log dtype) as Hl. rewrite H in Hl.
    cbn [fst] in Hl. subst l4. left.
    rewrite !stores_app, !allocations_app, Hs3, Hz3. cbn. auto. }
  apply type_list_get_inv in H3. destruct H3 as [_ ->].
  apply bind_inv_raise in H.
  destruct H as [H | (l7 & a0 & l8 & H4 & H5 & ->)].
  { unfold np_zeros in H. destruct (forallb _ _); [discriminate|].
    inversion H; subst. left.
    rewrite !stores_app, !allocations_app, Hs3, Hz3. cbn. auto. }
  apply np_zeros_inv in H4. destruct H4 as [-> _].
  apply fill_raise in H5. destruct H5 as (Hz & rest & Hr & Hne).
  right. exists bnds, rest.
  rewrite !stores_app, !allocations_app, Hs3, Hz3, Hz.
  cbn. auto.
Qed.

Lemma X12_failed_run_stores_prefix_witness :
  (allocations [EvParse "big"] = [] /\ stores [EvParse "big"] = []) \/
  (exists bnds rest,
     allocations [EvParse "big"] = [bnds] /\
     Py.product (map Py.range bnds) = stores [EvParse "big"] ++ rest /\
     rest <> []).
Proof.
  apply (X12_failed_run_stores_prefix (G := Demo.gdb) 1 "big" None
           [EvParse "big"] (KeyError "long")).
  reflexivity.
Defined.
